(** * SET CLI estimation engine: a shallow embedding of the Go sources

    The development follows the packages [github], [ai] and [estimator]
    of the repository.  Conventions of the embedding:

    - [float64] values are exact rationals ([Qc]); rounding of the IEEE
      arithmetic is not modelled.  Every quotient the engine forms is a
      quotient of small integers or of sums of such quotients.
    - a Go [string] is the sequence of its code points (valid UTF-8 text);
      [len] counts the bytes of the UTF-8 encoding.
    - a Go [int] is a [Z]; slice lengths are [Z.of_nat (length l)].
    - a [map[string]T] is a [gmap gostring T], a [map[string]bool] whose
      entries are all [true] is a [gset gostring].
    - a pointer [*T] that is compared by identity carries its address
      ([ptr T]); a pointer that may be [nil] is an [option].
    - a run-time panic (nil dereference, slice bound out of range) is the
      result [None]. *)

From Stdlib Require Import ZArith QArith Qcanon Qround Lqa Ascii String.
From stdpp Require Import base option numbers list list_numbers sorting gmap pretty.

Local Open Scope Z_scope.
Local Open Scope Qc_scope.

(** ** Go base types *)

Abbreviation float64 := Qc (only parsing).
Definition rune := N.
Definition gostring := list rune.

(** [float64(n)] for an [int] n. *)
Definition float64_of_int (n : Z) : float64 := Qc_of_Z n.

(** [int(x)] for a [float64] x: truncation toward zero. *)
Definition int_of_float64 (x : float64) : Z :=
  Z.quot (Qnum (this x)) (Z.pos (Qden (this x))).

(** [len(l)] of a slice. *)
Definition len {A} (l : list A) : Z := Z.of_nat (length l).

(** Decimal literals of the sources. *)
Definition dec (n : Z) (d : positive) : float64 := Q2Qc (n # d).

(** [utf8.RuneLen]: bytes of the encoding of one code point. *)
Definition utf8_RuneLen (r : rune) : Z :=
  if (r <? 128)%N then 1
  else if (r <? 2048)%N then 2
  else if (r <? 65536)%N then 3
  else 4.

(** [len(s)] of a string: its length in bytes. *)
Definition strlen (s : gostring) : Z := foldr (λ r n, utf8_RuneLen r + n)%Z 0%Z s.

(** Values stored in a [map[string]interface{}]. *)
Inductive iface :=
  | INil
  | IString (s : gostring)
  | IInt (n : Z)
  | IFloat (x : float64)
  | IBool (b : bool).

(** A pointer compared by identity: the address and the struct it points to. *)
Record ptr (A : Type) := Ptr { addr : N; deref : A }.
Arguments Ptr {A} _ _.
Arguments addr {A} _.
Arguments deref {A} _.

(** The parts of Go's library the engine calls and that are tables or
    formatting routines of the run time: the Unicode classes of package
    [unicode] and the verbs [%v] and [%f] of package [fmt].  Every theorem
    holds for all instances. *)
Class GoRuntime := {
  unicode_IsLetter : rune → bool;
  unicode_IsNumber : rune → bool;
  unicode_IsSpace : rune → bool;
  unicode_ToLower : rune → rune;
  (** [fmt.Sprintf("%v", v)] *)
  fmt_Sprintf_v : iface → gostring;
  (** [fmt.Sscanf(s, "%f", &f)]: the number read, [None] on an error *)
  fmt_Sscanf_f : gostring → option float64;
}.

(** ** Package [strings] *)

Section strings.
Context `{GoRuntime}.

Definition strings_ToLower (s : gostring) : gostring := unicode_ToLower <$> s.

Fixpoint trim_left (s : gostring) : gostring :=
  match s with
  | r :: s' => if unicode_IsSpace r then trim_left s' else s
  | [] => []
  end.

Definition strings_TrimSpace (s : gostring) : gostring :=
  reverse (trim_left (reverse (trim_left s))).

(** [strings.Fields]: the maximal runs of non-space code points.  [cur]
    is the field being read. *)
Fixpoint fields_from (cur : gostring) (s : gostring) : list gostring :=
  match s with
  | [] => match cur with [] => [] | _ => [cur] end
  | r :: s' =>
      if unicode_IsSpace r
      then match cur with [] => fields_from [] s' | _ => cur :: fields_from [] s' end
      else fields_from (cur ++ [r]) s'
  end.

Definition strings_Fields (s : gostring) : list gostring := fields_from [] s.
End strings.

(** ** Package [github] (types.go) *)

Module Label.
Record t := mk { Name : gostring }.
End Label.

Module Issue.
Record t := mk {
  Title : gostring;
  Body : gostring;
  State : gostring;
  Labels : list Label.t;
  CustomFields : gmap gostring iface;
}.
End Issue.

(** ** Package [estimator]: types *)

Module Task.
Record t := mk {
  Title : gostring;
  Description : gostring;
  Labels : list gostring;
  Context : gmap gostring iface;
}.
End Task.

Module HistoricalTask.
Record t := mk {
  Issue : option Issue.t;   (* *github.Issue, nil when absent *)
  ActualHours : float64;
  EstimatedSize : gostring;
  StoryPoints : float64;
}.
End HistoricalTask.

Module SimilarityMatch.
Record t := mk {
  Task : ptr HistoricalTask.t;
  Similarity : float64;
  Matches : list gostring;
}.
End SimilarityMatch.

Module EstimationConfig.
Record t := mk {
  MaxSimilarTasks : Z;
  MinSimilarTasks : Z;
  MinSimilarityThreshold : float64;
  StratifiedSamplesPerSize : Z;
}.
End EstimationConfig.

Module SimilarityContext.
Record t := mk {
  ThresholdUsed : float64;
  ThresholdsTriedCount : Z;
  TotalTasksScanned : Z;
  MatchesFound : Z;
  HighestSimilarity : float64;
}.
End SimilarityContext.

(** The local struct [scoredTask] of [FindSimilarTasksAdaptive]. *)
Module scoredTask.
Record t := mk {
  hist : ptr HistoricalTask.t;
  similarity : float64;
  matches : list gostring;
}.
End scoredTask.

(** String literals of the sources, as code points. *)
Definition go (s : string) : gostring := N_of_ascii <$> list_ascii_of_string s.

Definition DefaultEstimationConfig : EstimationConfig.t :=
  {| EstimationConfig.MaxSimilarTasks := 15;
     EstimationConfig.MinSimilarTasks := 10;
     EstimationConfig.MinSimilarityThreshold := dec 3 10;
     EstimationConfig.StratifiedSamplesPerSize := 2 |}.

(** ** similarity.go *)

Section similarity.
Context `{GoRuntime}.

(** [normalizeText]: lower-case, trim, keep letters, digits and spaces. *)
Definition normalizeText (text : gostring) : gostring :=
  let text := strings_ToLower text in
  let text := strings_TrimSpace text in
  filter (λ r, unicode_IsLetter r || unicode_IsNumber r || unicode_IsSpace r) text.

(** [extractWords]: the distinct words longer than two bytes.  The source
    ranges over a map, so the order of the result is unspecified; the
    order of [elements] stands for it. *)
Definition extractWords (text : gostring) : list gostring :=
  let words := strings_Fields text in
  let unique : gset gostring :=
    foldl (λ (unique : gset gostring) word,
             let word := strings_ToLower (strings_TrimSpace word) in
             if bool_decide (2 < strlen word)%Z then {[ word ]} ∪ unique else unique)
          ∅ words in
  elements unique.

(** [jaccardSimilarity] *)
Definition jaccardSimilarity (set1 set2 : list gostring) : float64 :=
  if bool_decide (len set1 = 0 ∧ len set2 = 0)%Z then 1
  else
    let map1 : gset gostring := list_to_set (strings_ToLower <$> set1) in
    let map2 : gset gostring := list_to_set (strings_ToLower <$> set2) in
    let intersection := Z.of_nat (size (filter (λ item, item ∈ map2) map1)) in
    let union := (Z.of_nat (size map1) + Z.of_nat (size map2) - intersection)%Z in
    if bool_decide (union = 0)%Z then 0
    else float64_of_int intersection / float64_of_int union.

(** [calculateTextSimilarity] *)
Definition calculateTextSimilarity (text1 text2 : gostring) : float64 :=
  let t1 := normalizeText text1 in
  let t2 := normalizeText text2 in
  if bool_decide (t1 = [] ∨ t2 = []) then 0
  else jaccardSimilarity (extractWords t1) (extractWords t2).

(** [calculateLabelSimilarity] *)
Definition calculateLabelSimilarity (labels1 labels2 : list gostring) : float64 :=
  if bool_decide (len labels1 = 0 ∧ len labels2 = 0)%Z then 1
  else if bool_decide (len labels1 = 0 ∨ len labels2 = 0)%Z then 0
  else jaccardSimilarity labels1 labels2.

(** [toString] *)
Definition toString (v : iface) : gostring :=
  match v with
  | INil => []
  | IString val => val
  | _ => strings_TrimSpace (strings_ToLower (fmt_Sprintf_v v))
  end.

(** [compareValues] *)
Definition compareValues (v1 v2 : iface) : bool :=
  let s1 := strings_ToLower (strings_TrimSpace (toString v1)) in
  let s2 := strings_ToLower (strings_TrimSpace (toString v2)) in
  bool_decide (s1 = s2).

(** The two loop bodies of [calculateContextSimilarity]: does the key of
    an entry of [context1] hold an equal value in [context2]; is the key
    of an entry of [context2] missing from [context1]. *)
Definition context_value_matches (context2 : gmap gostring iface) (kv : gostring * iface) : bool :=
  match context2 !! kv.1 with
  | Some val2 => compareValues kv.2 val2
  | None => false
  end.

Definition context_key_missing (context1 : gmap gostring iface) (kv : gostring * iface) : bool :=
  match context1 !! kv.1 with
  | Some _ => false
  | None => true
  end.

(** [calculateContextSimilarity]: both loops range over a map and only
    count, so the order of iteration does not matter. *)
Definition calculateContextSimilarity (context1 context2 : gmap gostring iface) : float64 :=
  if bool_decide (size context1 = 0%nat ∧ size context2 = 0%nat) then 1
  else if bool_decide (size context1 = 0%nat ∨ size context2 = 0%nat) then 0
  else
    let matches :=
      Z.of_nat (size (filter (λ kv, context_value_matches context2 kv = true) context1)) in
    let total :=
      (Z.of_nat (size context1) +
       Z.of_nat (size (filter (λ kv, context_key_missing context1 kv = true) context2)))%Z in
    if bool_decide (total = 0)%Z then 0
    else float64_of_int matches / float64_of_int total.

(** [extractLabels] *)
Definition extractLabels (issue : Issue.t) : list gostring :=
  Label.Name <$> Issue.Labels issue.

(** [CalculateSimilarity].  [historical] is the pointer argument of the
    source; [None] is the nil pointer. *)
Definition CalculateSimilarity (task : Task.t) (historical : option (ptr HistoricalTask.t)) : float64 :=
  match historical with
  | None => 0
  | Some historical =>
    match HistoricalTask.Issue (deref historical) with
    | None => 0
    | Some issue =>
      let totalScore : float64 := 0 in
      let totalWeight : float64 := 0 in
      (* Title similarity (weight: 0.4) *)
      let titleScore := calculateTextSimilarity (Task.Title task) (Issue.Title issue) in
      let totalScore := totalScore + titleScore * dec 4 10 in
      let totalWeight := totalWeight + dec 4 10 in
      (* Description similarity (weight: 0.3) *)
      let '(totalScore, totalWeight) :=
        if bool_decide (Task.Description task ≠ [] ∧ Issue.Body issue ≠ []) then
          let descScore := calculateTextSimilarity (Task.Description task) (Issue.Body issue) in
          (totalScore + descScore * dec 3 10, totalWeight + dec 3 10)
        else (totalScore, totalWeight) in
      (* Label similarity (weight: 0.2) *)
      let labelScore := calculateLabelSimilarity (Task.Labels task) (extractLabels issue) in
      let totalScore := totalScore + labelScore * dec 2 10 in
      let totalWeight := totalWeight + dec 2 10 in
      (* Custom fields similarity (weight: 0.1) *)
      let '(totalScore, totalWeight) :=
        if bool_decide (0 < size (Task.Context task) ∧ 0 < size (Issue.CustomFields issue))%nat then
          let contextScore := calculateContextSimilarity (Task.Context task) (Issue.CustomFields issue) in
          (totalScore + contextScore * dec 1 10, totalWeight + dec 1 10)
        else (totalScore, totalWeight) in
      (* Normalize by total weight *)
      if bool_decide (0 < totalWeight) then totalScore / totalWeight
      else 0
    end
  end.

(** [identifyMatches].  The source reads [historical.Issue.Title] without
    a nil check: on an entry without an issue it panics. *)
Definition identifyMatches (task : Task.t) (historical : ptr HistoricalTask.t) : option (list gostring) :=
  issue ← HistoricalTask.Issue (deref historical);
  let matches : list gostring := [] in
  let titleSim := calculateTextSimilarity (Task.Title task) (Issue.Title issue) in
  let matches := if bool_decide (dec 5 10 < titleSim) then matches ++ [go "title"] else matches in
  let matches :=
    if bool_decide (Task.Description task ≠ [] ∧ Issue.Body issue ≠ []) then
      let descSim := calculateTextSimilarity (Task.Description task) (Issue.Body issue) in
      if bool_decide (dec 3 10 < descSim) then matches ++ [go "description"] else matches
    else matches in
  let labelSim := calculateLabelSimilarity (Task.Labels task) (extractLabels issue) in
  let matches := if bool_decide (dec 3 10 < labelSim) then matches ++ [go "labels"] else matches in
  let matches :=
    if bool_decide (0 < size (Task.Context task) ∧ 0 < size (Issue.CustomFields issue))%nat then
      let contextSim := calculateContextSimilarity (Task.Context task) (Issue.CustomFields issue) in
      if bool_decide (dec 3 10 < contextSim) then matches ++ [go "custom_fields"] else matches
    else matches in
  Some matches.
End similarity.

(** ** The in-place exchange sort of the sources

    The same pair of loops sorts matches by similarity (similarity.go),
    hours and tasks by hours (estimator.go):
<<
    for i := 0; i < len(a); i++ {
        for j := i + 1; j < len(a); j++ {
            if out_of_order(a[i], a[j]) { a[i], a[j] = a[j], a[i] }
        }
    }
>> *)

Section exchange_sort.
Context {A : Type} (out_of_order : A → A → bool).

Definition swap_step (i j : nat) (a : list A) : list A :=
  match a !! i, a !! j with
  | Some x, Some y => if out_of_order x y then <[i:=y]> (<[j:=x]> a) else a
  | _, _ => a
  end.

Definition inner_loop (i : nat) (a : list A) : list A :=
  foldl (λ a j, swap_step i j a) a (seq (S i) (length a - S i)).

Definition exchange_sort (a : list A) : list A :=
  foldl (λ a i, inner_loop i a) a (seq 0 (length a)).

(** The same computation on the list structure: one inner loop carries
    the current [a[i]] through the rest of the slice and leaves the
    displaced elements behind. *)
Fixpoint carry (cur : A) (rest : list A) : A * list A :=
  match rest with
  | [] => (cur, [])
  | y :: rest' =>
      if out_of_order cur y
      then let '(m, r) := carry y rest' in (m, cur :: r)
      else let '(m, r) := carry cur rest' in (m, y :: r)
  end.

Fixpoint exchange_passes (n : nat) (a : list A) : list A :=
  match n, a with
  | S n', x :: rest => let '(m, r) := carry x rest in m :: exchange_passes n' r
  | _, _ => a
  end.
End exchange_sort.

Section adaptive.
Context `{GoRuntime}.

(** [sortBySimilarity]: swap when [matches[j].Similarity > matches[i].Similarity]. *)
Definition sortBySimilarity (matches : list SimilarityMatch.t) : list SimilarityMatch.t :=
  exchange_sort
    (λ mi mj, bool_decide (SimilarityMatch.Similarity mi < SimilarityMatch.Similarity mj))
    matches.

Definition thresholds : list float64 :=
  [dec 5 10; dec 4 10; dec 3 10; dec 2 10; dec 15 100].

Definition minDesiredMatches : Z := 3.

(** [l[:n]] for [n] below [len(l)]: panics when [n] is negative. *)
Definition slice_to {A} (l : list A) (n : Z) : option (list A) :=
  if bool_decide (0 ≤ n ≤ len l)%Z then Some (take (Z.to_nat n) l) else None.

(** [if len(matches) > maxMatches { matches[:maxMatches] } else { matches }] *)
Definition limit_matches (matches : list SimilarityMatch.t) (maxMatches : Z)
    : option (list SimilarityMatch.t) :=
  if bool_decide (maxMatches < len matches)%Z then slice_to matches maxMatches
  else Some matches.

(** The first loop of [FindSimilarTasksAdaptive]: score every entry once
    and track the highest score.  ([allSimilarities] is written and never
    read; it is left out.) *)
Fixpoint score_tasks (task : Task.t) (historical : list (ptr HistoricalTask.t))
    (scoredTasks : list scoredTask.t) (maxSimilarity : float64)
    : option (list scoredTask.t * float64) :=
  match historical with
  | [] => Some (scoredTasks, maxSimilarity)
  | hist :: historical' =>
      let similarity := CalculateSimilarity task (Some hist) in
      let maxSimilarity :=
        if bool_decide (maxSimilarity < similarity) then similarity else maxSimilarity in
      matches ← identifyMatches task hist;
      score_tasks task historical'
        (scoredTasks ++ [scoredTask.mk hist similarity matches]) maxSimilarity
  end.

(** The matches of one threshold, before sorting. *)
Definition matches_at (threshold : float64) (scoredTasks : list scoredTask.t)
    : list SimilarityMatch.t :=
  (λ scored, SimilarityMatch.mk (scoredTask.hist scored) (scoredTask.similarity scored)
               (scoredTask.matches scored))
  <$> filter (λ scored, threshold ≤ scoredTask.similarity scored) scoredTasks.

(** The threshold loop.  The result is [(bestMatches, thresholdUsed,
    thresholdsTriedCount)] when the loop is left, by [break] or at its
    end.  [lowest] is [thresholds[len(thresholds)-1]]. *)
Fixpoint try_thresholds (scoredTasks : list scoredTask.t) (maxMatches : Z)
    (lowest : float64) (remaining : list float64) (thresholdsTriedCount : Z)
    : option (list SimilarityMatch.t * float64 * Z) :=
  match remaining with
  | [] => Some ([], 0, thresholdsTriedCount)
  | threshold :: remaining' =>
      let thresholdsTriedCount := (thresholdsTriedCount + 1)%Z in
      let matches := sortBySimilarity (matches_at threshold scoredTasks) in
      if bool_decide (minDesiredMatches ≤ len matches)%Z then
        bestMatches ← limit_matches matches maxMatches;
        Some (bestMatches, threshold, thresholdsTriedCount)
      else if bool_decide (threshold = lowest ∧ (0 < len matches)%Z) then
        bestMatches ← limit_matches matches maxMatches;
        Some (bestMatches, threshold, thresholdsTriedCount)
      else try_thresholds scoredTasks maxMatches lowest remaining' thresholdsTriedCount
  end.

(** [FindSimilarTasksAdaptive].  [config] is a pointer that may be nil. *)
Definition FindSimilarTasksAdaptive (task : Task.t) (historical : list (ptr HistoricalTask.t))
    (config : option EstimationConfig.t)
    : option (list SimilarityMatch.t * SimilarityContext.t) :=
  let config := default DefaultEstimationConfig config in
  let maxMatches := EstimationConfig.MaxSimilarTasks config in
  '(scoredTasks, maxSimilarity) ← score_tasks task historical [] 0;
  '(bestMatches, thresholdUsed, thresholdsTriedCount) ←
    try_thresholds scoredTasks maxMatches (default 0 (last thresholds)) thresholds 0;
  let thresholdUsed :=
    if bool_decide (len bestMatches = 0)%Z
    then EstimationConfig.MinSimilarityThreshold config else thresholdUsed in
  Some (bestMatches,
        {| SimilarityContext.ThresholdUsed := thresholdUsed;
           SimilarityContext.ThresholdsTriedCount := thresholdsTriedCount;
           SimilarityContext.TotalTasksScanned := len historical;
           SimilarityContext.MatchesFound := len bestMatches;
           SimilarityContext.HighestSimilarity := maxSimilarity |}).
End adaptive.

(** ** estimator.go *)

Module CategoryStats.
Record t := mk {
  Count : Z;
  AvgHours : float64;
  MinHours : float64;
  MaxHours : float64;
  TaskTitles : list gostring;
}.
End CategoryStats.

Module DatasetStatistics.
Record t := mk {
  TotalTasks : Z;
  ClosedTasks : Z;
  AvgHours : float64;
  MedianHours : float64;
  TasksBySize : gmap gostring Z;
  TasksByCategory : gmap gostring Z;
  CategoryBreakdown : gmap gostring CategoryStats.t;
  PercentileHours : list float64;
}.
End DatasetStatistics.

(** The variables of the first loop of [calculateDatasetStatistics]. *)
Module statsLoop.
Record t := mk {
  TotalTasks : Z;
  ClosedTasks : Z;
  TasksBySize : gmap gostring Z;
  TasksByCategory : gmap gostring Z;
  totalHours : float64;
  hoursCount : Z;
  hours : list float64;
  categoryHours : gmap gostring (list float64);
  categoryTitles : gmap gostring (list gostring);
}.
End statsLoop.

(** [m[k]++] and [m[k] = append(m[k], x)]; a missing key reads as the zero value. *)
Definition map_incr (k : gostring) (m : gmap gostring Z) : gmap gostring Z :=
  <[k := (default 0 (m !! k) + 1)%Z]> m.

Definition map_append {A} (k : gostring) (x : A) (m : gmap gostring (list A))
    : gmap gostring (list A) :=
  <[k := default [] (m !! k) ++ [x]]> m.

(** [a[i]] where the source guarantees [0 <= i < len(a)]. *)
Definition at_index (a : list float64) (i : Z) : float64 :=
  default 0 (a !! Z.to_nat i).

(** The percentile levels of both [calculateDatasetStatistics] and
    [selectEnhancedDataset]. *)
Definition percentiles : list float64 :=
  [dec 10 100; dec 25 100; dec 50 100; dec 75 100; dec 90 100].

(** [int(float64(n-1) * p)] *)
Definition percentile_index (n : Z) (p : float64) : Z :=
  int_of_float64 (float64_of_int (n - 1) * p).

(** Swap when [a[i] > a[j]]: ascending order. *)
Definition sort_hours (hours : list float64) : list float64 :=
  exchange_sort (λ x y, bool_decide (y < x)) hours.

(** The median of a sorted, non-empty slice as [calculateDatasetStatistics]
    takes it. *)
Definition median_of_sorted (sortedHours : list float64) : float64 :=
  let mid := (len sortedHours / 2)%Z in
  if bool_decide (len sortedHours mod 2 = 0)%Z
  then (at_index sortedHours (mid - 1) + at_index sortedHours mid) / 2
  else at_index sortedHours mid.

(** The body of the loop over the labels of one entry. *)
Definition stats_label_step (hist : ptr HistoricalTask.t) (issue : Issue.t)
    (st : statsLoop.t) (label : Label.t) : statsLoop.t :=
  let name := Label.Name label in
  let byCategory := map_incr name (statsLoop.TasksByCategory st) in
  let categoryHours :=
    if bool_decide (0 < HistoricalTask.ActualHours (deref hist))
    then map_append name (HistoricalTask.ActualHours (deref hist)) (statsLoop.categoryHours st)
    else statsLoop.categoryHours st in
  let categoryTitles :=
    if bool_decide (len (default [] (statsLoop.categoryTitles st !! name)) < 3)%Z
    then map_append name (Issue.Title issue) (statsLoop.categoryTitles st)
    else statsLoop.categoryTitles st in
  {| statsLoop.TotalTasks := statsLoop.TotalTasks st;
     statsLoop.ClosedTasks := statsLoop.ClosedTasks st;
     statsLoop.TasksBySize := statsLoop.TasksBySize st;
     statsLoop.TasksByCategory := byCategory;
     statsLoop.totalHours := statsLoop.totalHours st;
     statsLoop.hoursCount := statsLoop.hoursCount st;
     statsLoop.hours := statsLoop.hours st;
     statsLoop.categoryHours := categoryHours;
     statsLoop.categoryTitles := categoryTitles |}.

(** The body of the loop over the historical entries. *)
Definition stats_step (st : statsLoop.t) (hist : ptr HistoricalTask.t) : statsLoop.t :=
  let h := deref hist in
  let closed :=
    match HistoricalTask.Issue h with
    | Some issue =>
        if bool_decide (Issue.State issue = go "closed")
        then (statsLoop.ClosedTasks st + 1)%Z else statsLoop.ClosedTasks st
    | None => statsLoop.ClosedTasks st
    end in
  let positive := bool_decide (0 < HistoricalTask.ActualHours h) in
  let st :=
    {| statsLoop.TotalTasks := (statsLoop.TotalTasks st + 1)%Z;
       statsLoop.ClosedTasks := closed;
       statsLoop.TasksBySize :=
         if bool_decide (HistoricalTask.EstimatedSize h ≠ [])
         then map_incr (HistoricalTask.EstimatedSize h) (statsLoop.TasksBySize st)
         else statsLoop.TasksBySize st;
       statsLoop.TasksByCategory := statsLoop.TasksByCategory st;
       statsLoop.totalHours :=
         if positive then statsLoop.totalHours st + HistoricalTask.ActualHours h
         else statsLoop.totalHours st;
       statsLoop.hoursCount :=
         if positive then (statsLoop.hoursCount st + 1)%Z else statsLoop.hoursCount st;
       statsLoop.hours :=
         if positive then statsLoop.hours st ++ [HistoricalTask.ActualHours h]
         else statsLoop.hours st;
       statsLoop.categoryHours := statsLoop.categoryHours st;
       statsLoop.categoryTitles := statsLoop.categoryTitles st |} in
  match HistoricalTask.Issue h with
  | Some issue => foldl (stats_label_step hist issue) st (Issue.Labels issue)
  | None => st
  end.

Definition stats_init : statsLoop.t :=
  {| statsLoop.TotalTasks := 0; statsLoop.ClosedTasks := 0;
     statsLoop.TasksBySize := ∅; statsLoop.TasksByCategory := ∅;
     statsLoop.totalHours := 0; statsLoop.hoursCount := 0; statsLoop.hours := [];
     statsLoop.categoryHours := ∅; statsLoop.categoryTitles := ∅ |}.

(** The statistics of one category; a category without hours is skipped. *)
Definition category_stats (titles : list gostring) (hoursSlice : list float64)
    : option CategoryStats.t :=
  match hoursSlice with
  | [] => None
  | h0 :: _ =>
      Some {| CategoryStats.Count := len hoursSlice;
              CategoryStats.TaskTitles := titles;
              CategoryStats.MinHours :=
                foldl (λ m h, if bool_decide (h < m) then h else m) h0 hoursSlice;
              CategoryStats.MaxHours :=
                foldl (λ m h, if bool_decide (m < h) then h else m) h0 hoursSlice;
              CategoryStats.AvgHours :=
                foldl Qcplus 0 hoursSlice / float64_of_int (len hoursSlice) |}
  end.

(** [calculateDatasetStatistics]; the nil result is [None]. *)
Definition calculateDatasetStatistics (historical : list (ptr HistoricalTask.t))
    : option DatasetStatistics.t :=
  if bool_decide (len historical = 0)%Z then None
  else
    let st := foldl stats_step stats_init historical in
    let hours := statsLoop.hours st in
    let has_hours := bool_decide (0 < statsLoop.hoursCount st ∧ 0 < len hours)%Z in
    let sortedHours := sort_hours hours in
    Some {|
      DatasetStatistics.TotalTasks := statsLoop.TotalTasks st;
      DatasetStatistics.ClosedTasks := statsLoop.ClosedTasks st;
      DatasetStatistics.AvgHours :=
        if bool_decide (0 < statsLoop.hoursCount st)%Z
        then statsLoop.totalHours st / float64_of_int (statsLoop.hoursCount st)
        else 0;
      DatasetStatistics.MedianHours :=
        if has_hours then median_of_sorted sortedHours else 0;
      DatasetStatistics.TasksBySize := statsLoop.TasksBySize st;
      DatasetStatistics.TasksByCategory := statsLoop.TasksByCategory st;
      DatasetStatistics.CategoryBreakdown :=
        map_imap (λ category hoursSlice,
                    category_stats (default [] (statsLoop.categoryTitles st !! category))
                                   hoursSlice)
                 (statsLoop.categoryHours st);
      DatasetStatistics.PercentileHours :=
        if has_hours
        then (λ p, at_index sortedHours (percentile_index (len sortedHours) p)) <$> percentiles
        else []
    |}.

(** *** [selectEnhancedDataset]

    [selectedMap] is a [map[*HistoricalTask]bool]: the set of the addresses
    of the selected entries. *)

(** [fmt.Sprintf("%.0f", x)] for a non-negative [x]: the nearest integer,
    ties to even, in decimal. *)
Definition round_half_even (x : float64) : Z :=
  let f := int_of_float64 x in
  let r := x - float64_of_int f in
  if bool_decide (r < dec 1 2) then f
  else if bool_decide (dec 1 2 < r) then (f + 1)%Z
  else if Z.even f then f else (f + 1)%Z.

Definition decimal (n : Z) : gostring :=
  go (pretty n).

(** [fmt.Sprintf("percentile_%.0f", p*100)] *)
Definition percentile_tag (p : float64) : gostring :=
  go "percentile_" ++ decimal (round_half_even (p * float64_of_int 100)).

Definition sizes : list gostring := [go "XS"; go "S"; go "M"; go "L"; go "XL"].

(** Swap when [tasksWithHours[i].ActualHours > tasksWithHours[j].ActualHours]. *)
Definition sort_tasks_by_hours (tasks : list (ptr HistoricalTask.t)) : list (ptr HistoricalTask.t) :=
  exchange_sort
    (λ ti tj, bool_decide (HistoricalTask.ActualHours (deref tj) < HistoricalTask.ActualHours (deref ti)))
    tasks.

Section enhance.
Variable config : EstimationConfig.t.

(** Step 1: the similar tasks, up to [MaxSimilarTasks]. *)
Fixpoint add_similar (similarTasks : list SimilarityMatch.t)
    (enhanced : list SimilarityMatch.t) (selectedMap : gset N)
    : list SimilarityMatch.t * gset N :=
  match similarTasks with
  | [] => (enhanced, selectedMap)
  | match_ :: similarTasks' =>
      if bool_decide (EstimationConfig.MaxSimilarTasks config ≤ len enhanced)%Z
      then (enhanced, selectedMap)
      else add_similar similarTasks' (enhanced ++ [match_])
             ({[ addr (SimilarityMatch.Task match_) ]} ∪ selectedMap)
  end.

(** Step 2, the buckets: the entries not yet selected, by size. *)
Definition size_buckets (historical : list (ptr HistoricalTask.t)) (selectedMap : gset N)
    : gmap gostring (list (ptr HistoricalTask.t)) :=
  foldl (λ sizeBuckets hist,
           if bool_decide (addr hist ∈ selectedMap) then sizeBuckets
           else if bool_decide (HistoricalTask.EstimatedSize (deref hist) ≠ [])
           then map_append (HistoricalTask.EstimatedSize (deref hist)) hist sizeBuckets
           else sizeBuckets)
        ∅ historical.

(** Step 2, the loop over one bucket; [from_i] is [bucket[i:]].  When
    [i] reaches [len(bucket)] the body adds nothing any more. *)
Fixpoint sample_bucket (samplesNeeded i : Z) (from_i : list (ptr HistoricalTask.t))
    (enhanced : list SimilarityMatch.t) (selectedMap : gset N)
    : list SimilarityMatch.t * gset N :=
  if bool_decide (i < samplesNeeded ∧ len enhanced < EstimationConfig.MinSimilarTasks config)%Z
  then
    match from_i with
    | hist :: from_i' =>
        sample_bucket samplesNeeded (i + 1)%Z from_i'
          (enhanced ++ [SimilarityMatch.mk hist 0 [go "stratified_sample"]])
          ({[ addr hist ]} ∪ selectedMap)
    | [] => (enhanced, selectedMap)
    end
  else (enhanced, selectedMap).

(** Step 2, the loop over the sizes. *)
Fixpoint stratified_loop (sizeBuckets : gmap gostring (list (ptr HistoricalTask.t)))
    (remaining : list gostring) (enhanced : list SimilarityMatch.t) (selectedMap : gset N)
    : list SimilarityMatch.t * gset N :=
  match remaining with
  | [] => (enhanced, selectedMap)
  | size :: remaining' =>
      if bool_decide (EstimationConfig.MinSimilarTasks config ≤ len enhanced)%Z
      then (enhanced, selectedMap)
      else
        let bucket := default [] (sizeBuckets !! size) in
        let samplesNeeded := EstimationConfig.StratifiedSamplesPerSize config in
        let samplesNeeded :=
          if bool_decide (len bucket < samplesNeeded)%Z then len bucket else samplesNeeded in
        let '(enhanced, selectedMap) :=
          sample_bucket samplesNeeded 0 bucket enhanced selectedMap in
        stratified_loop sizeBuckets remaining' enhanced selectedMap
  end.

(** Step 3, the loop over the percentiles.  [idx] is within bounds
    because [tasksWithHours] is not empty and every level is below 1. *)
Fixpoint percentile_loop (tasksWithHours : list (ptr HistoricalTask.t))
    (remaining : list float64) (enhanced : list SimilarityMatch.t) (selectedMap : gset N)
    : list SimilarityMatch.t * gset N :=
  match remaining with
  | [] => (enhanced, selectedMap)
  | p :: remaining' =>
      if bool_decide (EstimationConfig.MinSimilarTasks config ≤ len enhanced)%Z
      then (enhanced, selectedMap)
      else
        let idx := percentile_index (len tasksWithHours) p in
        match tasksWithHours !! Z.to_nat idx with
        | Some hist =>
            if bool_decide (addr hist ∈ selectedMap)
            then percentile_loop tasksWithHours remaining' enhanced selectedMap
            else percentile_loop tasksWithHours remaining'
                   (enhanced ++ [SimilarityMatch.mk hist 0 [percentile_tag p]])
                   ({[ addr hist ]} ∪ selectedMap)
        | None => percentile_loop tasksWithHours remaining' enhanced selectedMap
        end
  end.

(** [selectEnhancedDataset] *)
Definition selectEnhancedDataset (similarTasks : list SimilarityMatch.t)
    (historical : list (ptr HistoricalTask.t)) : list SimilarityMatch.t :=
  (* Step 1 *)
  let '(enhanced, selectedMap) := add_similar similarTasks [] ∅ in
  (* Step 2 *)
  let '(enhanced, selectedMap) :=
    if bool_decide (len enhanced < EstimationConfig.MinSimilarTasks config)%Z
    then stratified_loop (size_buckets historical selectedMap) sizes enhanced selectedMap
    else (enhanced, selectedMap) in
  (* Step 3 *)
  let '(enhanced, selectedMap) :=
    if bool_decide (len enhanced < EstimationConfig.MinSimilarTasks config)%Z
    then
      let tasksWithHours :=
        filter (λ hist, (addr hist ∉ selectedMap) ∧ (0 < HistoricalTask.ActualHours (deref hist)))
               historical in
      let tasksWithHours := sort_tasks_by_hours tasksWithHours in
      if bool_decide (0 < len tasksWithHours)%Z
      then percentile_loop tasksWithHours percentiles enhanced selectedMap
      else (enhanced, selectedMap)
    else (enhanced, selectedMap) in
  enhanced.
End enhance.

(** ** Package [ai] (types.go, prompts.go) *)

(** A Go [error] is its message; a function result [(T, error)] with
    exactly one of the two set is a [result T]. *)
Definition error := gostring.

Inductive result (A : Type) :=
  | Ok (a : A)
  | Err (e : error).
Arguments Ok {A} _.
Arguments Err {A} _.

(** [fmt.Errorf("<prefix>: %w", err)] *)
Definition wrap (prefix : string) (err : error) : error := go prefix ++ go ": " ++ err.

Module EstimationResponse.
Record t := mk {
  EstimatedHours : float64;
  EstimatedSize : gostring;
  StoryPoints : float64;
  ConfidenceScore : float64;
  Reasoning : gostring;
  Assumptions : list gostring;
  Risks : list gostring;
  RecommendedAction : gostring;
}.
End EstimationResponse.

Module SimilarTask.
Record t := mk {
  Title : gostring;
  Description : gostring;
  ActualHours : float64;
  EstimatedSize : gostring;
  StoryPoints : float64;
  Labels : list gostring;
  CustomFields : gmap gostring iface;
  Similarity : float64;
}.
End SimilarTask.

Module SimilarityMeta.
Record t := mk {
  ThresholdUsed : float64;
  HighestSimilarity : float64;
  MatchesFound : Z;
}.
End SimilarityMeta.

(** [ai.DatasetStats] and [ai.CategoryStats] repeat the estimator's
    [DatasetStatistics] and [CategoryStats] field for field; the copy that
    [estimateWithAI] makes is the identity on the model. *)
Module EstimationRequest.
Record t := mk {
  TaskTitle : gostring;
  TaskDescription : gostring;
  SimilarTasks : list SimilarTask.t;
  Context : gmap gostring iface;
  DatasetStats : option DatasetStatistics.t;
  SimilarityContext : option SimilarityMeta.t;
}.
End EstimationRequest.

(** The interface [AIProvider]. *)
Module AIProvider.
Record t := mk {
  EstimateTask : EstimationRequest.t → result EstimationResponse.t;
  GetName : gostring;
  IsAvailable : bool;
}.
End AIProvider.

(** [json.Unmarshal] into an [EstimationResponse], of package
    [encoding/json]. *)
Class GoJSON := {
  json_Unmarshal : gostring → result EstimationResponse.t;
}.

(** [validateEstimationResponse]; [None] is the nil error. *)
Definition validateEstimationResponse (resp : EstimationResponse.t) : option error :=
  if bool_decide (EstimationResponse.EstimatedHours resp < 0)
  then Some (go "estimated_hours must be non-negative")
  else if bool_decide (EstimationResponse.StoryPoints resp < 0)
  then Some (go "story_points must be non-negative")
  else if bool_decide (EstimationResponse.ConfidenceScore resp < 0
                       ∨ 1 < EstimationResponse.ConfidenceScore resp)
  then Some (go "confidence_score must be between 0.0 and 1.0")
  else
    let validSizes : gset gostring := list_to_set [go "XS"; go "S"; go "M"; go "L"; go "XL"] in
    if bool_decide (EstimationResponse.EstimatedSize resp ≠ []
                    ∧ EstimationResponse.EstimatedSize resp ∉ validSizes)
    then Some (go "estimated_size must be one of: XS, S, M, L, XL")
    else if bool_decide (EstimationResponse.Reasoning resp = [])
    then Some (go "reasoning is required")
    else None.

Section prompts.
Context `{GoRuntime} `{GoJSON}.

(** [strings.Split(text, "\n")] *)
Fixpoint split_lines (cur : gostring) (text : gostring) : list gostring :=
  match text with
  | [] => [cur]
  | r :: text' =>
      if bool_decide (r = 10%N) then cur :: split_lines [] text'
      else split_lines (cur ++ [r]) text'
  end.

(** [strings.Join(lines, "\n")] *)
Fixpoint join_lines (lines : list gostring) : gostring :=
  match lines with
  | [] => []
  | [line] => line
  | line :: lines' => line ++ 10%N :: join_lines lines'
  end.

(** The loop that cuts the lines at the closing fence. *)
Fixpoint cut_at_fence (lines : list gostring) : list gostring :=
  match lines with
  | [] => []
  | line :: lines' =>
      if bool_decide (strings_TrimSpace line = go "```") then []
      else line :: cut_at_fence lines'
  end.

(** The loop that looks for the brace closing the first one; [object]
    is [text[startIdx:i]].  [None] when the loop ends without [break]. *)
Fixpoint match_brace (braceCount : Z) (object : gostring) (from_i : gostring)
    : option gostring :=
  match from_i with
  | [] => None
  | c :: from_i' =>
      if bool_decide (c = 123%N)
      then match_brace (braceCount + 1)%Z (object ++ [c]) from_i'
      else if bool_decide (c = 125%N)
      then
        if bool_decide (braceCount - 1 = 0)%Z then Some (object ++ [c])
        else match_brace (braceCount - 1)%Z (object ++ [c]) from_i'
      else match_brace braceCount (object ++ [c]) from_i'
  end.

(** [text[strings.Index(text, "{"):]], [None] when there is no brace. *)
Fixpoint from_first_brace (text : gostring) : option gostring :=
  match text with
  | [] => None
  | c :: text' => if bool_decide (c = 123%N) then Some text else from_first_brace text'
  end.

(** [extractJSONFromMarkdown] *)
Definition extractJSONFromMarkdown (text : gostring) : gostring :=
  let text := strings_TrimSpace text in
  let text :=
    if bool_decide (take 3 text = go "```") then
      let lines := split_lines [] text in
      if bool_decide (2 < len lines)%Z
      then join_lines (cut_at_fence (drop 1 lines))
      else text
    else text in
  let text :=
    match from_first_brace text with
    | Some from_start => default text (match_brace 0 [] from_start)
    | None => text
    end in
  strings_TrimSpace text.

(** [ParseEstimationJSON] *)
Definition ParseEstimationJSON (jsonStr : gostring) : result EstimationResponse.t :=
  let jsonStr := extractJSONFromMarkdown jsonStr in
  match json_Unmarshal jsonStr with
  | Err err => Err (wrap "failed to parse estimation response" err)
  | Ok response =>
      match validateEstimationResponse response with
      | Some err => Err (wrap "invalid estimation response" err)
      | None => Ok response
      end
  end.
End prompts.

(** ** estimator.go: the estimator *)

(** The part of [storage.Store] the estimator reads: the outcome of
    [GetAllIssues] on the snapshot of one run. *)
Module Store.
Record t := mk { GetAllIssues : result (list Issue.t) }.
End Store.

Module Estimator.
Record t := mk {
  aiProvider : option AIProvider.t;   (* nil interface when absent *)
  storage : option Store.t;
  config : EstimationConfig.t;
}.
End Estimator.

Module EstimationResult.
Record t := mk {
  Task : Task.t;
  Estimation : option EstimationResponse.t;
  SimilarTasks : list SimilarityMatch.t;
  Method : gostring;
  DataSource : gostring;
  DatasetStats : option DatasetStatistics.t;
  SimilarityContext : option SimilarityContext.t;
}.
End EstimationResult.

(** [NewEstimator] *)
Definition NewEstimator (aiProvider : option AIProvider.t) (store : option Store.t)
    (config : option EstimationConfig.t) : Estimator.t :=
  {| Estimator.aiProvider := aiProvider;
     Estimator.storage := store;
     Estimator.config := default DefaultEstimationConfig config |}.

Section estimator.
Context `{GoRuntime}.

(** [extractFloat] *)
Fixpoint extractFloat (fields : gmap gostring iface) (keys : list gostring) : float64 :=
  match keys with
  | [] => 0
  | key :: keys' =>
      match fields !! key with
      | Some (IFloat v) => v
      | Some (IInt v) => float64_of_int v
      | Some (IString v) =>
          match fmt_Sscanf_f v with
          | Some f => f
          | None => extractFloat fields keys'
          end
      | _ => extractFloat fields keys'
      end
  end.

(** [extractString] *)
Fixpoint extractString (fields : gmap gostring iface) (keys : list gostring) : gostring :=
  match keys with
  | [] => []
  | key :: keys' =>
      match fields !! key with
      | Some (IString s) => s
      | _ => extractString fields keys'
      end
  end.

(** The loop of [loadHistoricalTasks].  Every iteration that reaches
    [&HistoricalTask{...}] allocates; [next] is the address handed out. *)
Fixpoint load_issues (next : N) (issues : list Issue.t) : list (ptr HistoricalTask.t) :=
  match issues with
  | [] => []
  | issue :: issues' =>
      if bool_decide (Issue.State issue ≠ go "closed") then load_issues next issues'
      else
        let fields := Issue.CustomFields issue in
        let filled := bool_decide (0 < size fields)%nat in
        let hist :=
          {| HistoricalTask.Issue := Some issue;
             HistoricalTask.ActualHours :=
               if filled
               then extractFloat fields [go "Worker Hours"; go "Hours"; go "Actual Hours"]
               else 0;
             HistoricalTask.StoryPoints :=
               if filled then extractFloat fields [go "Story Points"; go "Points"] else 0;
             HistoricalTask.EstimatedSize :=
               if filled then extractString fields [go "Size"; go "Complexity"] else [] |} in
        if bool_decide (0 < HistoricalTask.ActualHours hist ∨ 0 < HistoricalTask.StoryPoints hist
                        ∨ HistoricalTask.EstimatedSize hist ≠ [])
        then Ptr next hist :: load_issues (N.succ next) issues'
        else load_issues (N.succ next) issues'
  end.

(** [loadHistoricalTasks] *)
Definition loadHistoricalTasks (e : Estimator.t) : result (list (ptr HistoricalTask.t)) :=
  match Estimator.storage e with
  | None => Err (go "storage not configured")
  | Some store =>
      match Store.GetAllIssues store with
      | Err err => Err err
      | Ok issues => Ok (load_issues 0%N issues)
      end
  end.

(** The request [estimateWithAI] builds. *)
Definition build_request (task : Task.t) (similar : list SimilarityMatch.t)
    (stats : option DatasetStatistics.t) (simContext : option SimilarityContext.t)
    : EstimationRequest.t :=
  {| EstimationRequest.TaskTitle := Task.Title task;
     EstimationRequest.TaskDescription := Task.Description task;
     EstimationRequest.Context := Task.Context task;
     EstimationRequest.DatasetStats := stats;
     EstimationRequest.SimilarityContext :=
       (λ c, {| SimilarityMeta.ThresholdUsed := SimilarityContext.ThresholdUsed c;
                SimilarityMeta.HighestSimilarity := SimilarityContext.HighestSimilarity c;
                SimilarityMeta.MatchesFound := SimilarityContext.MatchesFound c |})
       <$> simContext;
     EstimationRequest.SimilarTasks :=
       omap (λ match_,
               let h := deref (SimilarityMatch.Task match_) in
               issue ← HistoricalTask.Issue h;
               Some {| SimilarTask.Title := Issue.Title issue;
                       SimilarTask.Description := Issue.Body issue;
                       SimilarTask.ActualHours := HistoricalTask.ActualHours h;
                       SimilarTask.EstimatedSize := HistoricalTask.EstimatedSize h;
                       SimilarTask.StoryPoints := HistoricalTask.StoryPoints h;
                       SimilarTask.Labels := extractLabels issue;
                       SimilarTask.CustomFields := Issue.CustomFields issue;
                       SimilarTask.Similarity := SimilarityMatch.Similarity match_ |})
            similar |}.

(** [estimateWithAI], called with a provider that is not nil. *)
Definition estimateWithAI (provider : AIProvider.t) (task : Task.t)
    (similar : list SimilarityMatch.t) (stats : option DatasetStatistics.t)
    (simContext : option SimilarityContext.t) : result EstimationResponse.t :=
  AIProvider.EstimateTask provider (build_request task similar stats simContext).

(** [Estimate].  The [context.Context] argument is not used by the
    source.  [None] is a panic of the retriever. *)
Definition Estimate (e : Estimator.t) (task : Task.t) : option (result EstimationResult.t) :=
  let historical :=
    match loadHistoricalTasks e with
    | Ok historical => historical
    | Err _ => []
    end in
  let datasetStats := calculateDatasetStatistics historical in
  '(similarTasks, simContext) ←
    FindSimilarTasksAdaptive task historical (Some (Estimator.config e));
  let enhancedDataset := selectEnhancedDataset (Estimator.config e) similarTasks historical in
  match Estimator.aiProvider e with
  | None =>
      Some (Err (go "AI provider not available - this tool requires AI for estimation"))
  | Some provider =>
      if negb (AIProvider.IsAvailable provider)
      then Some (Err (go "AI provider not available - this tool requires AI for estimation"))
      else
        match estimateWithAI provider task enhancedDataset datasetStats (Some simContext) with
        | Err err => Some (Err (wrap "AI estimation failed" err))
        | Ok estimation =>
            Some (Ok {| EstimationResult.Task := task;
                        EstimationResult.Estimation := Some estimation;
                        EstimationResult.SimilarTasks := enhancedDataset;
                        EstimationResult.Method := go "ai";
                        EstimationResult.DataSource := go "openai";
                        EstimationResult.DatasetStats := datasetStats;
                        EstimationResult.SimilarityContext := Some simContext |})
        end
  end.
End estimator.

(** ** batch.go *)

Module BatchTask.
Record t := mk {
  ID : gostring;
  Title : gostring;
  Description : gostring;
  Labels : list gostring;
  Context : gmap gostring gostring;
  Priority : gostring;
  Assignee : gostring;
}.
End BatchTask.

(** [BatchRequest]; the metadata (project, sprint, author, date) is not
    read by the engine. *)
Module BatchRequest.
Record t := mk { Tasks : list BatchTask.t }.
End BatchRequest.

(** [BatchResult], without the time stamp. *)
Module BatchResult.
Record t := mk {
  Task : BatchTask.t;
  Result : option EstimationResult.t;
  Error : option error;
}.
End BatchResult.

Module BatchStatistics.
Record t := mk {
  TotalEstimatedHours : float64;
  AverageHours : float64;
  MedianHours : float64;
  MinHours : float64;
  MaxHours : float64;
  AverageConfidence : float64;
  SizeDistribution : gmap gostring Z;
  SizeHours : gmap gostring float64;
  CategoryDistribution : gmap gostring Z;
  CategoryHours : gmap gostring float64;
  HighConfidenceTasks : Z;
  MediumConfidenceTasks : Z;
  LowConfidenceTasks : Z;
}.
End BatchStatistics.

(** [BatchReport], without the time stamps and the duration. *)
Module BatchReport.
Record t := mk {
  Request : BatchRequest.t;
  Results : list BatchResult.t;
  TotalTasks : Z;
  SuccessfulTasks : Z;
  FailedTasks : Z;
  Statistics : option BatchStatistics.t;
}.
End BatchReport.

(** [BatchProcessor]; [rateLimiter] is the capacity of the semaphore channel. *)
Module BatchProcessor.
Record t := mk {
  estimator : Estimator.t;
  maxWorkers : Z;
  rateLimiter : Z;
}.
End BatchProcessor.

(** [NewBatchProcessor] *)
Definition NewBatchProcessor (estimator : Estimator.t) (maxWorkers : Z) : BatchProcessor.t :=
  let maxWorkers := if bool_decide (maxWorkers ≤ 0)%Z then 5%Z else maxWorkers in
  {| BatchProcessor.estimator := estimator;
     BatchProcessor.maxWorkers := maxWorkers;
     BatchProcessor.rateLimiter := maxWorkers |}.

(** [calculateMedian] *)
Definition calculateMedian (values : list float64) : float64 :=
  if bool_decide (len values = 0)%Z then 0
  else
    let sum := foldl Qcplus 0 values in
    sum / float64_of_int (len values).

(** [findMin] *)
Definition findMin (values : list float64) : float64 :=
  match values with
  | [] => 0
  | v0 :: rest => foldl (λ min v, if bool_decide (v < min) then v else min) v0 rest
  end.

(** [findMax] *)
Definition findMax (values : list float64) : float64 :=
  match values with
  | [] => 0
  | v0 :: rest => foldl (λ max v, if bool_decide (max < v) then v else max) v0 rest
  end.

(** [m[k] += x] on a [map[string]float64]. *)
Definition map_add (k : gostring) (x : float64) (m : gmap gostring float64)
    : gmap gostring float64 :=
  <[k := default 0 (m !! k) + x]> m.

(** The variables of the loop of [calculateStatistics]. *)
Module batchLoop.
Record t := mk {
  stats : BatchStatistics.t;
  hours : list float64;
  confidenceSum : float64;
  confidenceCount : Z;
}.
End batchLoop.

Definition batch_stats_init : batchLoop.t :=
  {| batchLoop.stats :=
       {| BatchStatistics.TotalEstimatedHours := 0; BatchStatistics.AverageHours := 0;
          BatchStatistics.MedianHours := 0; BatchStatistics.MinHours := 0;
          BatchStatistics.MaxHours := 0; BatchStatistics.AverageConfidence := 0;
          BatchStatistics.SizeDistribution := ∅; BatchStatistics.SizeHours := ∅;
          BatchStatistics.CategoryDistribution := ∅; BatchStatistics.CategoryHours := ∅;
          BatchStatistics.HighConfidenceTasks := 0; BatchStatistics.MediumConfidenceTasks := 0;
          BatchStatistics.LowConfidenceTasks := 0 |};
     batchLoop.hours := []; batchLoop.confidenceSum := 0; batchLoop.confidenceCount := 0 |}.

(** The estimate a result contributes, [None] when the loop body takes
    [continue]. *)
Definition counted_estimate (result : BatchResult.t) : option EstimationResponse.t :=
  match BatchResult.Error result, BatchResult.Result result with
  | None, Some r => EstimationResult.Estimation r
  | _, _ => None
  end.

(** The body of the loop of [calculateStatistics]. *)
Definition batch_stats_step (st : batchLoop.t) (result : BatchResult.t) : batchLoop.t :=
  match counted_estimate result with
  | None => st
  | Some est =>
      let s := batchLoop.stats st in
      let h := EstimationResponse.EstimatedHours est in
      let c := EstimationResponse.ConfidenceScore est in
      let labels := BatchTask.Labels (BatchResult.Task result) in
      {| batchLoop.hours := batchLoop.hours st ++ [h];
         batchLoop.confidenceSum := batchLoop.confidenceSum st + c;
         batchLoop.confidenceCount := (batchLoop.confidenceCount st + 1)%Z;
         batchLoop.stats :=
           {| BatchStatistics.TotalEstimatedHours := BatchStatistics.TotalEstimatedHours s + h;
              BatchStatistics.AverageHours := BatchStatistics.AverageHours s;
              BatchStatistics.MedianHours := BatchStatistics.MedianHours s;
              BatchStatistics.MinHours := BatchStatistics.MinHours s;
              BatchStatistics.MaxHours := BatchStatistics.MaxHours s;
              BatchStatistics.AverageConfidence := BatchStatistics.AverageConfidence s;
              BatchStatistics.SizeDistribution :=
                map_incr (EstimationResponse.EstimatedSize est) (BatchStatistics.SizeDistribution s);
              BatchStatistics.SizeHours :=
                map_add (EstimationResponse.EstimatedSize est) h (BatchStatistics.SizeHours s);
              BatchStatistics.CategoryDistribution :=
                foldl (λ m label, map_incr label m) (BatchStatistics.CategoryDistribution s) labels;
              BatchStatistics.CategoryHours :=
                foldl (λ m label, map_add label h m) (BatchStatistics.CategoryHours s) labels;
              BatchStatistics.HighConfidenceTasks :=
                if bool_decide (dec 70 100 ≤ c)
                then (BatchStatistics.HighConfidenceTasks s + 1)%Z
                else BatchStatistics.HighConfidenceTasks s;
              BatchStatistics.MediumConfidenceTasks :=
                if bool_decide (dec 70 100 ≤ c) then BatchStatistics.MediumConfidenceTasks s
                else if bool_decide (dec 50 100 ≤ c)
                then (BatchStatistics.MediumConfidenceTasks s + 1)%Z
                else BatchStatistics.MediumConfidenceTasks s;
              BatchStatistics.LowConfidenceTasks :=
                if bool_decide (dec 70 100 ≤ c) then BatchStatistics.LowConfidenceTasks s
                else if bool_decide (dec 50 100 ≤ c) then BatchStatistics.LowConfidenceTasks s
                else (BatchStatistics.LowConfidenceTasks s + 1)%Z |} |}
  end.

(** [calculateStatistics] *)
Definition calculateStatistics (results : list BatchResult.t) : BatchStatistics.t :=
  let st := foldl batch_stats_step batch_stats_init results in
  let s := batchLoop.stats st in
  let hours := batchLoop.hours st in
  let has_hours := bool_decide (0 < len hours)%Z in
  {| BatchStatistics.TotalEstimatedHours := BatchStatistics.TotalEstimatedHours s;
     BatchStatistics.AverageHours :=
       if has_hours then BatchStatistics.TotalEstimatedHours s / float64_of_int (len hours)
       else BatchStatistics.AverageHours s;
     BatchStatistics.MedianHours :=
       if has_hours then calculateMedian hours else BatchStatistics.MedianHours s;
     BatchStatistics.MinHours := if has_hours then findMin hours else BatchStatistics.MinHours s;
     BatchStatistics.MaxHours := if has_hours then findMax hours else BatchStatistics.MaxHours s;
     BatchStatistics.AverageConfidence :=
       if bool_decide (0 < batchLoop.confidenceCount st)%Z
       then batchLoop.confidenceSum st / float64_of_int (batchLoop.confidenceCount st)
       else BatchStatistics.AverageConfidence s;
     BatchStatistics.SizeDistribution := BatchStatistics.SizeDistribution s;
     BatchStatistics.SizeHours := BatchStatistics.SizeHours s;
     BatchStatistics.CategoryDistribution := BatchStatistics.CategoryDistribution s;
     BatchStatistics.CategoryHours := BatchStatistics.CategoryHours s;
     BatchStatistics.HighConfidenceTasks := BatchStatistics.HighConfidenceTasks s;
     BatchStatistics.MediumConfidenceTasks := BatchStatistics.MediumConfidenceTasks s;
     BatchStatistics.LowConfidenceTasks := BatchStatistics.LowConfidenceTasks s |}.

(** *** [ProcessBatch]: the worker pool

    [ProcessBatch] starts [maxWorkers] goroutines running [worker], sends
    every task on the buffered channel [taskCh], closes it, and collects
    from [resultCh] until the workers have all returned.  The pool is
    modelled by its interleavings: a state holds what the main goroutine
    has still to send, the contents of the channels, the number of tokens
    in the semaphore [rateLimiter] and the program point of every worker;
    a step is one communication of one goroutine. *)

(** The program points of [worker]. *)
Inductive worker :=
  | Receiving                             (* for batchTask := range taskCh *)
  | Acquiring (batchTask : BatchTask.t)   (* bp.rateLimiter <- struct{}{} *)
  | Estimating (batchTask : BatchTask.t)  (* Estimate ...; resultCh <- result *)
  | Releasing                             (* <-bp.rateLimiter *)
  | Returned.                             (* wg.Done() *)

Module pool.
Record t := mk {
  unsent : list BatchTask.t;      (* request.Tasks[i:] of the sending loop *)
  taskCh : list BatchTask.t;      (* buffered, first in first out *)
  closed : bool;                  (* close(taskCh) has run *)
  workers : list worker;
  tokens : Z;                     (* len(bp.rateLimiter) *)
  resultCh : list BatchResult.t;  (* every result sent so far, in order *)
}.
End pool.

Section batch.
Context `{GoRuntime}.

(** The conversion of a [BatchTask] at the head of the body of [worker]. *)
Definition task_of_batch (batchTask : BatchTask.t) : Task.t :=
  {| Task.Title := BatchTask.Title batchTask;
     Task.Description := BatchTask.Description batchTask;
     Task.Labels := BatchTask.Labels batchTask;
     Task.Context := IString <$> BatchTask.Context batchTask |}.

(** The body of the loop of [worker] between the two semaphore
    operations: the result it sends.  [None] when [Estimate] panics. *)
Definition process_task (bp : BatchProcessor.t) (batchTask : BatchTask.t)
    : option BatchResult.t :=
  outcome ← Estimate (BatchProcessor.estimator bp) (task_of_batch batchTask);
  Some match outcome with
       | Err err =>
           {| BatchResult.Task := batchTask; BatchResult.Result := None;
              BatchResult.Error := Some err |}
       | Ok estimation =>
           {| BatchResult.Task := batchTask; BatchResult.Result := Some estimation;
              BatchResult.Error := None |}
       end.

(** The state after the [go] statements. *)
Definition pool_start (bp : BatchProcessor.t) (request : BatchRequest.t) : pool.t :=
  {| pool.unsent := BatchRequest.Tasks request;
     pool.taskCh := [];
     pool.closed := false;
     pool.workers := replicate (Z.to_nat (BatchProcessor.maxWorkers bp)) Receiving;
     pool.tokens := 0;
     pool.resultCh := [] |}.

(** One step of one goroutine.  [capacity] is the capacity of [taskCh]
    and of [resultCh], [len(request.Tasks)]. *)
Inductive pool_step (bp : BatchProcessor.t) (capacity : Z) : pool.t → pool.t → Prop :=
  | step_send batchTask unsent taskCh ws tokens results :
      (len taskCh < capacity)%Z →
      pool_step bp capacity
        (pool.mk (batchTask :: unsent) taskCh false ws tokens results)
        (pool.mk unsent (taskCh ++ [batchTask]) false ws tokens results)
  | step_close taskCh ws tokens results :
      pool_step bp capacity
        (pool.mk [] taskCh false ws tokens results)
        (pool.mk [] taskCh true ws tokens results)
  | step_receive i batchTask unsent taskCh closed ws tokens results :
      ws !! i = Some Receiving →
      pool_step bp capacity
        (pool.mk unsent (batchTask :: taskCh) closed ws tokens results)
        (pool.mk unsent taskCh closed (<[i := Acquiring batchTask]> ws) tokens results)
  | step_return i unsent ws tokens results :
      ws !! i = Some Receiving →
      pool_step bp capacity
        (pool.mk unsent [] true ws tokens results)
        (pool.mk unsent [] true (<[i := Returned]> ws) tokens results)
  | step_acquire i batchTask unsent taskCh closed ws tokens results :
      ws !! i = Some (Acquiring batchTask) →
      (tokens < BatchProcessor.rateLimiter bp)%Z →
      pool_step bp capacity
        (pool.mk unsent taskCh closed ws tokens results)
        (pool.mk unsent taskCh closed (<[i := Estimating batchTask]> ws) (tokens + 1)%Z results)
  | step_estimate i batchTask result unsent taskCh closed ws tokens results :
      ws !! i = Some (Estimating batchTask) →
      process_task bp batchTask = Some result →
      (len results < capacity)%Z →
      pool_step bp capacity
        (pool.mk unsent taskCh closed ws tokens results)
        (pool.mk unsent taskCh closed (<[i := Releasing]> ws) tokens (results ++ [result]))
  | step_release i unsent taskCh closed ws tokens results :
      ws !! i = Some Releasing →
      (0 < tokens)%Z →
      pool_step bp capacity
        (pool.mk unsent taskCh closed ws tokens results)
        (pool.mk unsent taskCh closed (<[i := Receiving]> ws) (tokens - 1)%Z results).

(** [wg.Wait()] returns: every worker has returned. *)
Definition pool_done (s : pool.t) : Prop := Forall (λ w, w = Returned) (pool.workers s).

(** The loop that gathers the results, and the end of [ProcessBatch]. *)
Definition gather_report (bp : BatchProcessor.t) (request : BatchRequest.t)
    (results : list BatchResult.t) : BatchReport.t :=
  let '(successful, failed) :=
    foldl (λ '(successful, failed) result,
             match BatchResult.Error result with
             | Some _ => (successful, failed + 1)%Z
             | None => (successful + 1, failed)%Z
             end)
          (0%Z, 0%Z) results in
  {| BatchReport.Request := request;
     BatchReport.Results := results;
     BatchReport.TotalTasks := len (BatchRequest.Tasks request);
     BatchReport.SuccessfulTasks := successful;
     BatchReport.FailedTasks := failed;
     BatchReport.Statistics := Some (calculateStatistics results) |}.

(** [ProcessBatch bp request report]: a run of the pool from its start
    to the return of every worker yields [report]. *)
Definition ProcessBatch (bp : BatchProcessor.t) (request : BatchRequest.t)
    (report : BatchReport.t) : Prop :=
  ∃ s, rtc (pool_step bp (len (BatchRequest.Tasks request))) (pool_start bp request) s
       ∧ pool_done s
       ∧ report = gather_report bp request (pool.resultCh s).
End batch.

(** ** An instance of the run time on U+0000..U+00FF

    The tables of package [unicode] restricted to Latin-1, where they are
    a handful of ranges.  Integers print in decimal; an integral [float64]
    prints as Go prints it, any other as a fraction, which Go does not do:
    the examples below do not format such a number.  The instance serves
    to evaluate the model on concrete inputs. *)

Definition in_range (lo hi r : N) : bool := ((lo <=? r) && (r <=? hi))%N.

Definition latin1_IsLetter (r : rune) : bool :=
  in_range 65 90 r || in_range 97 122 r || (r =? 170)%N || (r =? 181)%N || (r =? 186)%N
  || in_range 192 214 r || in_range 216 246 r || in_range 248 255 r.

Definition latin1_IsNumber (r : rune) : bool :=
  in_range 48 57 r || in_range 178 179 r || (r =? 185)%N || in_range 188 190 r.

Definition latin1_IsSpace (r : rune) : bool :=
  in_range 9 13 r || (r =? 32)%N || (r =? 133)%N || (r =? 160)%N.

Definition latin1_ToLower (r : rune) : rune :=
  if in_range 65 90 r || in_range 192 214 r || in_range 216 222 r then (r + 32)%N else r.

Definition latin1_Sprintf_v (v : iface) : gostring :=
  match v with
  | INil => go "<nil>"
  | IString s => s
  | IInt n => decimal n
  | IFloat x =>
      if bool_decide (Qden (this x) = 1%positive) then decimal (Qnum (this x))
      else decimal (Qnum (this x)) ++ go "/" ++ decimal (Z.pos (Qden (this x)))
  | IBool true => go "true"
  | IBool false => go "false"
  end.

(** Reads an unsigned decimal integer; Go reads more. *)
Definition latin1_Sscanf_f (s : gostring) : option float64 :=
  match s with
  | [] => None
  | _ =>
      if forallb (in_range 48 57) s
      then Some (float64_of_int (foldl (λ n r, 10 * n + Z.of_N (r - 48))%Z 0%Z s))
      else None
  end.

Definition latin1 : GoRuntime :=
  {| unicode_IsLetter := latin1_IsLetter;
     unicode_IsNumber := latin1_IsNumber;
     unicode_IsSpace := latin1_IsSpace;
     unicode_ToLower := latin1_ToLower;
     fmt_Sprintf_v := latin1_Sprintf_v;
     fmt_Sscanf_f := latin1_Sscanf_f |}.

(** ** Reference definitions

    The quantities of the specification the theorems below compare the
    code with. *)

(** The similarity score as section 4.1 of the specification words it: four
    signals, each with a weight, a sub-score and the condition under which
    it applies; the score is the weighted sum of the sub-scores that apply
    divided by the sum of their weights. *)
Record signal := Signal { applies : bool; weight : float64; subscore : float64 }.

Definition weighted_average (signals : list signal) : float64 :=
  let applied := filter (λ s, applies s = true) signals in
  let total_weight := foldr (λ s acc, weight s + acc) 0 applied in
  if bool_decide (0 < total_weight)
  then foldr (λ s acc, subscore s * weight s + acc) 0 applied / total_weight
  else 0.

(** The source record of a historical entry, if there is one. *)
Definition source_of (historical : option (ptr HistoricalTask.t)) : option Issue.t :=
  h ← historical; HistoricalTask.Issue (deref h).

Definition spec_similarity `{GoRuntime} (task : Task.t)
    (historical : option (ptr HistoricalTask.t)) : float64 :=
  match source_of historical with
  | None => 0
  | Some issue =>
      weighted_average
        [ Signal true (dec 4 10)
            (calculateTextSimilarity (Task.Title task) (Issue.Title issue));
          Signal (bool_decide (Task.Description task ≠ [] ∧ Issue.Body issue ≠ [])) (dec 3 10)
            (calculateTextSimilarity (Task.Description task) (Issue.Body issue));
          Signal true (dec 2 10)
            (calculateLabelSimilarity (Task.Labels task) (Label.Name <$> Issue.Labels issue));
          Signal (bool_decide (Task.Context task ≠ ∅ ∧ Issue.CustomFields issue ≠ ∅)) (dec 1 10)
            (calculateContextSimilarity (Task.Context task) (Issue.CustomFields issue)) ]
  end.

(** An entry that holds a source record. *)
Definition has_source (h : ptr HistoricalTask.t) : Prop :=
  is_Some (HistoricalTask.Issue (deref h)).

(** The scores of a corpus, in corpus order. *)
Definition scores `{GoRuntime} (task : Task.t) (corpus : list (ptr HistoricalTask.t))
    : list float64 :=
  (λ h, CalculateSimilarity task (Some h)) <$> corpus.

(** [x] is the greatest of [values]; of no value at all it is [0]. *)
Definition is_maximum_of (x : float64) (values : list float64) : Prop :=
  Forall (λ v, v ≤ x) values ∧ (x ∈ values ∨ (values = [] ∧ x = 0)).

(** The corpus entries scoring at least [threshold], in corpus order. *)
Definition qualifying `{GoRuntime} (task : Task.t) (threshold : float64)
    (corpus : list (ptr HistoricalTask.t)) : list (ptr HistoricalTask.t) :=
  filter (λ h, threshold ≤ CalculateSimilarity task (Some h)) corpus.

(** Descending order of similarity. *)
Definition by_similarity_desc (m1 m2 : SimilarityMatch.t) : Prop :=
  SimilarityMatch.Similarity m2 ≤ SimilarityMatch.Similarity m1.

(** A sort by descending similarity that keeps entries of equal score in
    their original order: insertion from the right, each element placed
    before the first one that does not score more. *)
Fixpoint insert_desc (m : SimilarityMatch.t) (sorted : list SimilarityMatch.t)
    : list SimilarityMatch.t :=
  match sorted with
  | [] => [m]
  | x :: sorted' =>
      if bool_decide (SimilarityMatch.Similarity m < SimilarityMatch.Similarity x)
      then x :: insert_desc m sorted'
      else m :: x :: sorted'
  end.

Definition stable_sort_desc (matches : list SimilarityMatch.t) : list SimilarityMatch.t :=
  foldr insert_desc [] matches.

(** The scored entries the first loop of the retriever builds on a corpus
    whose entries hold a source record. *)
Definition scored_corpus `{GoRuntime} (task : Task.t) (corpus : list (ptr HistoricalTask.t))
    : list scoredTask.t :=
  (λ h, scoredTask.mk h (CalculateSimilarity task (Some h))
          (default [] (identifyMatches task h))) <$> corpus.

(** The sorted match list of one threshold level. *)
Definition match_list `{GoRuntime} (task : Task.t) (corpus : list (ptr HistoricalTask.t))
    (threshold : float64) : list SimilarityMatch.t :=
  sortBySimilarity (matches_at threshold (scored_corpus task corpus)).

(** The threshold loop stops at a level that yields the minimum match
    count, or at the lowest level if it yields any match. *)
Definition stops_at `{GoRuntime} (task : Task.t) (corpus : list (ptr HistoricalTask.t))
    (lowest threshold : float64) : Prop :=
  (minDesiredMatches ≤ len (match_list task corpus threshold))%Z
  ∨ (threshold = lowest ∧ (0 < len (match_list task corpus threshold))%Z).

(** The running maximum of the first loop of the retriever. *)
Definition running_max (maxSimilarity : float64) (values : list float64) : float64 :=
  foldl (λ mx s, if bool_decide (mx < s) then s else mx) maxSimilarity values.

(** ** Concrete inputs *)

Definition example_task (title : string) (labels : list string) : Task.t :=
  Task.mk (go title) [] (go <$> labels) ∅.

Definition example_entry (address : N) (title : string) (hours : float64) (size : string)
    : ptr HistoricalTask.t :=
  Ptr address
    (HistoricalTask.mk (Some (Issue.mk (go title) [] (go "closed") [] ∅)) hours (go size) 0).

(** An entry without a source record. *)
Definition orphan_entry (address : N) : ptr HistoricalTask.t :=
  Ptr address (HistoricalTask.mk None 0 [] 0).

(** Three entries, the first two of equal score (2/3) below the third (1). *)
Definition tie_task : Task.t := example_task "alpha beta gamma" [].
Definition tie_corpus : list (ptr HistoricalTask.t) :=
  [ example_entry 0 "alpha beta delta" 0 "";
    example_entry 1 "alpha beta delta" 0 "";
    example_entry 2 "alpha beta gamma" 0 "" ].

(** Two entries scoring 1/3 and 2/3 and one scoring 0, and a configuration
    that admits a single similar task. *)
Definition sparse_task : Task.t := example_task "alpha beta gamma" ["x"].
Definition sparse_corpus : list (ptr HistoricalTask.t) :=
  [ example_entry 0 "alpha beta delta" 0 "";
    example_entry 1 "alpha beta gamma" 0 "";
    example_entry 2 "zzz yyy xxx" 0 "" ].
Definition single_match_config : EstimationConfig.t :=
  {| EstimationConfig.MaxSimilarTasks := 1;
     EstimationConfig.MinSimilarTasks := 10;
     EstimationConfig.MinSimilarityThreshold := dec 3 10;
     EstimationConfig.StratifiedSamplesPerSize := 2 |}.

(** A corpus unrelated to [sparse_task]: every entry scores 0. *)
Definition unrelated_corpus : list (ptr HistoricalTask.t) :=
  [ example_entry 0 "zzz yyy xxx" 0 ""; example_entry 1 "www vvv uuu" 0 "" ].

(** The addresses of the entries of a match list, and of the list a run
    of the retriever returns. *)
Definition match_addresses (matches : list SimilarityMatch.t) : list N :=
  (λ m, addr (SimilarityMatch.Task m)) <$> matches.

Definition returned_addresses
    (run : option (list SimilarityMatch.t * SimilarityContext.t)) : option (list N) :=
  (λ r, match_addresses r.1) <$> run.

(** The hours of the entries with positive hours, in corpus order. *)
Definition positive_hours (corpus : list (ptr HistoricalTask.t)) : list float64 :=
  filter (λ h, 0 < h) ((λ hist, HistoricalTask.ActualHours (deref hist)) <$> corpus).

(** The mean of a list of values. *)
Definition mean (values : list float64) : float64 :=
  foldr Qcplus 0 values / float64_of_int (len values).

(** The median by a full sort: the middle value of the sorted list, or
    the mean of the two middle values when their number is even. *)
Definition brute_force_median (values : list float64) : float64 :=
  let sorted := merge_sort Qcle values in
  let n := length sorted in
  if Nat.even n
  then (nth (n / 2 - 1) sorted 0 + nth (n / 2) sorted 0) / 2
  else nth (n / 2) sorted 0.

(** [floor((n-1) × p)] *)
Definition floor_index (n : nat) (p : float64) : Z :=
  Qfloor (inject_Z (Z.of_nat n - 1) * this p).


(** The three variables of the first loop that the hours statistics read. *)
Definition hours_view (st : statsLoop.t) : list float64 * Z * float64 :=
  (statsLoop.hours st, statsLoop.hoursCount st, statsLoop.totalHours st).

(** The payloads the claim about the parser calls structurally invalid:
    missing reasoning, confidence outside [0,1], non-positive hours, or a
    size code outside the five values. *)
Definition invalid_as_claimed (resp : EstimationResponse.t) : Prop :=
  EstimationResponse.Reasoning resp = []
  ∨ EstimationResponse.ConfidenceScore resp < 0
  ∨ 1 < EstimationResponse.ConfidenceScore resp
  ∨ EstimationResponse.EstimatedHours resp ≤ 0
  ∨ EstimationResponse.EstimatedSize resp ∉ sizes.

(** The payloads [validateEstimationResponse] rejects. *)
Definition structurally_invalid (resp : EstimationResponse.t) : Prop :=
  EstimationResponse.EstimatedHours resp < 0
  ∨ EstimationResponse.StoryPoints resp < 0
  ∨ EstimationResponse.ConfidenceScore resp < 0
  ∨ 1 < EstimationResponse.ConfidenceScore resp
  ∨ (EstimationResponse.EstimatedSize resp ≠ [] ∧ EstimationResponse.EstimatedSize resp ∉ sizes)
  ∨ EstimationResponse.Reasoning resp = [].

Definition example_response (hours : float64) (size : string) (confidence : float64)
    : EstimationResponse.t :=
  {| EstimationResponse.EstimatedHours := hours;
     EstimationResponse.EstimatedSize := go size;
     EstimationResponse.StoryPoints := 1;
     EstimationResponse.ConfidenceScore := confidence;
     EstimationResponse.Reasoning := go "similar to earlier work";
     EstimationResponse.Assumptions := [];
     EstimationResponse.Risks := [];
     EstimationResponse.RecommendedAction := [] |}.

(** A decoder that yields one fixed response, as a test double. *)
Definition fixed_decoder (resp : EstimationResponse.t) : GoJSON :=
  {| json_Unmarshal := λ _, Ok resp |}.

(** A successful batch result with the given estimate. *)
Definition example_result (id : string) (resp : EstimationResponse.t) : BatchResult.t :=
  {| BatchResult.Task := BatchTask.mk (go id) (go "task") [] [] ∅ [] [];
     BatchResult.Result :=
       Some {| EstimationResult.Task := Task.mk (go "task") [] [] ∅;
               EstimationResult.Estimation := Some resp;
               EstimationResult.SimilarTasks := [];
               EstimationResult.Method := go "ai";
               EstimationResult.DataSource := go "openai";
               EstimationResult.DatasetStats := None;
               EstimationResult.SimilarityContext := None |};
     BatchResult.Error := None |}.

(** Three successful results of 1, 5 and 10 hours. *)
Definition skewed_results : list BatchResult.t :=
  [ example_result "T1" (example_response 1 "XS" (dec 8 10));
    example_result "T2" (example_response (Qc_of_Z 5) "M" (dec 6 10));
    example_result "T3" (example_response (Qc_of_Z 10) "L" (dec 4 10)) ].

(** The entries of the enhancer. *)
Definition stratified_match (hist : ptr HistoricalTask.t) : SimilarityMatch.t :=
  SimilarityMatch.mk hist 0 [go "stratified_sample"].

Definition selected_of (matches : list SimilarityMatch.t) : gset N :=
  list_to_set (match_addresses matches).

(** The not yet selected entries of one size category, in corpus order. *)
Definition size_bucket (selected : gset N) (corpus : list (ptr HistoricalTask.t))
    (size : gostring) : list (ptr HistoricalTask.t) :=
  filter (λ h, (addr h ∉ selected) ∧ HistoricalTask.EstimatedSize (deref h) = size) corpus.

(** What the size categories can supply: up to [StratifiedSamplesPerSize]
    entries of each of the five categories. *)
Definition stratified_supply (config : EstimationConfig.t) (selected : gset N)
    (corpus : list (ptr HistoricalTask.t)) : Z :=
  foldr (λ size acc,
           Z.min (Z.max 0 (EstimationConfig.StratifiedSamplesPerSize config))
                 (len (size_bucket selected corpus size)) + acc)%Z
        0%Z sizes.






(** Four entries of three size categories, unrelated to [sparse_task]. *)
Definition sized_corpus : list (ptr HistoricalTask.t) :=
  [ example_entry 0 "zzz yyy xxx" 1 "XS";
    example_entry 1 "www vvv uuu" (Qc_of_Z 3) "S";
    example_entry 2 "ttt sss rrr" (Qc_of_Z 6) "M";
    example_entry 3 "qqq ppp ooo" (Qc_of_Z 7) "M" ].

(** *** Bookkeeping of the worker pool *)

(** The task a worker holds between receiving it and sending its result. *)
Definition held_task (w : worker) : list BatchTask.t :=
  match w with
  | Acquiring batchTask | Estimating batchTask => [batchTask]
  | _ => []
  end.

(** The token a worker holds between the two semaphore operations. *)
Definition held_token (w : worker) : Z :=
  match w with
  | Estimating _ | Releasing => 1
  | _ => 0
  end.

(** The number of steps a worker has still to take at least, weighted so
    that every step of the pool lowers the total. *)
Definition worker_weight (w : worker) : Z :=
  match w with
  | Receiving => 1
  | Acquiring _ => 5
  | Estimating _ => 4
  | Releasing => 3
  | Returned => 0
  end.

Definition sum_of (f : worker → Z) (ws : list worker) : Z :=
  foldr (λ w acc, f w + acc)%Z 0%Z ws.

Definition pool_measure (s : pool.t) : Z :=
  (6 * len (pool.unsent s) + 5 * len (pool.taskCh s)
   + sum_of worker_weight (pool.workers s)
   + (if pool.closed s then 0 else 1))%Z.

(** What holds of every state the pool reaches on [tasks]. *)
Definition pool_invariant `{GoRuntime} (bp : BatchProcessor.t) (tasks : list BatchTask.t)
    (s : pool.t) : Prop :=
  pool.unsent s ++ pool.taskCh s ++ (pool.workers s ≫= held_task)
    ++ (BatchResult.Task <$> pool.resultCh s) ≡ₚ tasks
  ∧ Forall (λ r, process_task bp (BatchResult.Task r) = Some r) (pool.resultCh s)
  ∧ (pool.closed s = true → pool.unsent s = [])
  ∧ (Returned ∈ pool.workers s → pool.closed s = true ∧ pool.taskCh s = [])
  ∧ pool.tokens s = sum_of held_token (pool.workers s)
  ∧ len (pool.workers s) = BatchProcessor.maxWorkers bp.

(** A result that counts as a success, and one that counts as a failure. *)
Definition succeeded (r : BatchResult.t) : Prop := BatchResult.Error r = None.
Definition failed (r : BatchResult.t) : Prop := is_Some (BatchResult.Error r).


#[global] Instance worker_returned_dec (w : worker) : Decision (w = Returned).
Proof. destruct w; (by left) || (by right). Defined.

#[global] Instance pool_done_dec (s : pool.t) : Decision (pool_done s).
Proof. unfold pool_done. apply _. Defined.


(** A provider that fails on the task titled "bad" and answers four hours
    on every other one, as a test double; three tasks, the second of
    which it fails on. *)
Definition flaky_provider : AIProvider.t :=
  {| AIProvider.EstimateTask := λ req,
       if bool_decide (EstimationRequest.TaskTitle req = go "bad")
       then Err (go "provider failure")
       else Ok (example_response (Qc_of_Z 4) "M" (dec 8 10));
     AIProvider.GetName := go "mock";
     AIProvider.IsAvailable := true |}.

Definition flaky_estimator : Estimator.t := NewEstimator (Some flaky_provider) None None.

Definition batch_task (id title : string) : BatchTask.t :=
  BatchTask.mk (go id) (go title) [] [] ∅ [] [].

Definition mixed_request : BatchRequest.t :=
  {| BatchRequest.Tasks :=
       [batch_task "T1" "good"; batch_task "T2" "bad"; batch_task "T3" "fine"] |}.

(** The error of the result of a task, if the task fails. *)
Definition error_of `{GoRuntime} (bp : BatchProcessor.t) (batchTask : BatchTask.t)
    : option error :=
  process_task bp batchTask ≫= BatchResult.Error.

(** The hours the loop of [calculateStatistics] counts: those of the
    results without an error that carry an estimate. *)
Definition successful_hours (results : list BatchResult.t) : list float64 :=
  EstimationResponse.EstimatedHours <$> omap counted_estimate results.

(** * Further code of the estimator *)

(** ** similarity.go: [FindSimilarTasks] *)

Section find_similar.
Context `{GoRuntime}.

(** The loop of [FindSimilarTasks].  ([maxSimilarity] and
    [maxSimilarityTask] only feed a debug message and are left out.)
    [identifyMatches] is called for the entries that reach the threshold. *)
Fixpoint find_matches (task : Task.t) (threshold : float64)
    (historical : list (ptr HistoricalTask.t)) (matches : list SimilarityMatch.t)
    : option (list SimilarityMatch.t) :=
  match historical with
  | [] => Some matches
  | hist :: historical' =>
      let similarity := CalculateSimilarity task (Some hist) in
      if bool_decide (threshold ≤ similarity) then
        which ← identifyMatches task hist;
        find_matches task threshold historical'
          (matches ++ [SimilarityMatch.mk hist similarity which])
      else find_matches task threshold historical' matches
  end.

(** [FindSimilarTasks] *)
Definition FindSimilarTasks (task : Task.t) (historical : list (ptr HistoricalTask.t))
    (config : option EstimationConfig.t) : option (list SimilarityMatch.t) :=
  let config := default DefaultEstimationConfig config in
  matches ← find_matches task (EstimationConfig.MinSimilarityThreshold config) historical [];
  limit_matches (sortBySimilarity matches) (EstimationConfig.MaxSimilarTasks config).
End find_similar.

(** The task that reads like an issue, and the issue that reads like a
    task: the two sides of [CalculateSimilarity] exchanged. *)
Definition task_of_issue (issue : Issue.t) : Task.t :=
  {| Task.Title := Issue.Title issue;
     Task.Description := Issue.Body issue;
     Task.Labels := Label.Name <$> Issue.Labels issue;
     Task.Context := Issue.CustomFields issue |}.

Definition issue_of_task (task : Task.t) (state : gostring) : Issue.t :=
  {| Issue.Title := Task.Title task;
     Issue.Body := Task.Description task;
     Issue.State := state;
     Issue.Labels := Label.mk <$> Task.Labels task;
     Issue.CustomFields := Task.Context task |}.

(** An entry that holds [issue]. *)
Definition entry_of (address : N) (issue : Issue.t) (hours : float64) (size : gostring)
    (points : float64) : ptr HistoricalTask.t :=
  Ptr address {| HistoricalTask.Issue := Some issue;
                 HistoricalTask.ActualHours := hours;
                 HistoricalTask.EstimatedSize := size;
                 HistoricalTask.StoryPoints := points |}.

(** A configuration with another threshold. *)
Definition with_threshold (config : EstimationConfig.t) (threshold : float64)
    : EstimationConfig.t :=
  {| EstimationConfig.MaxSimilarTasks := EstimationConfig.MaxSimilarTasks config;
     EstimationConfig.MinSimilarTasks := EstimationConfig.MinSimilarTasks config;
     EstimationConfig.MinSimilarityThreshold := threshold;
     EstimationConfig.StratifiedSamplesPerSize :=
       EstimationConfig.StratifiedSamplesPerSize config |}.

(** A corpus with an entry that holds no issue. *)
Definition orphan_corpus : list (ptr HistoricalTask.t) :=
  [ example_entry 0 "alpha beta delta" 0 "";
    orphan_entry 1;
    example_entry 2 "alpha beta gamma" 0 "" ].

(** Three matches in descending order, the last two of equal score. *)
Definition ordered_matches : list SimilarityMatch.t :=
  [ SimilarityMatch.mk (example_entry 2 "alpha beta gamma" 0 "") 1 [];
    SimilarityMatch.mk (example_entry 0 "alpha beta delta" 0 "") (dec 2 3) [];
    SimilarityMatch.mk (example_entry 1 "alpha beta delta" 0 "") (dec 2 3) [] ].

(** ** estimator.go and ai/types.go: helpers *)

(** [calculateConfidence] *)
Definition calculateConfidence (similar : list SimilarityMatch.t) (dataPoints : Z)
    : float64 :=
  if bool_decide (len similar = 0 ∨ dataPoints = 0)%Z then dec 3 10
  else
    let avgSimilarity :=
      foldl (λ avgSimilarity match_, avgSimilarity + SimilarityMatch.Similarity match_)
            0 similar in
    let avgSimilarity := avgSimilarity / float64_of_int (len similar) in
    let dataFactor := float64_of_int dataPoints / float64_of_int 5 in
    let dataFactor := if bool_decide (1 < dataFactor) then 1 else dataFactor in
    let confidence := avgSimilarity * dec 7 10 + dataFactor * dec 3 10 in
    let confidence := if bool_decide (confidence < dec 3 10) then dec 3 10 else confidence in
    let confidence := if bool_decide (dec 9 10 < confidence) then dec 9 10 else confidence in
    confidence.

(** [sizeToPoints]; [ai.Size] is a string type. *)
Definition sizeToPoints (size : gostring) : float64 :=
  if bool_decide (size = go "XS") then 1
  else if bool_decide (size = go "S") then Qc_of_Z 2
  else if bool_decide (size = go "M") then Qc_of_Z 5
  else if bool_decide (size = go "L") then Qc_of_Z 8
  else if bool_decide (size = go "XL") then Qc_of_Z 13
  else Qc_of_Z 3.

(** [ai.SizeToHours] *)
Definition SizeToHours (size : gostring) : float64 * float64 :=
  if bool_decide (size = go "XS") then (dec 5 10, Qc_of_Z 2)
  else if bool_decide (size = go "S") then (Qc_of_Z 2, Qc_of_Z 4)
  else if bool_decide (size = go "M") then (Qc_of_Z 4, Qc_of_Z 8)
  else if bool_decide (size = go "L") then (Qc_of_Z 8, Qc_of_Z 16)
  else if bool_decide (size = go "XL") then (Qc_of_Z 16, Qc_of_Z 40)
  else (0, 0).

(** [ai.HoursToSize] *)
Definition HoursToSize (hours : float64) : gostring :=
  if bool_decide (hours < Qc_of_Z 2) then go "XS"
  else if bool_decide (hours < Qc_of_Z 4) then go "S"
  else if bool_decide (hours < Qc_of_Z 8) then go "M"
  else if bool_decide (hours < Qc_of_Z 16) then go "L"
  else go "XL".

(** The method [GetConfidenceLevel] of [EstimationResult] *)
Definition GetConfidenceLevel (r : EstimationResult.t) : gostring :=
  match EstimationResult.Estimation r with
  | None => go "unknown"
  | Some estimation =>
      let score := EstimationResponse.ConfidenceScore estimation in
      if bool_decide (dec 8 10 ≤ score) then go "high"
      else if bool_decide (dec 5 10 ≤ score) then go "medium"
      else go "low"
  end.

(** The method [ConfidenceScore] of [EstimationResult] *)
Definition ConfidenceScore (r : EstimationResult.t) : float64 :=
  match EstimationResult.Estimation r with
  | None => 0
  | Some estimation => EstimationResponse.ConfidenceScore estimation
  end.

(** [mostCommon].  The second loop ranges over the map [counts], in an
    order the language leaves open: [order] is that order, a permutation
    of the entries of the map. *)
Definition count_items (items : list gostring) : gmap gostring Z :=
  foldl (λ counts item, map_incr item counts) ∅ items.

Definition most_of (order : list (gostring * Z)) (most : gostring) (maxCount : Z)
    : Z * gostring :=
  foldl (λ '(maxCount, most) '(item, count),
           if bool_decide (maxCount < count)%Z then (count, item) else (maxCount, most))
        (maxCount, most) order.

Definition mostCommon (order : list (gostring * Z)) (items : list gostring) : gostring :=
  match items with
  | [] => []
  | item0 :: _ => (most_of order item0 0).2
  end.

(** How often [x] occurs in [items]. *)
Definition occurrences (x : gostring) (items : list gostring) : Z :=
  len (filter (λ item, item = x) items).

(** Two matches of scores 0.8 and 0.4. *)
Definition two_matches : list SimilarityMatch.t :=
  [ SimilarityMatch.mk (example_entry 0 "alpha" 0 "") (dec 8 10) [];
    SimilarityMatch.mk (example_entry 1 "beta" 0 "") (dec 4 10) [] ].

(** The estimates the loop of [calculateStatistics] counts, in the order
    of the results. *)
Definition successes (results : list BatchResult.t) : list EstimationResponse.t :=
  omap counted_estimate results.

(** A failed result, and two successes of confidence 0.75 and 0.4. *)
Definition failed_result (id : string) : BatchResult.t :=
  {| BatchResult.Task := BatchTask.mk (go id) (go "task") [] [] ∅ [] [];
     BatchResult.Result := None;
     BatchResult.Error := Some (go "AI estimation failed") |}.

Definition tier_results : list BatchResult.t :=
  [ example_result "T1" (example_response (Qc_of_Z 2) "S" (dec 75 100));
    failed_result "T2";
    example_result "T3" (example_response (Qc_of_Z 6) "M" (dec 4 10)) ].

(** An estimator like [e] whose storage holds no issue. *)
Definition with_empty_storage (e : Estimator.t) : Estimator.t :=
  {| Estimator.aiProvider := Estimator.aiProvider e;
     Estimator.storage := Some (Store.mk (Ok []));
     Estimator.config := Estimator.config e |}.

(** What the retriever reports on an empty history. *)
Definition empty_context (config : EstimationConfig.t) : SimilarityContext.t :=
  {| SimilarityContext.ThresholdUsed := EstimationConfig.MinSimilarityThreshold config;
     SimilarityContext.ThresholdsTriedCount := 5;
     SimilarityContext.TotalTasksScanned := 0;
     SimilarityContext.MatchesFound := 0;
     SimilarityContext.HighestSimilarity := 0 |}.

(** The history that [Estimate] works with: what [loadHistoricalTasks]
    yields, or nothing when it fails. *)
Definition loaded_history `{GoRuntime} (e : Estimator.t) : list (ptr HistoricalTask.t) :=
  match loadHistoricalTasks e with
  | Ok historical => historical
  | Err _ => []
  end.

(** An issue with custom fields, and a store of three issues: one closed
    with hours, one open, one closed without estimation data. *)
Definition example_issue (title state : string) (fields : list (string * iface)) : Issue.t :=
  {| Issue.Title := go title; Issue.Body := []; Issue.State := go state;
     Issue.Labels := [];
     Issue.CustomFields := list_to_map (prod_map go id <$> fields) |}.

Definition example_store : Store.t :=
  {| Store.GetAllIssues :=
       Ok [ example_issue "alpha beta gamma" "closed" [("Hours", IFloat (Qc_of_Z 3))];
            example_issue "alpha beta delta" "open" [("Hours", IFloat (Qc_of_Z 5))];
            example_issue "alpha beta" "closed" [("Note", IString (go "n/a"))];
            example_issue "alpha gamma" "closed" [("Size", IString (go "M"))] ] |}.

Definition example_estimator : Estimator.t :=
  NewEstimator (Some flaky_provider) (Some example_store) None.

(** The message of [Estimate] when it has no provider to ask. *)
Definition no_provider_error : error :=
  go "AI provider not available - this tool requires AI for estimation".

(** An estimator over [example_store] whose provider is not available. *)
Definition offline_estimator : Estimator.t :=
  NewEstimator
    (Some {| AIProvider.EstimateTask := AIProvider.EstimateTask flaky_provider;
             AIProvider.GetName := go "mock";
             AIProvider.IsAvailable := false |})
    (Some example_store) None.

(** A text that the brace loop of [extractJSONFromMarkdown] takes for one
    object: it opens with a brace, and the brace is closed by its last
    character. *)
Definition complete_object (obj : gostring) : Prop :=
  head obj = Some 123%N ∧ match_brace 0 [] obj = Some obj.

(** Braces and the backquote are no white space. *)
Definition marks_not_space `{GoRuntime} : Prop :=
  unicode_IsSpace 123%N = false ∧ unicode_IsSpace 125%N = false
  ∧ unicode_IsSpace 96%N = false.

Definition all_space `{GoRuntime} (s : gostring) : Prop :=
  Forall (λ r, unicode_IsSpace r = true) s.

(** An answer in a code fence, and one in prose. *)
Definition example_object : gostring := go "{hours: 4, range: {min: 2, max: 6}}".

Definition fenced_answer : gostring :=
  go " ```json" ++ 10%N :: example_object ++ 10%N :: go "``` ".

Definition prose_answer : gostring :=
  go "Here is the estimate: " ++ example_object ++ go " Hope it helps {!}".

(** ** batch.go: the loaders *)

Section loaders.
Context `{GoRuntime}.

(** [strings.Split(s, sep)] for a separator that is not empty: [cur] is
    the part being read, [skip] the number of characters of a separator
    just found that are still to be passed. *)
Fixpoint split_from (sep cur s : gostring) (skip : nat) : list gostring :=
  match s with
  | [] => [cur]
  | r :: s' =>
      match skip with
      | S skip' => split_from sep cur s' skip'
      | O =>
          if bool_decide (take (length sep) s = sep)
          then cur :: split_from sep [] s' (length sep - 1)
          else split_from sep (cur ++ [r]) s' 0
      end
  end.

(** [strings.Split]; on an empty separator it explodes the text into its
    characters. *)
Definition strings_Split (s sep : gostring) : list gostring :=
  if bool_decide (sep = []) then (λ r, [r]) <$> s else split_from sep [] s 0.

(** [splitAndTrim] *)
Definition splitAndTrim (s sep : gostring) : list gostring :=
  if bool_decide (s = []) then []
  else
    foldl (λ parts part,
             let trimmed := strings_TrimSpace part in
             if bool_decide (trimmed ≠ []) then parts ++ [trimmed] else parts)
          [] (strings_Split s sep).
End loaders.

(** [fmt.Sprintf("TASK-%03d", n)] for a number that is not negative. *)
Definition Sprintf_TASK_03d (n : Z) : gostring :=
  let digits := go (pretty (Z.to_N n)) in
  go "TASK-" ++ replicate (3 - length digits) 48%N ++ digits.

(** What opening and reading a CSV file comes to: [os.Open] fails,
    [ReadAll] fails, or the records are read. *)
Inductive csv_file :=
  | OpenFails (err : error)
  | ReadFails (err : error)
  | Records (records : list (list gostring)).

(** The loop [for i, col := range header { colMap[col] = i }]. *)
Fixpoint fill_columns (i : Z) (header : list gostring) (colMap : gmap gostring Z)
    : gmap gostring Z :=
  match header with
  | [] => colMap
  | col :: header' => fill_columns (i + 1) header' (<[col := i]> colMap)
  end.

(** [record[idx]] for an index in range. *)
Definition cell (record : list gostring) (idx : Z) : gostring :=
  default [] (record !! Z.to_nat idx).

Section csv_loader.
Context `{GoRuntime}.

(** One turn of the loop over the data rows: the task of row [i], [None]
    when the row is skipped. *)
Definition csv_task (colMap : gmap gostring Z) (titleIdx : Z) (i : Z)
    (record : list gostring) : option BatchTask.t :=
  let idIdx := default 0%Z (colMap !! go "id") in
  let descIdx := default 0%Z (colMap !! go "description") in
  let labelsIdx := default 0%Z (colMap !! go "labels") in
  let priorityIdx := default 0%Z (colMap !! go "priority") in
  let assigneeIdx := default 0%Z (colMap !! go "assignee") in
  if bool_decide (len record ≤ titleIdx)%Z then None
  else
    Some {| BatchTask.Title := cell record titleIdx;
            BatchTask.ID :=
              if bool_decide ((idIdx < len record)%Z ∧ cell record idIdx ≠ [])
              then cell record idIdx
              else Sprintf_TASK_03d (i + 1);
            BatchTask.Description :=
              if bool_decide (descIdx < len record)%Z then cell record descIdx else [];
            BatchTask.Labels :=
              if bool_decide ((labelsIdx < len record)%Z ∧ cell record labelsIdx ≠ [])
              then splitAndTrim (cell record labelsIdx) (go "|")
              else [];
            BatchTask.Context := ∅;
            BatchTask.Priority :=
              if bool_decide (priorityIdx < len record)%Z then cell record priorityIdx
              else [];
            BatchTask.Assignee :=
              if bool_decide (assigneeIdx < len record)%Z then cell record assigneeIdx
              else [] |}.

(** The loop over [records[1:]]. *)
Fixpoint csv_rows (colMap : gmap gostring Z) (titleIdx : Z) (i : Z)
    (rows : list (list gostring)) (tasks : list BatchTask.t) : list BatchTask.t :=
  match rows with
  | [] => tasks
  | record :: rows' =>
      match csv_task colMap titleIdx i record with
      | None => csv_rows colMap titleIdx (i + 1) rows' tasks
      | Some task => csv_rows colMap titleIdx (i + 1) rows' (tasks ++ [task])
      end
  end.

(** [LoadBatchRequestFromCSV], on what opening and reading the file
    gives. *)
Definition LoadBatchRequestFromCSV (file : csv_file) : result BatchRequest.t :=
  match file with
  | OpenFails err => Err (wrap "failed to open file" err)
  | ReadFails err => Err (wrap "failed to read CSV" err)
  | Records records =>
      if bool_decide (len records < 2)%Z
      then Err (go "CSV file is empty or has no data rows")
      else
        let header := default [] (head records) in
        let colMap := fill_columns 0 header ∅ in
        match colMap !! go "title" with
        | None => Err (go "CSV must have 'title' column")
        | Some titleIdx =>
            let tasks := csv_rows colMap titleIdx 0 (drop 1 records) [] in
            if bool_decide (len tasks = 0)%Z
            then Err (go "no valid tasks found in CSV")
            else Ok {| BatchRequest.Tasks := tasks |}
        end
  end.
End csv_loader.

(** A file of three columns and three rows, the second row with a
    generated ID and padded labels; and the same rows without the
    optional columns. *)
Definition example_records : list (list gostring) :=
  [ [go "id"; go "title"; go "labels"];
    [go "T-1"; go "Add login"; go "backend| auth |"];
    [go ""; go "Fix logout"; go ""];
    [go "T-3"; go "Write docs"; go " docs "] ].

Definition bare_records : list (list gostring) :=
  [ [go "title"]; [go "Add login"]; [go "Fix logout"] ].

(** [strings.Join] *)
Fixpoint strings_Join (elems : list gostring) (sep : gostring) : gostring :=
  match elems with
  | [] => []
  | [e] => e
  | e :: elems' => e ++ sep ++ strings_Join elems' sep
  end.

(** The estimation results that the loop of [calculateStatistics] counts,
    in the order of the results. *)
Definition counted_results (results : list BatchResult.t) : list EstimationResult.t :=
  omap (λ result,
          match BatchResult.Error result, BatchResult.Result result with
          | None, Some r =>
              match EstimationResult.Estimation r with
              | Some _ => Some r
              | None => None
              end
          | _, _ => None
          end) results.

(** * Properties *)

(** ** Rational arithmetic *)

Lemma Qc_div_range (a b : Qc) : 0 ≤ a → a ≤ b → 0 < b → 0 ≤ a / b ≤ 1.
Proof.
  intros Ha Hab Hb.
  assert (Hinv : 0 < / b) by (by apply Qcinv_pos).
  unfold Qcdiv. split.
  - apply Qcmult_nonneg_nonneg; [done | by apply Qclt_le_weak].
  - rewrite <- (Qcmult_inv_r b).
    + apply Qcmult_le_mono_nonneg_r; [by apply Qclt_le_weak | done].
    + intros ->. by apply (Qclt_not_eq 0 0).
Qed.

Lemma float64_of_int_ratio_range (n m : Z) :
  (0 ≤ n)%Z → (n ≤ m)%Z → (0 < m)%Z →
  0 ≤ float64_of_int n / float64_of_int m ≤ 1.
Proof.
  intros Hn Hnm Hm. unfold float64_of_int. apply Qc_div_range.
  - rewrite <- Z2Qc_inj_0. by apply (proj1 (Z2Qc_inj_le _ _)).
  - by apply (proj1 (Z2Qc_inj_le _ _)).
  - rewrite <- Z2Qc_inj_0. by apply (proj1 (Z2Qc_inj_lt _ _)).
Qed.

Lemma Qc_0_le_1 : (0 : Qc) ≤ 1.
Proof. by apply (bool_decide_unpack (0 ≤ 1)). Qed.

(** Adding one weighted sub-score keeps [0 ≤ totalScore ≤ totalWeight]. *)
Lemma weighted_step (score weight x w : Qc) :
  0 ≤ score ≤ weight → 0 ≤ x ≤ 1 → 0 ≤ w →
  0 ≤ score + x * w ≤ weight + w.
Proof.
  intros [Hs Hsw] [Hx Hx1] Hw. split.
  - apply Qcplus_nonneg_nonneg; [done | by apply Qcmult_nonneg_nonneg].
  - apply Qcplus_le_compat; [done |].
    rewrite <- (Qcmult_1_l w) at 2. by apply Qcmult_le_mono_nonneg_r.
Qed.

(** ** C1: the range of the similarity score *)

Section similarity_range.
Context `{GoRuntime}.

Lemma jaccardSimilarity_range set1 set2 : 0 ≤ jaccardSimilarity set1 set2 ≤ 1.
Proof.
  unfold jaccardSimilarity.
  case_bool_decide; [split; [apply Qc_0_le_1 | done] |].
  set (map1 := list_to_set _ : gset gostring).
  set (map2 := list_to_set _ : gset gostring).
  assert (size (filter (λ item, item ∈ map2) map1) ≤ size map1)%nat as H1.
  { apply subseteq_size. intros x. rewrite elem_of_filter. tauto. }
  assert (size (filter (λ item, item ∈ map2) map1) ≤ size map2)%nat as H2.
  { apply subseteq_size. intros x. rewrite elem_of_filter. tauto. }
  simpl. case_bool_decide; [done |].
  apply float64_of_int_ratio_range; lia.
Qed.

Lemma calculateTextSimilarity_range text1 text2 :
  0 ≤ calculateTextSimilarity text1 text2 ≤ 1.
Proof.
  unfold calculateTextSimilarity. simpl.
  case_bool_decide; [split; [done | apply Qc_0_le_1] | apply jaccardSimilarity_range].
Qed.

Lemma calculateLabelSimilarity_range labels1 labels2 :
  0 ≤ calculateLabelSimilarity labels1 labels2 ≤ 1.
Proof.
  unfold calculateLabelSimilarity.
  repeat case_bool_decide;
    [split; [apply Qc_0_le_1 | done] | split; [done | apply Qc_0_le_1]
    | apply jaccardSimilarity_range].
Qed.

Lemma calculateContextSimilarity_range context1 context2 :
  0 ≤ calculateContextSimilarity context1 context2 ≤ 1.
Proof.
  unfold calculateContextSimilarity.
  case_bool_decide; [split; [apply Qc_0_le_1 | done] |].
  case_bool_decide; [split; [done | apply Qc_0_le_1] |].
  assert (size (filter (λ kv, context_value_matches context2 kv = true) context1)
          ≤ size context1)%nat as H2.
  { apply map_subseteq_size, map_filter_subseteq. }
  simpl. case_bool_decide; [split; [done | apply Qc_0_le_1] |].
  apply float64_of_int_ratio_range; lia.
Qed.
End similarity_range.

Section similarity_score.
Context `{GoRuntime}.

(** The loop-free shape of [CalculateSimilarity] on an entry with a
    source record: the two optional signals contribute a pair each. *)
Lemma CalculateSimilarity_unfold task h issue :
  HistoricalTask.Issue (deref h) = Some issue →
  ∃ score weight : Qc,
    0 ≤ score ≤ weight ∧ 0 < weight
    ∧ CalculateSimilarity task (Some h) = score / weight.
Proof.
  intros Hissue. unfold CalculateSimilarity. rewrite Hissue.
  pose proof (calculateTextSimilarity_range (Task.Title task) (Issue.Title issue)) as Ht.
  pose proof (calculateTextSimilarity_range (Task.Description task) (Issue.Body issue)) as Hd.
  pose proof (calculateLabelSimilarity_range (Task.Labels task) (extractLabels issue)) as Hl.
  pose proof (calculateContextSimilarity_range (Task.Context task) (Issue.CustomFields issue))
    as Hc.
  assert (H0 : (0 : Qc) ≤ 0 ≤ 0) by done.
  assert (Hw4 : 0 ≤ dec 4 10) by (by apply (bool_decide_unpack _)).
  assert (Hw3 : 0 ≤ dec 3 10) by (by apply (bool_decide_unpack _)).
  assert (Hw2 : 0 ≤ dec 2 10) by (by apply (bool_decide_unpack _)).
  assert (Hw1 : 0 ≤ dec 1 10) by (by apply (bool_decide_unpack _)).
  assert (Hpos : 0 < 0 + dec 4 10) by (by apply (bool_decide_unpack _)).
  pose proof (weighted_step _ _ _ _ H0 Ht Hw4) as S1.
  set (d := bool_decide (Task.Description task ≠ [] ∧ Issue.Body issue ≠ [])).
  set (c := bool_decide (0 < size (Task.Context task)
                         ∧ 0 < size (Issue.CustomFields issue))%nat).
  destruct d, c; simpl.
  - pose proof (weighted_step _ _ _ _ S1 Hd Hw3) as S2.
    pose proof (weighted_step _ _ _ _ S2 Hl Hw2) as S3.
    pose proof (weighted_step _ _ _ _ S3 Hc Hw1) as S4.
    eexists _, _. split; [exact S4 |].
    assert (0 < 0 + dec 4 10 + dec 3 10 + dec 2 10 + dec 1 10) as Hp
      by (by apply (bool_decide_unpack _)).
    split; [exact Hp | done].
  - pose proof (weighted_step _ _ _ _ S1 Hd Hw3) as S2.
    pose proof (weighted_step _ _ _ _ S2 Hl Hw2) as S3.
    eexists _, _. split; [exact S3 |].
    assert (0 < 0 + dec 4 10 + dec 3 10 + dec 2 10) as Hp
      by (by apply (bool_decide_unpack _)).
    split; [exact Hp | done].
  - pose proof (weighted_step _ _ _ _ S1 Hl Hw2) as S3.
    pose proof (weighted_step _ _ _ _ S3 Hc Hw1) as S4.
    eexists _, _. split; [exact S4 |].
    assert (0 < 0 + dec 4 10 + dec 2 10 + dec 1 10) as Hp
      by (by apply (bool_decide_unpack _)).
    split; [exact Hp | done].
  - pose proof (weighted_step _ _ _ _ S1 Hl Hw2) as S3.
    eexists _, _. split; [exact S3 |].
    assert (0 < 0 + dec 4 10 + dec 2 10) as Hp by (by apply (bool_decide_unpack _)).
    split; [exact Hp | done].
Qed.

Lemma CalculateSimilarity_unit task historical :
  0 ≤ CalculateSimilarity task historical ≤ 1.
Proof.
  destruct historical as [h|]; [| split; [done | apply Qc_0_le_1]].
  destruct (HistoricalTask.Issue (deref h)) as [issue|] eqn:Hissue.
  - destruct (CalculateSimilarity_unfold task h issue Hissue) as (s & w & [Hs Hsw] & Hw & ->).
    by apply Qc_div_range.
  - unfold CalculateSimilarity. rewrite Hissue. split; [done | apply Qc_0_le_1].
Qed.

(** C1.  For every task and every historical entry, the nil pointer and
    an entry without a source record included, the similarity score lies
    in [0, 1]; and when the entry has no source record the score is
    exactly 0 (the function returns, it does not panic). *)
Theorem CalculateSimilarity_range task historical :
  0 ≤ CalculateSimilarity task historical ≤ 1
  ∧ (source_of historical = None → CalculateSimilarity task historical = 0).
Proof.
  split; [apply CalculateSimilarity_unit |].
  destruct historical as [h|]; [| done].
  unfold source_of, CalculateSimilarity. simpl. by intros ->.
Qed.

(** C8.  For every pair of a task and a historical entry, the score is
    the weighted sum of the sub-scores that apply (title 0.4, description
    0.3, labels 0.2, context 0.1) divided by the sum of the weights
    applied.  The title and label signals always apply; the description
    signal applies only when both descriptions are non-empty and the
    context signal only when both context maps are non-empty: a signal
    that does not apply adds neither a zero sub-score nor its weight.  An
    entry without a source record scores 0. *)
Theorem CalculateSimilarity_weighted task historical :
  CalculateSimilarity task historical = spec_similarity task historical.
Proof.
  unfold spec_similarity, source_of.
  destruct historical as [h|]; [simpl | done].
  unfold CalculateSimilarity.
  destruct (HistoricalTask.Issue (deref h)) as [issue|]; [| done].
  unfold weighted_average, extractLabels.
  assert (bool_decide (0 < size (Task.Context task) ∧ 0 < size (Issue.CustomFields issue))%nat
          = bool_decide (Task.Context task ≠ ∅ ∧ Issue.CustomFields issue ≠ ∅)) as ->.
  { apply bool_decide_ext. rewrite <- !map_size_non_empty_iff. lia. }
  set (t := calculateTextSimilarity (Task.Title task) _).
  set (d := calculateTextSimilarity (Task.Description task) _).
  set (l := calculateLabelSimilarity _ _).
  set (c := calculateContextSimilarity _ _).
  do 2 case_bool_decide; simpl; rewrite ?filter_cons_True, ?filter_cons_False by done;
    simpl; rewrite ?filter_cons_True, ?filter_cons_False by done; simpl.
  - replace (0 + t * dec 4 10 + d * dec 3 10 + l * dec 2 10 + c * dec 1 10)
      with (t * dec 4 10 + (d * dec 3 10 + (l * dec 2 10 + (c * dec 1 10 + 0)))) by ring.
    done.
  - replace (0 + t * dec 4 10 + d * dec 3 10 + l * dec 2 10)
      with (t * dec 4 10 + (d * dec 3 10 + (l * dec 2 10 + 0))) by ring.
    done.
  - replace (0 + t * dec 4 10 + l * dec 2 10 + c * dec 1 10)
      with (t * dec 4 10 + (l * dec 2 10 + (c * dec 1 10 + 0))) by ring.
    done.
  - replace (0 + t * dec 4 10 + l * dec 2 10)
      with (t * dec 4 10 + (l * dec 2 10 + 0)) by ring.
    done.
Qed.
End similarity_score.

(** ** The exchange sort *)

Section exchange_sort_correct.
Context {A : Type} (out_of_order : A → A → bool).

Lemma carry_length cur rest :
  length (carry out_of_order cur rest).2 = length rest.
Proof.
  revert cur. induction rest as [|y rest IH]; intros cur; simpl; [done |].
  destruct (out_of_order cur y).
  - specialize (IH y). destruct (carry out_of_order y rest). simpl in *. by rewrite IH.
  - specialize (IH cur). destruct (carry out_of_order cur rest). simpl in *. by rewrite IH.
Qed.

Lemma carry_Permutation cur rest :
  (carry out_of_order cur rest).1 :: (carry out_of_order cur rest).2 ≡ₚ cur :: rest.
Proof.
  revert cur. induction rest as [|y rest IH]; intros cur; simpl; [done |].
  destruct (out_of_order cur y).
  - specialize (IH y). destruct (carry out_of_order y rest) as [m r]. simpl in *.
    by rewrite (Permutation_swap cur m r), IH.
  - specialize (IH cur). destruct (carry out_of_order cur rest) as [m r]. simpl in *.
    rewrite (Permutation_swap y m r), IH. apply Permutation_swap.
Qed.

Lemma exchange_passes_Permutation n a : exchange_passes out_of_order n a ≡ₚ a.
Proof.
  revert a. induction n as [|n IH]; intros [|x rest]; simpl; try done.
  pose proof (carry_Permutation x rest) as Hc.
  destruct (carry out_of_order x rest) as [m r]. simpl in *.
  by rewrite IH.
Qed.

(** Swapping the two ends of a window. *)
Lemma swap_window (pre mid post : list A) x y :
  <[length pre := y]> (<[S (length pre + length mid) := x]> (pre ++ x :: mid ++ y :: post))
  = pre ++ y :: mid ++ x :: post.
Proof.
  replace (S (length pre + length mid)) with (length pre + S (length mid))%nat by lia.
  rewrite insert_app_r. simpl.
  replace (length mid) with (length mid + 0)%nat by lia.
  rewrite insert_app_r. simpl.
  replace (length pre) with (length pre + 0)%nat at 1 by lia.
  by rewrite insert_app_r.
Qed.

(** The inner loop, from any of its iterations on: [cur] is [a[i]],
    [passed] the part of the slice the loop has gone through. *)
Lemma inner_loop_from (pre passed todo : list A) cur :
  foldl (λ a j, swap_step out_of_order (length pre) j a)
        (pre ++ cur :: passed ++ todo)
        (seq (S (length pre + length passed)) (length todo))
  = pre ++ (carry out_of_order cur todo).1 :: passed ++ (carry out_of_order cur todo).2.
Proof.
  revert cur passed. induction todo as [|y todo IH]; intros cur passed; simpl; [done |].
  unfold swap_step at 2.
  rewrite list_lookup_middle by done.
  replace (pre ++ cur :: passed ++ y :: todo)
    with ((pre ++ cur :: passed) ++ y :: todo) at 1 by (by rewrite <- app_assoc).
  rewrite list_lookup_middle by (rewrite length_app; simpl; lia).
  destruct (out_of_order cur y) eqn:Hoo.
  - rewrite swap_window.
    replace (pre ++ y :: passed ++ cur :: todo)
      with (pre ++ y :: (passed ++ [cur]) ++ todo) by (by rewrite <- app_assoc).
    replace (S (S (length pre + length passed)))
      with (S (length pre + length (passed ++ [cur]))) by (rewrite length_app; simpl; lia).
    rewrite IH. destruct (carry out_of_order y todo) as [m r]. simpl.
    by rewrite <- app_assoc.
  - replace (pre ++ cur :: passed ++ y :: todo)
      with (pre ++ cur :: (passed ++ [y]) ++ todo) by (by rewrite <- app_assoc).
    replace (S (S (length pre + length passed)))
      with (S (length pre + length (passed ++ [y]))) by (rewrite length_app; simpl; lia).
    rewrite IH. destruct (carry out_of_order cur todo) as [m r]. simpl.
    by rewrite <- app_assoc.
Qed.

Lemma inner_loop_carry (pre rest : list A) cur :
  inner_loop out_of_order (length pre) (pre ++ cur :: rest)
  = pre ++ (carry out_of_order cur rest).1 :: (carry out_of_order cur rest).2.
Proof.
  unfold inner_loop.
  replace (length (pre ++ cur :: rest) - S (length pre))%nat with (length rest)
    by (rewrite length_app; simpl; lia).
  pose proof (inner_loop_from pre [] rest cur) as Hl. simpl in Hl.
  by rewrite Nat.add_0_r in Hl.
Qed.

Lemma outer_loop_from (pre a : list A) :
  foldl (λ a i, inner_loop out_of_order i a) (pre ++ a) (seq (length pre) (length a))
  = pre ++ exchange_passes out_of_order (length a) a.
Proof.
  remember (length a) as n eqn:Hn. revert pre a Hn.
  induction n as [|n IH]; intros pre a Hn; destruct a as [|x rest]; simpl in *; try done.
  rewrite inner_loop_carry.
  pose proof (carry_length x rest) as Hlen.
  destruct (carry out_of_order x rest) as [m r]. simpl in *.
  replace (pre ++ m :: r) with ((pre ++ [m]) ++ r) by (by rewrite <- app_assoc).
  replace (S (length pre)) with (length (pre ++ [m])) by (rewrite length_app; simpl; lia).
  rewrite IH by lia. by rewrite <- app_assoc.
Qed.

(** The in-place loops compute the passes on the list. *)
Lemma exchange_sort_passes (a : list A) :
  exchange_sort out_of_order a = exchange_passes out_of_order (length a) a.
Proof. apply (outer_loop_from [] a). Qed.

Lemma exchange_sort_Permutation (a : list A) : exchange_sort out_of_order a ≡ₚ a.
Proof. rewrite exchange_sort_passes. apply exchange_passes_Permutation. Qed.


(** When "not out of order" is a total preorder the result is sorted by it. *)
Section sorted.
Let in_order (x y : A) : Prop := out_of_order x y = false.

Hypothesis in_order_trans : ∀ x y z, in_order x y → in_order y z → in_order x z.
Hypothesis out_of_order_asym : ∀ x y, out_of_order x y = true → in_order y x.

Lemma in_order_refl x : in_order x x.
Proof.
  unfold in_order. destruct (out_of_order x x) eqn:Hx; [| done].
  apply out_of_order_asym in Hx as Hx'. unfold in_order in Hx'. congruence.
Qed.

Lemma carry_first cur rest :
  Forall (in_order (carry out_of_order cur rest).1) (cur :: rest).
Proof.
  revert cur. induction rest as [|y rest IH]; intros cur; simpl.
  - constructor; [apply in_order_refl | constructor].
  - destruct (out_of_order cur y) eqn:Hoo.
    + specialize (IH y). destruct (carry out_of_order y rest) as [m r]. simpl in *.
      inversion IH as [|? ? Hy Hrest]; subst.
      constructor; [| done].
      eapply in_order_trans; [exact Hy | by apply out_of_order_asym].
    + specialize (IH cur). destruct (carry out_of_order cur rest) as [m r]. simpl in *.
      inversion IH as [|? ? Hc Hrest]; subst.
      constructor; [done |]. constructor; [| done].
      eapply in_order_trans; [exact Hc | exact Hoo].
Qed.

Lemma exchange_passes_sorted n a :
  n = length a → StronglySorted in_order (exchange_passes out_of_order n a).
Proof.
  revert a. induction n as [|n IH]; intros [|x rest] Hn; simpl in *; try done;
    try by constructor.
  pose proof (carry_first x rest) as Hfirst.
  pose proof (carry_Permutation x rest) as Hperm.
  pose proof (carry_length x rest) as Hlen.
  destruct (carry out_of_order x rest) as [m r]. simpl in *.
  constructor; [apply IH; lia |].
  rewrite exchange_passes_Permutation.
  rewrite <- Hperm in Hfirst. by inversion Hfirst.
Qed.

Lemma exchange_sort_sorted a : StronglySorted in_order (exchange_sort out_of_order a).
Proof. rewrite exchange_sort_passes. by apply exchange_passes_sorted. Qed.
End sorted.
End exchange_sort_correct.

(** ** The adaptive retriever *)

Arguments CalculateSimilarity : simpl never.
Arguments identifyMatches : simpl never.

Lemma limit_matches_take (matches : list SimilarityMatch.t) (maxMatches : Z) :
  (0 ≤ maxMatches)%Z →
  limit_matches matches maxMatches = Some (take (Z.to_nat maxMatches) matches).
Proof.
  intros Hmax. unfold limit_matches, slice_to, len.
  case_bool_decide.
  - by rewrite bool_decide_eq_true_2 by lia.
  - by rewrite take_ge by lia.
Qed.

Lemma limit_matches_all (matches : list SimilarityMatch.t) (maxMatches : Z) :
  (len matches ≤ maxMatches)%Z → limit_matches matches maxMatches = Some matches.
Proof. intros Hmax. unfold limit_matches. by rewrite bool_decide_eq_false_2 by lia. Qed.

Lemma running_max_ge mx values : mx ≤ running_max mx values.
Proof.
  revert mx. induction values as [|s values IH]; intros mx; simpl; [done |].
  case_bool_decide as Hlt; [| done].
  etrans; [| apply IH]. by apply Qclt_le_weak.
Qed.

Lemma running_max_bound mx values : Forall (λ v, v ≤ running_max mx values) values.
Proof.
  revert mx. induction values as [|s values IH]; intros mx; simpl; constructor; [| done].
  case_bool_decide as Hlt; [apply running_max_ge |].
  etrans; [| apply running_max_ge]. by apply Qcle_ngt.
Qed.

Lemma running_max_elem mx values :
  running_max mx values = mx ∨ running_max mx values ∈ values.
Proof.
  revert mx. induction values as [|s values IH]; intros mx; simpl; [by left |].
  case_bool_decide.
  - destruct (IH s) as [-> | Hin]; right; [left | by right].
  - destruct (IH mx) as [-> | Hin]; [by left | right; by right].
Qed.

Lemma running_max_is_maximum values :
  Forall (λ v, 0 ≤ v) values → is_maximum_of (running_max 0 values) values.
Proof.
  intros Hpos. split; [apply running_max_bound |].
  destruct values as [|v values]; [by right |]. left.
  destruct (running_max_elem 0 (v :: values)) as [Heq | Hin]; [| done].
  pose proof (running_max_bound 0 (v :: values)) as Hb. rewrite Heq in *.
  inversion Hb as [|? ? Hv _]; subst. inversion Hpos as [|? ? Hv' _]; subst.
  assert (v = 0) as -> by (by apply (anti_symm Qcle)). by left.
Qed.

Lemma list_find_cons_decide {A} (P : A → Prop) `{!∀ x, Decision (P x)} x (l : list A) :
  list_find P (x :: l)
  = if decide (P x) then Some (0%nat, x) else prod_map S id <$> list_find P l.
Proof. done. Qed.

Section adaptive_correct.
Context `{GoRuntime}.

Lemma identifyMatches_source task h :
  has_source h → is_Some (identifyMatches task h).
Proof. intros [issue Hi]. unfold identifyMatches. rewrite Hi. simpl. eauto. Qed.

(** On a corpus whose entries hold a source record the first loop does
    not panic; it appends the scored entries and folds the maximum. *)
Lemma score_tasks_spec task corpus scoredTasks maxSimilarity :
  Forall has_source corpus →
  score_tasks task corpus scoredTasks maxSimilarity
  = Some (scoredTasks ++ scored_corpus task corpus,
          running_max maxSimilarity (scores task corpus)).
Proof.
  intros Hsrc. revert scoredTasks maxSimilarity.
  induction Hsrc as [|h corpus Hh _ IH]; intros scoredTasks maxSimilarity; simpl.
  - by rewrite app_nil_r.
  - destruct (identifyMatches_source task h Hh) as [ms Hms]. rewrite Hms. simpl.
    rewrite IH. by rewrite <- app_assoc.
Qed.

(** The threshold loop: it stops at the first level at which [stops_at]
    holds. *)
Lemma try_thresholds_spec task corpus maxMatches lowest remaining tried :
  try_thresholds (scored_corpus task corpus) maxMatches lowest remaining tried
  = match list_find (stops_at task corpus lowest) remaining with
    | Some (i, threshold) =>
        bestMatches ← limit_matches (match_list task corpus threshold) maxMatches;
        Some (bestMatches, threshold, (tried + Z.of_nat i + 1)%Z)
    | None => Some ([], 0, (tried + len remaining)%Z)
    end.
Proof.
  revert tried. induction remaining as [|threshold remaining IH]; intros tried.
  - simpl. by rewrite Z.add_0_r.
  - cbn [try_thresholds]. rewrite list_find_cons_decide.
    fold (match_list task corpus threshold).
    destruct (decide (stops_at task corpus lowest threshold)) as [Hstop | Hstop].
    + simpl. rewrite Z.add_0_r.
      destruct Hstop as [Hmin | Hlow].
      * by rewrite bool_decide_eq_true_2 by done.
      * case_bool_decide; [done |]. by rewrite bool_decide_eq_true_2 by done.
    + rewrite bool_decide_eq_false_2 by (intros ?; apply Hstop; by left).
      rewrite bool_decide_eq_false_2 by (intros ?; apply Hstop; by right).
      rewrite IH. destruct (list_find _ remaining) as [[i th]|]; simpl.
      * destruct (limit_matches _ _); simpl; [| done].
        do 3 f_equal. lia.
      * unfold len. simpl. do 2 f_equal. lia.
Qed.

Lemma CalculateSimilarity_nonneg task historical : 0 ≤ CalculateSimilarity task historical.
Proof. apply CalculateSimilarity_unit. Qed.

Lemma scores_nonneg task corpus : Forall (λ v, 0 ≤ v) (scores task corpus).
Proof. apply Forall_fmap, Forall_forall. intros h _. apply CalculateSimilarity_nonneg. Qed.
End adaptive_correct.

Lemma StronglySorted_weaken {A} (R1 R2 : A → A → Prop) (l : list A) :
  (∀ x y, R1 x y → R2 x y) → StronglySorted R1 l → StronglySorted R2 l.
Proof.
  intros HR. induction 1 as [|x l _ IH Hx]; constructor; [done |].
  eapply Forall_impl; [exact Hx | by intros; apply HR].
Qed.

Lemma sortBySimilarity_Permutation matches : sortBySimilarity matches ≡ₚ matches.
Proof. apply exchange_sort_Permutation. Qed.

Lemma sortBySimilarity_sorted matches :
  StronglySorted by_similarity_desc (sortBySimilarity matches).
Proof.
  unfold sortBySimilarity.
  eapply StronglySorted_weaken; [| apply exchange_sort_sorted].
  - intros x y Hxy. apply bool_decide_eq_false in Hxy. by apply Qcle_ngt.
  - intros x y z Hxy Hyz. apply bool_decide_eq_false in Hxy, Hyz.
    apply bool_decide_eq_false. apply Qcle_ngt in Hxy, Hyz. apply Qcle_ngt. by etrans.
  - intros x y Hxy. apply bool_decide_eq_true in Hxy.
    apply bool_decide_eq_false. apply Qcle_ngt. by apply Qclt_le_weak.
Qed.

Section match_lists.
Context `{GoRuntime}.

Lemma matches_at_tasks task corpus threshold :
  SimilarityMatch.Task <$> matches_at threshold (scored_corpus task corpus)
  = qualifying task threshold corpus.
Proof.
  unfold matches_at, scored_corpus, qualifying.
  induction corpus as [|h corpus IH]; [done |].
  rewrite fmap_cons.
  destruct (decide (threshold ≤ CalculateSimilarity task (Some h))) as [Hh | Hh].
  - rewrite !filter_cons_True by done. rewrite !fmap_cons. simpl. by rewrite IH.
  - by rewrite !filter_cons_False by done.
Qed.

Lemma matches_at_scores task corpus threshold :
  Forall (λ m, SimilarityMatch.Similarity m
               = CalculateSimilarity task (Some (SimilarityMatch.Task m)))
         (matches_at threshold (scored_corpus task corpus)).
Proof.
  unfold matches_at, scored_corpus.
  induction corpus as [|h corpus IH]; [constructor |].
  rewrite fmap_cons.
  destruct (decide (threshold ≤ CalculateSimilarity task (Some h))) as [Hh | Hh].
  - rewrite filter_cons_True by done. rewrite fmap_cons. by constructor.
  - by rewrite filter_cons_False by done.
Qed.

Lemma match_list_tasks task corpus threshold :
  SimilarityMatch.Task <$> match_list task corpus threshold
  ≡ₚ qualifying task threshold corpus.
Proof.
  unfold match_list. by rewrite sortBySimilarity_Permutation, matches_at_tasks.
Qed.

Lemma match_list_scores task corpus threshold :
  Forall (λ m, SimilarityMatch.Similarity m
               = CalculateSimilarity task (Some (SimilarityMatch.Task m)))
         (match_list task corpus threshold).
Proof.
  unfold match_list. rewrite sortBySimilarity_Permutation. apply matches_at_scores.
Qed.

Lemma match_list_length task corpus threshold :
  length (match_list task corpus threshold) = length (qualifying task threshold corpus).
Proof. by rewrite <- match_list_tasks, length_fmap. Qed.

Lemma qualifying_length_mono task corpus t1 t2 :
  t1 ≤ t2 → (length (qualifying task t2 corpus) ≤ length (qualifying task t1 corpus))%nat.
Proof.
  intros Ht. unfold qualifying.
  induction corpus as [|h corpus IH]; [done |].
  rewrite !filter_cons.
  destruct (decide (t2 ≤ CalculateSimilarity task (Some h))) as [H2 | H2];
    destruct (decide (t1 ≤ CalculateSimilarity task (Some h))) as [H1 | H1];
    simpl; try lia.
  destruct H1. by etrans.
Qed.

(** The retriever on a corpus whose entries hold a source record. *)
Lemma FindSimilarTasksAdaptive_spec task corpus config :
  Forall has_source corpus →
  FindSimilarTasksAdaptive task corpus config
  = let cfg := default DefaultEstimationConfig config in
    '(bestMatches, thresholdUsed, tried) ←
      match list_find (stops_at task corpus (dec 15 100)) thresholds with
      | Some (i, threshold) =>
          bestMatches ← limit_matches (match_list task corpus threshold)
                           (EstimationConfig.MaxSimilarTasks cfg);
          Some (bestMatches, threshold, (0 + Z.of_nat i + 1)%Z)
      | None => Some ([], 0, (0 + len thresholds)%Z)
      end;
    Some (bestMatches,
          {| SimilarityContext.ThresholdUsed :=
               if bool_decide (len bestMatches = 0)%Z
               then EstimationConfig.MinSimilarityThreshold cfg else thresholdUsed;
             SimilarityContext.ThresholdsTriedCount := tried;
             SimilarityContext.TotalTasksScanned := len corpus;
             SimilarityContext.MatchesFound := len bestMatches;
             SimilarityContext.HighestSimilarity := running_max 0 (scores task corpus) |}).
Proof.
  intros Hsrc. unfold FindSimilarTasksAdaptive.
  rewrite score_tasks_spec by done. cbn [mbind option_bind app].
  by rewrite try_thresholds_spec.
Qed.

Lemma highest_is_maximum task corpus :
  is_maximum_of (running_max 0 (scores task corpus)) (scores task corpus).
Proof. apply running_max_is_maximum, scores_nonneg. Qed.
End match_lists.

Section retriever_claims.
Context `{GoRuntime}.

Lemma thresholds_above_lowest threshold :
  threshold ∈ thresholds → dec 15 100 ≤ threshold.
Proof.
  unfold thresholds. rewrite !elem_of_cons, elem_of_nil.
  intros [-> | [-> | [-> | [-> | [-> | []]]]]]; by apply (bool_decide_unpack _).
Qed.

(** No level stops the loop when fewer than the minimum qualify at the
    lowest level and none qualifies there. *)
Lemma list_find_stops_none task corpus :
  qualifying task (dec 15 100) corpus = [] →
  list_find (stops_at task corpus (dec 15 100)) thresholds = None.
Proof.
  intros Hq. apply list_find_None, Forall_forall. intros threshold Hth.
  assert (length (match_list task corpus threshold) = 0)%nat as Hlen.
  { rewrite match_list_length.
    pose proof (qualifying_length_mono task corpus _ _ (thresholds_above_lowest _ Hth)) as Hm.
    rewrite Hq in Hm. simpl in Hm. lia. }
  unfold stops_at, minDesiredMatches, len. rewrite Hlen. simpl. lia.
Qed.

(** With one or two entries at the lowest level and fewer than three at
    every level, the loop stops at the lowest level, the fifth. *)
Lemma list_find_stops_lowest task corpus :
  (0 < length (qualifying task (dec 15 100) corpus) < 3)%nat →
  list_find (stops_at task corpus (dec 15 100)) thresholds = Some (4%nat, dec 15 100).
Proof.
  intros Hq.
  assert (∀ threshold, threshold ∈ thresholds → threshold ≠ dec 15 100 →
            ¬ stops_at task corpus (dec 15 100) threshold) as Hno.
  { intros threshold Hth Hne [Hmin | [Heq _]]; [| done].
    unfold minDesiredMatches, len in Hmin. rewrite match_list_length in Hmin.
    pose proof (qualifying_length_mono task corpus _ _ (thresholds_above_lowest _ Hth)).
    lia. }
  unfold thresholds in *.
  rewrite list_find_cons_decide, decide_False
    by (apply Hno; [rewrite !elem_of_cons; auto 10 | by apply (bool_decide_unpack _)]).
  rewrite list_find_cons_decide, decide_False
    by (apply Hno; [rewrite !elem_of_cons; auto 10 | by apply (bool_decide_unpack _)]).
  rewrite list_find_cons_decide, decide_False
    by (apply Hno; [rewrite !elem_of_cons; auto 10 | by apply (bool_decide_unpack _)]).
  rewrite list_find_cons_decide, decide_False
    by (apply Hno; [rewrite !elem_of_cons; auto 10 | by apply (bool_decide_unpack _)]).
  rewrite list_find_cons_decide, decide_True; [done |].
  right. split; [done |]. unfold len. rewrite match_list_length. lia.
Qed.

(** C4, as the code has it.  For every task, every corpus whose entries
    hold a source record and every configuration with a non-negative
    maximum: if fewer than three entries score at least 0.15, the
    retriever returns the entries scoring at least 0.15 in descending
    order of score, cut to the first [MaxSimilarTasks] of them (all of
    them when [MaxSimilarTasks] is not below their number, as with the
    default 15), each with its score; and [HighestSimilarity] is the
    greatest score of the whole corpus (0 on an empty corpus). *)
Theorem adaptive_below_minimum task corpus config :
  Forall has_source corpus →
  (0 ≤ EstimationConfig.MaxSimilarTasks (default DefaultEstimationConfig config))%Z →
  (length (qualifying task (dec 15 100) corpus) < 3)%nat →
  ∃ matches context sorted,
    FindSimilarTasksAdaptive task corpus config = Some (matches, context)
    ∧ matches = take (Z.to_nat (EstimationConfig.MaxSimilarTasks
                                  (default DefaultEstimationConfig config))) sorted
    ∧ SimilarityMatch.Task <$> sorted ≡ₚ qualifying task (dec 15 100) corpus
    ∧ StronglySorted by_similarity_desc sorted
    ∧ Forall (λ m, SimilarityMatch.Similarity m
                   = CalculateSimilarity task (Some (SimilarityMatch.Task m))) sorted
    ∧ ((len sorted ≤ EstimationConfig.MaxSimilarTasks
                       (default DefaultEstimationConfig config))%Z → matches = sorted)
    ∧ is_maximum_of (SimilarityContext.HighestSimilarity context) (scores task corpus).
Proof.
  intros Hsrc Hmax Hfew.
  rewrite FindSimilarTasksAdaptive_spec by done. cbn zeta.
  set (cfg := default DefaultEstimationConfig config) in *.
  pose proof (match_list_tasks task corpus (dec 15 100)) as Htasks.
  pose proof (sortBySimilarity_sorted
                (matches_at (dec 15 100) (scored_corpus task corpus))) as Hsorted.
  pose proof (match_list_scores task corpus (dec 15 100)) as Hscores.
  fold (match_list task corpus (dec 15 100)) in Hsorted.
  destruct (qualifying task (dec 15 100) corpus) as [|q qs] eqn:Hq.
  - rewrite list_find_stops_none by done. simpl.
    assert (match_list task corpus (dec 15 100) = []) as Hnil.
    { apply Permutation_nil_r in Htasks. by apply fmap_nil_inv in Htasks. }
    eexists [], _, (match_list task corpus (dec 15 100)).
    split; [done |]. rewrite Hnil.
    repeat split; try done; try by rewrite take_nil.
    + constructor.
    + apply highest_is_maximum.
    + apply highest_is_maximum.
  - rewrite list_find_stops_lowest by (rewrite Hq; simpl in *; lia).
    rewrite limit_matches_take by done. simpl.
    eexists _, _, (match_list task corpus (dec 15 100)).
    split; [done |]. repeat split; try done.
    + intros Hlen. apply take_ge. unfold len in Hlen. lia.
    + apply highest_is_maximum.
    + apply highest_is_maximum.
Qed.

(** C10.  For every task, every corpus whose entries hold a source
    record and every configuration: when no entry scores 0.15 or more,
    the retriever returns no match, and the context reports the
    configured [MinSimilarityThreshold] as [ThresholdUsed] (0.3 under the
    default configuration, not the lowest level 0.15), [MatchesFound] 0,
    all five levels tried, and as [HighestSimilarity] the greatest score
    of the corpus. *)
Theorem adaptive_no_match task corpus config :
  Forall has_source corpus →
  Forall (λ h, CalculateSimilarity task (Some h) < dec 15 100) corpus →
  ∃ context,
    FindSimilarTasksAdaptive task corpus config = Some ([], context)
    ∧ SimilarityContext.ThresholdUsed context
      = EstimationConfig.MinSimilarityThreshold (default DefaultEstimationConfig config)
    ∧ EstimationConfig.MinSimilarityThreshold DefaultEstimationConfig = dec 3 10
    ∧ SimilarityContext.MatchesFound context = 0%Z
    ∧ SimilarityContext.ThresholdsTriedCount context = 5%Z
    ∧ SimilarityContext.TotalTasksScanned context = len corpus
    ∧ is_maximum_of (SimilarityContext.HighestSimilarity context) (scores task corpus).
Proof.
  intros Hsrc Hlow.
  rewrite FindSimilarTasksAdaptive_spec by done. cbn zeta.
  rewrite list_find_stops_none.
  - simpl. eexists. split; [done |]. repeat split; try done; apply highest_is_maximum.
  - unfold qualifying. induction Hlow as [|h corpus Hh _ IH]; [done |].
    inversion Hsrc; subst. rewrite filter_cons_False by (by apply Qclt_nge).
    by apply IH.
Qed.
End retriever_claims.

Section retriever_order.
Context `{GoRuntime}.

Lemma lowest_threshold_position j :
  thresholds !! j = Some (dec 15 100) → j = 4%nat.
Proof.
  unfold thresholds.
  destruct j as [|[|[|[|[|j]]]]]; simpl; intros Heq; try done;
    injection Heq as Heq; exfalso; revert Heq; by apply (bool_decide_unpack _).
Qed.

(** The first level that yields the minimum match count is where the
    loop stops. *)
Lemma stops_at_first_minimum task corpus i threshold :
  list_find (λ th, (minDesiredMatches ≤ len (match_list task corpus th))%Z) thresholds
    = Some (i, threshold) →
  list_find (stops_at task corpus (dec 15 100)) thresholds = Some (i, threshold).
Proof.
  rewrite !list_find_Some. intros (Hi & Hmin & Hbefore).
  split; [done |]. split; [by left |].
  intros j y Hj Hlt [Hy | [-> _]]; [by eapply Hbefore |].
  apply lowest_threshold_position in Hj. subst j.
  apply lookup_lt_Some in Hi. simpl in Hi. lia.
Qed.

(** C9, as the code has it.  For every task, every corpus whose entries
    hold a source record and every configuration with a non-negative
    maximum: at every threshold level the match list consists of the
    entries scoring at least the threshold, each with its score, in
    descending order of score (the order among equal scores is the one
    the exchange sort leaves, which need not be the corpus order); the
    retriever returns the match list of the first level that yields at
    least three matches, cut to [MaxSimilarTasks], and reports that level
    and its position; when no level yields three, it returns the match
    list of the lowest level, cut the same way. *)
Theorem adaptive_match_list task corpus config :
  Forall has_source corpus →
  (0 ≤ EstimationConfig.MaxSimilarTasks (default DefaultEstimationConfig config))%Z →
  (∀ threshold,
     SimilarityMatch.Task <$> match_list task corpus threshold
       ≡ₚ qualifying task threshold corpus
     ∧ StronglySorted by_similarity_desc (match_list task corpus threshold)
     ∧ Forall (λ m, SimilarityMatch.Similarity m
                    = CalculateSimilarity task (Some (SimilarityMatch.Task m)))
              (match_list task corpus threshold))
  ∧ ∃ matches context,
      FindSimilarTasksAdaptive task corpus config = Some (matches, context)
      ∧ SimilarityContext.MatchesFound context = len matches
      ∧ match list_find (λ th, (minDesiredMatches ≤ len (match_list task corpus th))%Z)
                        thresholds with
        | Some (i, threshold) =>
            matches = take (Z.to_nat (EstimationConfig.MaxSimilarTasks
                                        (default DefaultEstimationConfig config)))
                           (match_list task corpus threshold)
            ∧ SimilarityContext.ThresholdsTriedCount context = (Z.of_nat i + 1)%Z
            ∧ (matches ≠ [] → SimilarityContext.ThresholdUsed context = threshold)
        | None =>
            matches = take (Z.to_nat (EstimationConfig.MaxSimilarTasks
                                        (default DefaultEstimationConfig config)))
                           (match_list task corpus (dec 15 100))
            ∧ SimilarityContext.ThresholdsTriedCount context = 5%Z
        end.
Proof.
  intros Hsrc Hmax. split.
  { intros threshold. split; [apply match_list_tasks |].
    split; [apply sortBySimilarity_sorted | apply match_list_scores]. }
  rewrite FindSimilarTasksAdaptive_spec by done. cbn zeta.
  destruct (list_find (λ th, (minDesiredMatches ≤ len (match_list task corpus th))%Z)
                      thresholds) as [[i threshold]|] eqn:Hfind.
  - rewrite (stops_at_first_minimum _ _ _ _ Hfind).
    rewrite limit_matches_take by done. simpl.
    eexists _, _. split; [done |]. split; [done |]. split; [done |].
    split; [simpl; lia |]. intros Hne. simpl.
    rewrite bool_decide_eq_false_2; [done |].
    unfold len. destruct (take _ _); [done | simpl; lia].
  - apply list_find_None in Hfind.
    assert (length (qualifying task (dec 15 100) corpus) < 3)%nat as Hfew.
    { rewrite <- match_list_length.
      assert (dec 15 100 ∈ thresholds) as Hin
        by (unfold thresholds; rewrite !elem_of_cons; auto 10).
      rewrite Forall_forall in Hfind. specialize (Hfind _ Hin).
      unfold minDesiredMatches, len in Hfind. lia. }
    destruct (qualifying task (dec 15 100) corpus) as [|q qs] eqn:Hq.
    + rewrite list_find_stops_none by done. simpl.
      assert (match_list task corpus (dec 15 100) = []) as ->.
      { apply length_zero_iff_nil. by rewrite match_list_length, Hq. }
      eexists _, _. split; [done |]. by rewrite take_nil.
    + rewrite list_find_stops_lowest by (rewrite Hq; simpl in *; lia).
      rewrite limit_matches_take by done. simpl.
      eexists _, _. by split.
Qed.
End retriever_order.

(** *** The claims at concrete inputs *)

Section retriever_examples.
Existing Instance latin1.

Lemma tie_corpus_has_source : Forall has_source tie_corpus.
Proof. repeat constructor; by eexists. Qed.

Lemma sparse_corpus_has_source : Forall has_source sparse_corpus.
Proof. repeat constructor; by eexists. Qed.

Lemma unrelated_corpus_has_source : Forall has_source unrelated_corpus.
Proof. repeat constructor; by eexists. Qed.
End retriever_examples.

(** C1 at an entry without a source record. *)
Lemma CalculateSimilarity_range_witness :
  @CalculateSimilarity latin1 tie_task (Some (orphan_entry 7)) = 0.
Proof.
  apply (@CalculateSimilarity_range latin1 tie_task (Some (orphan_entry 7))).
  reflexivity.
Defined.

(** C4 as stated fails: with [MaxSimilarTasks = 1] two entries score at
    least 0.15 (fewer than three), and the retriever returns one of them. *)
Lemma adaptive_below_minimum_counterexample :
  fmap (M:=list) addr (@qualifying latin1 sparse_task (dec 15 100) sparse_corpus) = [0%N; 1%N]
  ∧ returned_addresses
      (@FindSimilarTasksAdaptive latin1 sparse_task sparse_corpus (Some single_match_config))
    = Some [1%N].
Proof. split; by vm_compute. Qed.

Lemma adaptive_below_minimum_witness :
  ∃ matches context sorted,
    @FindSimilarTasksAdaptive latin1 sparse_task sparse_corpus (Some single_match_config)
      = Some (matches, context)
    ∧ matches = take 1 sorted
    ∧ SimilarityMatch.Task <$> sorted ≡ₚ @qualifying latin1 sparse_task (dec 15 100) sparse_corpus
    ∧ StronglySorted by_similarity_desc sorted
    ∧ Forall (λ m, SimilarityMatch.Similarity m
                   = @CalculateSimilarity latin1 sparse_task (Some (SimilarityMatch.Task m)))
             sorted
    ∧ ((len sorted ≤ 1)%Z → matches = sorted)
    ∧ is_maximum_of (SimilarityContext.HighestSimilarity context)
                    (@scores latin1 sparse_task sparse_corpus).
Proof.
  apply (@adaptive_below_minimum latin1 sparse_task sparse_corpus (Some single_match_config)).
  - exact sparse_corpus_has_source.
  - simpl. lia.
  - vm_compute. lia.
Defined.

(** C9 as stated fails: the first two entries of the corpus tie at 2/3;
    the retriever returns them in the order 1, 0, a sort that keeps the
    corpus order among equal scores returns them in the order 0, 1. *)
Lemma adaptive_match_list_counterexample :
  returned_addresses (@FindSimilarTasksAdaptive latin1 tie_task tie_corpus None)
  = Some [2%N; 1%N; 0%N]
  ∧ match_addresses
      (take 15 (stable_sort_desc
                  (matches_at (dec 5 10) (@scored_corpus latin1 tie_task tie_corpus))))
    = [2%N; 0%N; 1%N].
Proof. split; by vm_compute. Qed.

Lemma adaptive_match_list_witness :
  ∃ matches context,
    @FindSimilarTasksAdaptive latin1 tie_task tie_corpus None = Some (matches, context)
    ∧ matches = take 15 (@match_list latin1 tie_task tie_corpus (dec 5 10))
    ∧ SimilarityContext.ThresholdsTriedCount context = 1%Z.
Proof.
  destruct (@adaptive_match_list latin1 tie_task tie_corpus None tie_corpus_has_source)
    as [_ (matches & context & Hrun & _ & Hfirst)]; [simpl; lia |].
  exists matches, context. split; [exact Hrun |].
  assert (list_find (λ th, (minDesiredMatches ≤ len (@match_list latin1 tie_task tie_corpus th))%Z)
                    thresholds = Some (0%nat, dec 5 10)) as Hfind by (by vm_compute).
  rewrite Hfind in Hfirst. destruct Hfirst as (Hm & Ht & _). by split.
Defined.

Lemma adaptive_no_match_witness :
  ∃ context,
    @FindSimilarTasksAdaptive latin1 sparse_task unrelated_corpus None = Some ([], context)
    ∧ SimilarityContext.ThresholdUsed context = dec 3 10
    ∧ SimilarityContext.MatchesFound context = 0%Z.
Proof.
  destruct (@adaptive_no_match latin1 sparse_task unrelated_corpus None
              unrelated_corpus_has_source)
    as (context & Hrun & Hused & _ & Hfound & _).
  - constructor; [by vm_compute |]. constructor; [by vm_compute | constructor].
  - exists context. by repeat split.
Defined.

(** ** C6: the statistics of the corpus *)

Lemma int_of_float64_floor (x : float64) : 0 ≤ x → int_of_float64 x = Qfloor (this x).
Proof.
  unfold int_of_float64, Qcle, Qle. destruct (this x) as [n d]. simpl.
  intros Hx. apply Z.quot_div_nonneg; lia.
Qed.

Lemma percentile_index_floor (n : nat) (p : float64) :
  (1 ≤ n)%nat → 0 ≤ p → percentile_index (Z.of_nat n) p = floor_index n p.
Proof.
  intros Hn Hp. unfold percentile_index, floor_index, float64_of_int.
  rewrite int_of_float64_floor.
  - simpl. by rewrite Qred_correct.
  - apply Qcmult_nonneg_nonneg; [| done].
    rewrite <- Z2Qc_inj_0. apply (proj1 (Z2Qc_inj_le _ _)). lia.
Qed.

Lemma Qmult_le_nonneg_l (x y z : Q) : (0 <= z)%Q → (x <= y)%Q → (z * x <= z * y)%Q.
Proof.
  intros Hz Hxy. rewrite (Qmult_comm z x), (Qmult_comm z y). by apply Qmult_le_compat_r.
Qed.

Lemma floor_index_mono (n : nat) (p p' : float64) :
  (1 ≤ n)%nat → p ≤ p' → (floor_index n p ≤ floor_index n p')%Z.
Proof.
  intros Hn Hp. unfold floor_index. apply Qfloor_resp_le.
  apply Qmult_le_nonneg_l; [| done].
  change 0%Q with (inject_Z 0). rewrite <- Zle_Qle. lia.
Qed.

Lemma floor_index_range (n : nat) (p : float64) :
  (1 ≤ n)%nat → 0 ≤ p ≤ 1 → (0 ≤ floor_index n p ≤ Z.of_nat n - 1)%Z.
Proof.
  intros Hn [Hp0 Hp1]. unfold floor_index. split.
  - rewrite <- (Qfloor_Z 0). apply Qfloor_resp_le.
    apply Qmult_le_0_compat; [| done].
    change 0%Q with (inject_Z 0). rewrite <- Zle_Qle. lia.
  - rewrite <- (Qfloor_Z (Z.of_nat n - 1)) at 2. apply Qfloor_resp_le.
    rewrite <- (Qmult_1_r (inject_Z (Z.of_nat n - 1))) at 2.
    apply Qmult_le_nonneg_l; [| done].
    change 0%Q with (inject_Z 0). rewrite <- Zle_Qle. lia.
Qed.

Lemma foldl_Qcplus (a : Qc) (l : list Qc) : foldl Qcplus a l = a + foldr Qcplus 0 l.
Proof.
  revert a. induction l as [|x l IH]; intros a; simpl; [by rewrite Qcplus_0_r |].
  by rewrite IH, Qcplus_assoc.
Qed.

Lemma StronglySorted_lookup_le {A} (R : relation A) `{!Reflexive R} (l : list A) i j x y :
  StronglySorted R l → (i ≤ j)%nat → l !! i = Some x → l !! j = Some y → R x y.
Proof.
  intros Hl. revert i j. induction Hl as [|z l _ IH Hz]; intros i j Hij Hi Hj; [done |].
  destruct i as [|i], j as [|j]; simpl in *; simplify_eq; try lia.
  - done.
  - rewrite Forall_forall in Hz. apply Hz. by eapply list_elem_of_lookup_2.
  - eapply IH; [| done | done]. lia.
Qed.

Lemma sort_hours_Permutation hours : sort_hours hours ≡ₚ hours.
Proof. apply exchange_sort_Permutation. Qed.

Lemma sort_hours_sorted hours : StronglySorted Qcle (sort_hours hours).
Proof.
  unfold sort_hours.
  eapply StronglySorted_weaken; [| apply exchange_sort_sorted].
  - intros x y Hxy. apply bool_decide_eq_false in Hxy. by apply Qcle_ngt.
  - intros x y z Hxy Hyz. apply bool_decide_eq_false in Hxy, Hyz.
    apply bool_decide_eq_false. apply Qcle_ngt in Hxy, Hyz. apply Qcle_ngt. by etrans.
  - intros x y Hxy. apply bool_decide_eq_true in Hxy.
    apply bool_decide_eq_false. apply Qcle_ngt. by apply Qclt_le_weak.
Qed.

(** The exchange sort of the hours is the sorted list of the hours. *)
Lemma sort_hours_merge_sort hours : sort_hours hours = merge_sort Qcle hours.
Proof.
  apply (Sorted_unique Qcle).
  - apply StronglySorted_Sorted, sort_hours_sorted.
  - apply (Sorted_merge_sort Qcle).
  - by rewrite sort_hours_Permutation, merge_sort_Permutation.
Qed.

Lemma at_index_nth (a : list float64) (i : Z) : at_index a i = nth (Z.to_nat i) a 0.
Proof. unfold at_index. by rewrite nth_lookup. Qed.

Lemma median_of_sorted_brute_force hours :
  median_of_sorted (sort_hours hours) = brute_force_median hours.
Proof.
  unfold median_of_sorted, brute_force_median, len. rewrite sort_hours_merge_sort.
  generalize (merge_sort Qcle hours). intros sorted.
  rewrite !at_index_nth.
  pose proof (Nat2Z.inj_div (length sorted) 2) as Hdiv.
  change (Z.of_nat 2) with 2%Z in Hdiv. rewrite <- Hdiv.
  replace (Z.to_nat (Z.of_nat (length sorted / 2) - 1)) with (length sorted / 2 - 1)%nat by lia.
  rewrite Nat2Z.id.
  destruct (Nat.even (length sorted)) eqn:Heven.
  - rewrite bool_decide_eq_true_2; [done |].
    apply Nat.even_spec in Heven as [k Hk]. rewrite Hk.
    rewrite Nat2Z.inj_mul, Z.mul_comm. apply Z.mod_mul. lia.
  - rewrite bool_decide_eq_false_2; [done |].
    assert (Nat.odd (length sorted) = true) as Hodd by (by rewrite <- Nat.negb_even, Heven).
    apply Nat.odd_spec in Hodd as [k Hk]. rewrite Hk.
    rewrite Nat2Z.inj_add, Nat2Z.inj_mul, Z.add_comm, Z.mul_comm, Z.mod_add by lia.
    done.
Qed.

Lemma stats_label_fold_view hist issue labels st :
  hours_view (foldl (stats_label_step hist issue) st labels) = hours_view st.
Proof.
  revert st. induction labels as [|label labels IH]; intros st; simpl; [done |].
  by rewrite IH.
Qed.

Lemma positive_hours_cons hist corpus :
  positive_hours (hist :: corpus)
  = (if bool_decide (0 < HistoricalTask.ActualHours (deref hist))
     then [HistoricalTask.ActualHours (deref hist)] else [])
    ++ positive_hours corpus.
Proof.
  unfold positive_hours. rewrite fmap_cons, filter_cons.
  by destruct (decide (0 < HistoricalTask.ActualHours (deref hist)));
    [rewrite bool_decide_eq_true_2 | rewrite bool_decide_eq_false_2].
Qed.

Lemma stats_step_view st hist :
  hours_view (stats_step st hist)
  = let h := HistoricalTask.ActualHours (deref hist) in
    if bool_decide (0 < h)
    then (statsLoop.hours st ++ [h], (statsLoop.hoursCount st + 1)%Z, statsLoop.totalHours st + h)
    else hours_view st.
Proof.
  unfold stats_step. cbn zeta.
  destruct (HistoricalTask.Issue (deref hist)) as [issue|];
    [rewrite stats_label_fold_view |]; unfold hours_view; simpl; by case_bool_decide.
Qed.

Lemma stats_fold_view corpus st :
  hours_view (foldl stats_step st corpus)
  = (statsLoop.hours st ++ positive_hours corpus,
     (statsLoop.hoursCount st + len (positive_hours corpus))%Z,
     foldl Qcplus (statsLoop.totalHours st) (positive_hours corpus)).
Proof.
  revert st. induction corpus as [|hist corpus IH]; intros st.
  - unfold hours_view, len. simpl. by rewrite app_nil_r, Z.add_0_r.
  - simpl. rewrite IH, positive_hours_cons.
    pose proof (stats_step_view st hist) as Hstep. cbn zeta in Hstep.
    unfold hours_view in Hstep. case_bool_decide; injection Hstep as -> -> ->.
    + unfold len. rewrite <- app_assoc, length_app. simpl.
      do 2 f_equal. lia.
    + done.
Qed.

Lemma percentiles_unit : Forall (λ p, 0 ≤ p ≤ 1) percentiles.
Proof. by apply (bool_decide_unpack _). Qed.

Lemma percentiles_increasing :
  Sorted (λ p p', 0 ≤ p ∧ p ≤ p' ∧ p' ≤ 1) percentiles.
Proof. by apply (bool_decide_unpack _). Qed.

Lemma percentile_value_mono (sorted : list Qc) (p p' : Qc) :
  sorted ≠ [] → StronglySorted Qcle sorted → 0 ≤ p → p ≤ p' → p' ≤ 1 →
  at_index sorted (percentile_index (len sorted) p)
  ≤ at_index sorted (percentile_index (len sorted) p').
Proof.
  intros Hne Hsorted Hp Hpp' Hp'. unfold len.
  assert (1 ≤ length sorted)%nat as Hn by (destruct sorted; [done | simpl; lia]).
  rewrite !percentile_index_floor by (done || by etrans).
  pose proof (floor_index_mono (length sorted) p p' Hn Hpp') as Hmono.
  pose proof (floor_index_range (length sorted) p Hn) as [Hlo Hhi];
    [split; [done | by etrans] |].
  pose proof (floor_index_range (length sorted) p' Hn) as [Hlo' Hhi'];
    [split; [by etrans | done] |].
  unfold at_index.
  destruct (lookup_lt_is_Some_2 sorted (Z.to_nat (floor_index (length sorted) p)))
    as [x Hx]; [lia |].
  destruct (lookup_lt_is_Some_2 sorted (Z.to_nat (floor_index (length sorted) p')))
    as [y Hy]; [lia |].
  rewrite Hx, Hy. simpl.
  eapply (StronglySorted_lookup_le Qcle); [done | | done | done]. lia.
Qed.

(** C6.  On the empty corpus the summarizer returns nil.  On a non-empty
    corpus it returns statistics in which, with [hours] the hours of the
    entries with positive hours: the mean is the mean of [hours], the
    median is the median of [hours] computed by a full sort, the value of
    each of the five levels 0.10, 0.25, 0.50, 0.75, 0.90 is the entry of
    the sorted hours at index floor((n-1) × p), and the percentile values
    are non-decreasing.  (When no entry has positive hours the mean and
    the median are 0 and there is no percentile value, as there is no
    sorted entry at any index.) *)
Theorem calculateDatasetStatistics_summary (corpus : list (ptr HistoricalTask.t)) :
  calculateDatasetStatistics [] = None
  ∧ (corpus ≠ [] →
     ∃ stats,
       calculateDatasetStatistics corpus = Some stats
       ∧ let hours := positive_hours corpus in
         let sorted := merge_sort Qcle hours in
         DatasetStatistics.AvgHours stats = mean hours
         ∧ DatasetStatistics.MedianHours stats = brute_force_median hours
         ∧ (∀ i p, percentiles !! i = Some p →
              DatasetStatistics.PercentileHours stats !! i
              = sorted !! Z.to_nat (floor_index (length hours) p))
         ∧ (hours ≠ [] → length (DatasetStatistics.PercentileHours stats) = 5%nat)
         ∧ (hours = [] →
              DatasetStatistics.AvgHours stats = 0 ∧ DatasetStatistics.MedianHours stats = 0
              ∧ DatasetStatistics.PercentileHours stats = [])
         ∧ Sorted Qcle (DatasetStatistics.PercentileHours stats)).
Proof.
  split; [done |]. intros Hne.
  unfold calculateDatasetStatistics.
  rewrite bool_decide_eq_false_2 by (destruct corpus; [done | unfold len; simpl; lia]).
  eexists. split; [done |]. cbn zeta.
  cbn [DatasetStatistics.AvgHours DatasetStatistics.MedianHours
       DatasetStatistics.PercentileHours].
  pose proof (stats_fold_view corpus stats_init) as Hview.
  unfold hours_view in Hview. cbn [stats_init statsLoop.hours statsLoop.hoursCount
    statsLoop.totalHours app] in Hview. injection Hview as -> -> ->.
  rewrite Z.add_0_l.
  set (hours := positive_hours corpus).
  rewrite sort_hours_merge_sort, foldl_Qcplus, Qcplus_0_l.
  destruct hours as [|h0 hours'] eqn:Hhours.
  - rewrite !bool_decide_eq_false_2 by (unfold len; simpl; lia).
    repeat split; try done. by apply Qc_is_canon.
  - set (hs := h0 :: hours').
    assert (0 < len hs)%Z as Hpos by (unfold len; simpl; lia).
    rewrite !bool_decide_eq_true_2 by lia.
    assert (length (merge_sort Qcle hs) = length hs) as Hlen
      by (by rewrite merge_sort_Permutation).
    assert (merge_sort Qcle hs ≠ []) as Hsne.
    { intros Hnil. rewrite Hnil in Hlen. done. }
    pose proof (sort_hours_sorted hs) as Hsorted. rewrite sort_hours_merge_sort in Hsorted.
    split; [done |]. split; [by rewrite <- median_of_sorted_brute_force, sort_hours_merge_sort |].
    split; [| split; [by rewrite length_fmap | split; [done |]]].
    + intros i p Hi. rewrite list_lookup_fmap, Hi. simpl.
      assert (0 ≤ p ≤ 1) as [Hp0 Hp1].
      { pose proof percentiles_unit as Hu. rewrite Forall_forall in Hu.
        apply Hu. by eapply list_elem_of_lookup_2. }
      unfold len. rewrite Hlen, percentile_index_floor by (simpl; lia || done).
      pose proof (floor_index_range (length hs) p) as [Hlo Hhi]; [simpl; lia | done |].
      unfold at_index.
      destruct (lookup_lt_is_Some_2 (merge_sort Qcle hs)
                  (Z.to_nat (floor_index (length hs) p))) as [x Hx]; [lia |].
      by rewrite Hx.
    + eapply Sorted_fmap; [| exact percentiles_increasing].
      intros p p' (Hp & Hpp' & Hp'). by apply percentile_value_mono.
Qed.

Lemma calculateDatasetStatistics_summary_witness :
  ∃ stats,
    calculateDatasetStatistics sized_corpus = Some stats
    ∧ DatasetStatistics.AvgHours stats = Q2Qc (17 # 4)
    ∧ DatasetStatistics.MedianHours stats = Q2Qc (9 # 2)
    ∧ DatasetStatistics.PercentileHours stats !! 0%nat = Some (Q2Qc 1)
    ∧ DatasetStatistics.PercentileHours stats !! 2%nat = Some (Q2Qc 3)
    ∧ DatasetStatistics.PercentileHours stats !! 4%nat = Some (Q2Qc 6)
    ∧ length (DatasetStatistics.PercentileHours stats) = 5%nat.
Proof.
  destruct (calculateDatasetStatistics_summary sized_corpus) as [_ Hsummary].
  destruct Hsummary as (stats & Hrun & Havg & Hmed & Hpct & Hlen & _ & _); [done |].
  exists stats. split_and!.
  - exact Hrun.
  - rewrite Havg. apply Qc_is_canon. by vm_compute.
  - rewrite Hmed. apply Qc_is_canon. by vm_compute.
  - rewrite (Hpct 0%nat (dec 10 100) eq_refl).
    apply (f_equal Some), Qc_is_canon. by vm_compute.
  - rewrite (Hpct 2%nat (dec 50 100) eq_refl).
    apply (f_equal Some), Qc_is_canon. by vm_compute.
  - rewrite (Hpct 4%nat (dec 90 100) eq_refl).
    apply (f_equal Some), Qc_is_canon. by vm_compute.
  - by apply Hlen.
Defined.

(** ** C3: the validation of the provider's response *)

Lemma validateEstimationResponse_rejects resp :
  is_Some (validateEstimationResponse resp) ↔ structurally_invalid resp.
Proof.
  unfold validateEstimationResponse, structurally_invalid. cbn zeta.
  case_bool_decide as H1; [split; [intros _; by left | eauto] |].
  case_bool_decide as H2; [split; [intros _; right; by left | eauto] |].
  case_bool_decide as H3.
  { split; [intros _ | eauto].
    destruct H3; [right; right; by left | right; right; right; by left]. }
  case_bool_decide as H4.
  { split; [intros _ | eauto]. do 4 right. left.
    destruct H4 as [Hne Hnot]. split; [done |].
    intros Hin. apply Hnot. by apply elem_of_list_to_set. }
  case_bool_decide as H5; [split; [intros _; by do 5 right | eauto] |].
  split; [by intros [? [=]] |].
  intros [? | [? | [? | [? | [[Hne Hnot] | ?]]]]]; try done.
  - destruct H3. by left.
  - destruct H3. by right.
  - destruct H4. split; [done |]. intros Hin. apply Hnot.
    by apply elem_of_list_to_set in Hin.
Qed.

(** C3, as the code has it.  Parsing a provider response fails exactly
    when the text extracted from it does not decode or the decoded payload
    has negative hours, negative story points, a confidence outside [0,1],
    a size code that is neither empty nor one of XS, S, M, L, XL, or no
    reasoning.  Zero hours and an absent size code are accepted.  A payload
    with [estimated_hours = -1] is rejected, and a payload that is accepted
    is returned as decoded: no field is clamped. *)
Theorem ParseEstimationJSON_fails_iff `{GoRuntime} `{GoJSON} (jsonStr : gostring) :
  ((∃ err, ParseEstimationJSON jsonStr = Err err)
   ↔ (∃ err, json_Unmarshal (extractJSONFromMarkdown jsonStr) = Err err)
     ∨ (∃ resp, json_Unmarshal (extractJSONFromMarkdown jsonStr) = Ok resp
                ∧ structurally_invalid resp))
  ∧ (∀ resp, json_Unmarshal (extractJSONFromMarkdown jsonStr) = Ok resp →
             EstimationResponse.EstimatedHours resp = - 1 →
             ∃ err, ParseEstimationJSON jsonStr = Err err)
  ∧ (∀ resp, ParseEstimationJSON jsonStr = Ok resp →
             json_Unmarshal (extractJSONFromMarkdown jsonStr) = Ok resp).
Proof.
  unfold ParseEstimationJSON. cbn zeta.
  destruct (json_Unmarshal (extractJSONFromMarkdown jsonStr)) as [resp | err] eqn:Hdec.
  - pose proof (validateEstimationResponse_rejects resp) as Hrej.
    destruct (validateEstimationResponse resp) as [verr|] eqn:Hval.
    + repeat split; try (by eauto); try done.
      intros _. right. exists resp. split; [done |]. apply Hrej. eauto.
    + repeat split; try done.
      * by intros [? ?].
      * intros [[? [=]] | (resp' & [= <-] & Hinv)]. apply Hrej in Hinv. by destruct Hinv.
      * intros resp' [= <-] Hhours. exfalso.
        assert (structurally_invalid resp) as Hinv
          by (left; rewrite Hhours; by apply (bool_decide_unpack _)).
        apply Hrej in Hinv. by destruct Hinv.
  - repeat split; try (by eauto); try done.
Qed.

(** C3 as stated fails: a payload with zero hours is non-positive, and it
    passes the validation. *)
Lemma ParseEstimationJSON_fails_iff_counterexample :
  invalid_as_claimed (example_response 0 "M" (dec 5 10))
  ∧ validateEstimationResponse (example_response 0 "M" (dec 5 10)) = None
  ∧ @ParseEstimationJSON latin1 (fixed_decoder (example_response 0 "M" (dec 5 10))) (go "{}")
    = Ok (example_response 0 "M" (dec 5 10)).
Proof.
  split; [| split; by vm_compute].
  right. right. right. left. simpl. done.
Qed.

Lemma ParseEstimationJSON_fails_iff_witness :
  ∃ err, @ParseEstimationJSON latin1 (fixed_decoder (example_response (- 1) "M" (dec 5 10)))
           (go "{}") = Err err.
Proof.
  destruct (@ParseEstimationJSON_fails_iff latin1
              (fixed_decoder (example_response (- 1) "M" (dec 5 10))) (go "{}"))
    as (_ & Hminus & _).
  apply (Hminus (example_response (- 1) "M" (dec 5 10))); reflexivity.
Defined.

(** ** C7: the median of the batch report *)

Lemma calculateMedian_mean values : calculateMedian values = mean values.
Proof.
  unfold calculateMedian, mean. case_bool_decide as Hlen.
  - destruct values; [by apply Qc_is_canon | unfold len in Hlen; simpl in Hlen; lia].
  - by rewrite foldl_Qcplus, Qcplus_0_l.
Qed.

(** What the loop of [calculateStatistics] leaves in [hours] and in
    [TotalEstimatedHours]; it does not touch the four fields set after it. *)
Lemma batch_stats_fold_hours results st :
  let st' := foldl batch_stats_step st results in
  batchLoop.hours st' = batchLoop.hours st ++ successful_hours results
  ∧ BatchStatistics.TotalEstimatedHours (batchLoop.stats st')
    = BatchStatistics.TotalEstimatedHours (batchLoop.stats st)
      + foldr Qcplus 0 (successful_hours results)
  ∧ BatchStatistics.AverageHours (batchLoop.stats st')
    = BatchStatistics.AverageHours (batchLoop.stats st)
  ∧ BatchStatistics.MedianHours (batchLoop.stats st')
    = BatchStatistics.MedianHours (batchLoop.stats st)
  ∧ BatchStatistics.MinHours (batchLoop.stats st')
    = BatchStatistics.MinHours (batchLoop.stats st)
  ∧ BatchStatistics.MaxHours (batchLoop.stats st')
    = BatchStatistics.MaxHours (batchLoop.stats st).
Proof.
  unfold successful_hours. revert st.
  induction results as [|r results IH]; intros st; cbn zeta.
  - simpl. by rewrite app_nil_r, Qcplus_0_r.
  - cbn [foldl omap list_omap].
    destruct (IH (batch_stats_step st r)) as (-> & -> & -> & -> & -> & ->).
    unfold batch_stats_step. destruct (counted_estimate r) as [est|]; [| done].
    cbn [batchLoop.hours batchLoop.stats BatchStatistics.TotalEstimatedHours
         BatchStatistics.AverageHours BatchStatistics.MedianHours
         BatchStatistics.MinHours BatchStatistics.MaxHours fmap list_fmap foldr].
    by rewrite <- app_assoc, Qcplus_assoc.
Qed.

(** C7 fails on the code.  For every batch, total, average, minimum and
    maximum are taken over the hours of the successful tasks, and so is
    [MedianHours]; but [MedianHours] is their mean, not their median: for
    three successful tasks of 1, 5 and 10 hours it is 16/3, and their
    median is 5. *)
Theorem calculateStatistics_median_is_mean (results : list BatchResult.t) :
  (let stats := calculateStatistics results in
   let hours := successful_hours results in
   BatchStatistics.TotalEstimatedHours stats = foldr Qcplus 0 hours
   ∧ BatchStatistics.AverageHours stats = (if decide (hours = []) then 0 else mean hours)
   ∧ BatchStatistics.MedianHours stats = (if decide (hours = []) then 0 else mean hours)
   ∧ BatchStatistics.MinHours stats = findMin hours
   ∧ BatchStatistics.MaxHours stats = findMax hours)
  ∧ (let stats := calculateStatistics skewed_results in
     successful_hours skewed_results = [1; Qc_of_Z 5; Qc_of_Z 10]
     ∧ BatchStatistics.MedianHours stats = Q2Qc (16 # 3)
     ∧ brute_force_median [1; Qc_of_Z 5; Qc_of_Z 10] = Qc_of_Z 5
     ∧ BatchStatistics.TotalEstimatedHours stats = Qc_of_Z 16
     ∧ BatchStatistics.AverageHours stats = Q2Qc (16 # 3)
     ∧ BatchStatistics.MinHours stats = 1
     ∧ BatchStatistics.MaxHours stats = Qc_of_Z 10).
Proof.
  split.
  - cbn zeta. unfold calculateStatistics. cbn zeta.
    destruct (batch_stats_fold_hours results batch_stats_init)
      as (Hhours & Htotal & Havg & Hmed & Hmin & Hmax).
    cbn [batch_stats_init batchLoop.hours batchLoop.stats
         BatchStatistics.TotalEstimatedHours BatchStatistics.AverageHours
         BatchStatistics.MedianHours BatchStatistics.MinHours BatchStatistics.MaxHours
         app] in Hhours, Htotal, Havg, Hmed, Hmin, Hmax.
    rewrite Qcplus_0_l in Htotal. rewrite Hhours, Htotal, Havg, Hmed, Hmin, Hmax.
    cbn [BatchStatistics.TotalEstimatedHours BatchStatistics.AverageHours
         BatchStatistics.MedianHours BatchStatistics.MinHours BatchStatistics.MaxHours].
    destruct (successful_hours results) as [|h hours] eqn:Heq.
    + by rewrite decide_True by done.
    + rewrite bool_decide_eq_true_2 by (unfold len; simpl; lia).
      rewrite decide_False by done. by rewrite calculateMedian_mean.
  - repeat split; apply Qc_is_canon || idtac; by vm_compute.
Qed.

(** ** C5: the dataset enhancer *)

Lemma match_addresses_app l1 l2 :
  match_addresses (l1 ++ l2) = match_addresses l1 ++ match_addresses l2.
Proof. unfold match_addresses. by rewrite fmap_app. Qed.

Lemma selected_of_app l1 l2 : selected_of (l1 ++ l2) = selected_of l1 ∪ selected_of l2.
Proof. unfold selected_of. rewrite match_addresses_app. apply list_to_set_app_L. Qed.

Lemma elem_of_selected_of a matches : a ∈ selected_of matches ↔ a ∈ match_addresses matches.
Proof. unfold selected_of. apply elem_of_list_to_set. Qed.

Lemma map_append_lookup_eq {A} (k : gostring) (x : A) (m : gmap gostring (list A)) :
  map_append k x m !! k = Some (default [] (m !! k) ++ [x]).
Proof. unfold map_append. by rewrite lookup_insert_eq. Qed.

Lemma map_append_lookup_ne {A} (k k' : gostring) (x : A) (m : gmap gostring (list A)) :
  k ≠ k' → map_append k x m !! k' = m !! k'.
Proof. intros Hne. unfold map_append. by rewrite lookup_insert_ne. Qed.

Section enhancer_steps.
Variable config : EstimationConfig.t.

(** Step 1 appends the first [MaxSimilarTasks - len(enhanced)] similar tasks. *)
Lemma add_similar_spec similarTasks enhanced selectedMap :
  add_similar config similarTasks enhanced selectedMap
  = let added := take (Z.to_nat (EstimationConfig.MaxSimilarTasks config - len enhanced))
                      similarTasks in
    (enhanced ++ added, selected_of added ∪ selectedMap).
Proof.
  revert enhanced selectedMap.
  induction similarTasks as [|m similarTasks IH]; intros enhanced selectedMap; cbn zeta.
  - rewrite take_nil, app_nil_r. unfold selected_of. simpl. by rewrite (left_id_L ∅ (∪)).
  - simpl. case_bool_decide as Hmax.
    + replace (Z.to_nat _) with 0%nat by lia. simpl.
      rewrite app_nil_r. unfold selected_of. simpl. by rewrite (left_id_L ∅ (∪)).
    + rewrite IH. cbn zeta.
      replace (Z.to_nat (EstimationConfig.MaxSimilarTasks config - len enhanced))
        with (S (Z.to_nat (EstimationConfig.MaxSimilarTasks config - len (enhanced ++ [m]))))
        by (unfold len in *; rewrite length_app; simpl; lia).
      simpl. rewrite <- app_assoc. simpl. f_equal.
      unfold selected_of, match_addresses. simpl.
      by rewrite (assoc_L (∪)), (comm_L (∪) _ {[ _ ]}).
Qed.

(** The buckets of step 2. *)
Lemma size_buckets_lookup corpus selectedMap size :
  size ≠ [] →
  default [] (size_buckets corpus selectedMap !! size) = size_bucket selectedMap corpus size.
Proof.
  intros Hsize. unfold size_buckets, size_bucket.
  induction corpus as [|hist corpus IH] using rev_ind; [done |].
  rewrite foldl_app, filter_app. cbn [foldl].
  case_bool_decide as Hsel.
  - rewrite filter_cons_False by (intros [? _]; done).
    rewrite filter_nil, app_nil_r. exact IH.
  - case_bool_decide as Hempty.
    + destruct (decide (HistoricalTask.EstimatedSize (deref hist) = size)) as [Heq | Hne].
      * rewrite filter_cons_True, filter_nil by done.
        rewrite Heq, map_append_lookup_eq. cbn [default from_option id].
        f_equal. exact IH.
      * rewrite filter_cons_False by (intros [_ ?]; done).
        rewrite filter_nil, app_nil_r, map_append_lookup_ne by done. exact IH.
    + rewrite filter_cons_False; [rewrite filter_nil, app_nil_r; exact IH |].
      intros [_ Heq]. apply Hsize. congruence.
Qed.

(** Step 2 on one bucket appends the entries of the bucket up to the
    number needed and up to the minimum. *)
Lemma sample_bucket_spec samplesNeeded i from_i enhanced selectedMap :
  sample_bucket config samplesNeeded i from_i enhanced selectedMap
  = let picked :=
      take (Z.to_nat (Z.min (samplesNeeded - i)
                            (EstimationConfig.MinSimilarTasks config - len enhanced)))
           from_i in
    (enhanced ++ (stratified_match <$> picked),
     selected_of (stratified_match <$> picked) ∪ selectedMap).
Proof.
  revert i enhanced selectedMap.
  induction from_i as [|hist from_i IH]; intros i enhanced selectedMap; cbn zeta.
  - rewrite take_nil. simpl. rewrite app_nil_r.
    unfold selected_of. simpl. rewrite (left_id_L ∅ (∪)). by case_bool_decide.
  - simpl. case_bool_decide as Hgo.
    + rewrite IH. cbn zeta.
      replace (Z.to_nat (Z.min (samplesNeeded - i)
                               (EstimationConfig.MinSimilarTasks config - len enhanced)))
        with (S (Z.to_nat (Z.min (samplesNeeded - (i + 1))
                                 (EstimationConfig.MinSimilarTasks config
                                  - len (enhanced ++ [SimilarityMatch.mk hist 0
                                                        [go "stratified_sample"]])))))
        by (unfold len in *; rewrite length_app; simpl; lia).
      simpl. rewrite <- app_assoc. simpl. f_equal.
      unfold selected_of, match_addresses. simpl.
      by rewrite (assoc_L (∪)), (comm_L (∪) _ {[ _ ]}).
    + replace (Z.to_nat _) with 0%nat by lia. simpl.
      rewrite app_nil_r. unfold selected_of. simpl. by rewrite (left_id_L ∅ (∪)).
Qed.
End enhancer_steps.

Section enhancer_loops.
Variable config : EstimationConfig.t.

(** The supply of a list of size categories when the buckets are given. *)
Let supply_of (sizeBuckets : gmap gostring (list (ptr HistoricalTask.t)))
    (remaining : list gostring) : Z :=
  foldr (λ size acc,
           Z.min (Z.max 0 (EstimationConfig.StratifiedSamplesPerSize config))
                 (len (default [] (sizeBuckets !! size))) + acc)%Z
        0%Z remaining.

Lemma supply_of_nonneg sizeBuckets remaining : (0 ≤ supply_of sizeBuckets remaining)%Z.
Proof.
  induction remaining as [|size remaining IH]; simpl; [done |]. unfold len. lia.
Qed.

(** Step 2 appends entries of the buckets, in the order of the size
    categories, as many as the buckets supply and the minimum admits. *)
Lemma stratified_loop_spec sizeBuckets remaining enhanced selectedMap :
  ∃ picked,
    stratified_loop config sizeBuckets remaining enhanced selectedMap
    = (enhanced ++ (stratified_match <$> picked),
       selected_of (stratified_match <$> picked) ∪ selectedMap)
    ∧ picked `sublist_of` concat ((λ size, default [] (sizeBuckets !! size)) <$> remaining)
    ∧ len picked
      = Z.max 0 (Z.min (EstimationConfig.MinSimilarTasks config - len enhanced)
                       (supply_of sizeBuckets remaining)).
Proof.
  revert enhanced selectedMap.
  induction remaining as [|size remaining IH]; intros enhanced selectedMap.
  - exists []. simpl. rewrite app_nil_r. unfold selected_of. simpl.
    rewrite (left_id_L ∅ (∪)). split; [done |]. split; [done |]. unfold len. simpl. lia.
  - cbn [stratified_loop]. case_bool_decide as Hmin.
    + exists []. simpl. rewrite app_nil_r. unfold selected_of. simpl.
      rewrite (left_id_L ∅ (∪)). split; [done |]. split; [apply sublist_nil_l |].
      pose proof (supply_of_nonneg sizeBuckets remaining). unfold len in *. simpl. lia.
    + cbn zeta. rewrite sample_bucket_spec. cbn zeta.
      set (bucket := default [] (sizeBuckets !! size)).
      set (needed := if bool_decide (len bucket < EstimationConfig.StratifiedSamplesPerSize config)%Z
                     then len bucket else EstimationConfig.StratifiedSamplesPerSize config).
      set (first := take (Z.to_nat (Z.min (needed - 0)
                     (EstimationConfig.MinSimilarTasks config - len enhanced))) bucket).
      destruct (IH (enhanced ++ (stratified_match <$> first))
                   (selected_of (stratified_match <$> first) ∪ selectedMap))
        as (rest & -> & Hsub & Hlen).
      exists (first ++ rest). split; [| split].
      * rewrite fmap_app, selected_of_app, <- app_assoc.
        f_equal. by rewrite (assoc_L (∪)), (comm_L (∪) (selected_of (_ <$> rest))).
      * simpl. apply sublist_app; [apply sublist_take | done].
      * pose proof (supply_of_nonneg sizeBuckets remaining) as Hsup.
        assert (len first = Z.max 0 (Z.min needed
                  (EstimationConfig.MinSimilarTasks config - len enhanced))) as Hfirst.
        { unfold first, len. rewrite length_take.
          unfold needed, len. case_bool_decide; lia. }
        unfold len in *. rewrite length_app in *. rewrite length_fmap in Hlen.
        simpl. fold bucket. unfold needed in Hfirst. unfold len in Hfirst.
        case_bool_decide; lia.
Qed.

(** Step 3 appends entries of [tasksWithHours] that were not selected,
    each once, and stops at the minimum. *)
Lemma percentile_loop_spec tasksWithHours remaining enhanced selectedMap :
  ∃ added,
    percentile_loop config tasksWithHours remaining enhanced selectedMap
    = (enhanced ++ added, selected_of added ∪ selectedMap)
    ∧ NoDup (match_addresses added)
    ∧ (∀ a, a ∈ match_addresses added → a ∉ selectedMap)
    ∧ Forall (λ m, SimilarityMatch.Task m ∈ tasksWithHours) added
    ∧ (len (enhanced ++ added)
       ≤ Z.max (len enhanced) (EstimationConfig.MinSimilarTasks config))%Z.
Proof.
  revert enhanced selectedMap.
  induction remaining as [|p remaining IH]; intros enhanced selectedMap.
  - exists []. simpl. rewrite app_nil_r. unfold selected_of. simpl.
    rewrite (left_id_L ∅ (∪)). repeat split; try done;
      [constructor | set_solver | rewrite ?app_nil_r; unfold len; lia].
  - cbn [percentile_loop]. case_bool_decide as Hmin.
    { exists []. simpl. rewrite app_nil_r. unfold selected_of. simpl.
      rewrite (left_id_L ∅ (∪)). repeat split; try done;
      [constructor | set_solver | rewrite ?app_nil_r; unfold len; lia]. }
    cbn zeta.
    destruct (tasksWithHours !! Z.to_nat (percentile_index (len tasksWithHours) p))
      as [hist|] eqn:Hidx; [| apply IH].
    case_bool_decide as Hsel; [apply IH |].
    set (new := SimilarityMatch.mk hist 0 [percentile_tag p]).
    destruct (IH (enhanced ++ [new]) ({[addr hist]} ∪ selectedMap))
      as (added & -> & Hnodup & Hfresh & Hin & Hlen).
    exists (new :: added). split; [| split; [| split; [| split]]].
    + rewrite <- app_assoc. simpl. f_equal.
      unfold selected_of, match_addresses. simpl.
      by rewrite (assoc_L (∪)), (comm_L (∪) (list_to_set _) {[ _ ]}).
    + unfold match_addresses in *. simpl. constructor; [| done].
      intros Hdup. apply (Hfresh _ Hdup). set_solver.
    + unfold match_addresses in *. simpl. intros a [-> | Ha]%elem_of_cons; [done |].
      specialize (Hfresh a Ha). set_solver.
    + constructor; [| done]. simpl. by eapply list_elem_of_lookup_2.
    + rewrite <- app_assoc in Hlen. simpl in Hlen.
      unfold len in *. rewrite !length_app in Hlen. rewrite length_app.
      simpl in *. lia.
Qed.
End enhancer_loops.

Lemma NoDup_fmap_elem_inj {A B} (f : A → B) (l : list A) x y :
  NoDup (f <$> l) → x ∈ l → y ∈ l → f x = f y → x = y.
Proof.
  induction l as [|a l IH]; [by intros _ ?%elem_of_nil |].
  rewrite fmap_cons, NoDup_cons. intros [Ha Hl] Hx Hy Hf.
  apply elem_of_cons in Hx as [-> | Hx]; apply elem_of_cons in Hy as [-> | Hy]; try done.
  - destruct Ha. rewrite Hf. by apply list_elem_of_fmap_2.
  - destruct Ha. rewrite <- Hf. by apply list_elem_of_fmap_2.
  - by apply IH.
Qed.

Lemma sizes_NoDup : NoDup sizes.
Proof. by apply (bool_decide_unpack _). Qed.

Lemma sizes_nonempty : Forall (λ size, size ≠ []) sizes.
Proof. by apply (bool_decide_unpack _). Qed.

Lemma size_buckets_concat_elem selected corpus keys h :
  h ∈ concat (size_bucket selected corpus <$> keys) →
  h ∈ corpus ∧ (addr h ∉ selected) ∧ HistoricalTask.EstimatedSize (deref h) ∈ keys.
Proof.
  induction keys as [|k keys IH]; simpl; [by intros ?%elem_of_nil |].
  rewrite elem_of_app. intros [Hk | Hrest].
  - unfold size_bucket in Hk. apply list_elem_of_filter in Hk as [[Hsel Hsize] Hin].
    repeat split; [done | done |]. rewrite Hsize. by left.
  - destruct (IH Hrest) as (? & ? & ?). repeat split; [done | done |]. by right.
Qed.

Lemma size_buckets_concat_NoDup selected corpus keys :
  NoDup keys → NoDup (addr <$> corpus) →
  NoDup (addr <$> concat (size_bucket selected corpus <$> keys)).
Proof.
  intros Hkeys Hcorpus. induction Hkeys as [|k keys Hk Hkeys IH]; simpl; [constructor |].
  rewrite fmap_app. apply NoDup_app. split; [| split; [| done]].
  - eapply sublist_NoDup; [exact Hcorpus |].
    apply fmap_sublist. unfold size_bucket. apply sublist_filter.
  - intros a Ha Ha'.
    apply list_elem_of_fmap in Ha as (h & -> & Hh).
    apply list_elem_of_fmap in Ha' as (h' & Heq & Hh').
    unfold size_bucket in Hh. apply list_elem_of_filter in Hh as [[_ Hsize] Hin].
    apply size_buckets_concat_elem in Hh' as (Hin' & _ & Hsize').
    assert (h = h') as <- by (by eapply (NoDup_fmap_elem_inj addr corpus)).
    rewrite Hsize in Hsize'. done.
Qed.

Lemma size_buckets_fmap corpus selected keys :
  Forall (λ size, size ≠ []) keys →
  (λ size, default [] (size_buckets corpus selected !! size)) <$> keys
  = size_bucket selected corpus <$> keys.
Proof.
  induction 1 as [|k keys Hk _ IH]; [done |].
  rewrite !fmap_cons, IH. f_equal. by apply size_buckets_lookup.
Qed.

Lemma stratified_supply_buckets config corpus selected keys :
  Forall (λ size, size ≠ []) keys →
  foldr (λ size acc,
           Z.min (Z.max 0 (EstimationConfig.StratifiedSamplesPerSize config))
                 (len (default [] (size_buckets corpus selected !! size))) + acc)%Z 0%Z keys
  = foldr (λ size acc,
             Z.min (Z.max 0 (EstimationConfig.StratifiedSamplesPerSize config))
                   (len (size_bucket selected corpus size)) + acc)%Z 0%Z keys.
Proof.
  induction 1 as [|k keys Hk _ IH]; [done |].
  simpl. rewrite IH. by rewrite size_buckets_lookup.
Qed.


Section enhancer_correct.
Variable config : EstimationConfig.t.

(** The enhancer on a list of similar tasks that are distinct entries of a
    corpus of distinct entries and no more than [MaxSimilarTasks]. *)
Lemma selectEnhancedDataset_spec similarTasks corpus :
  NoDup (addr <$> corpus) →
  NoDup (match_addresses similarTasks) →
  Forall (λ m, SimilarityMatch.Task m ∈ corpus) similarTasks →
  (len similarTasks ≤ EstimationConfig.MaxSimilarTasks config)%Z ∨ similarTasks = [] →
  let enhanced := selectEnhancedDataset config similarTasks corpus in
  NoDup (match_addresses enhanced)
  ∧ Forall (λ m, SimilarityMatch.Task m ∈ corpus) enhanced
  ∧ similarTasks `prefix_of` enhanced
  ∧ (len enhanced ≤ Z.max (len similarTasks) (EstimationConfig.MinSimilarTasks config))%Z.
Proof.
  intros Hcorpus Hsimilar Hin Hmax. cbn zeta.
  assert (∀ out,
    NoDup (match_addresses out) →
    Forall (λ m, SimilarityMatch.Task m ∈ corpus) out →
    similarTasks `prefix_of` out →
    (len out ≤ Z.max (len similarTasks) (EstimationConfig.MinSimilarTasks config))%Z →
    NoDup (match_addresses out)
    ∧ Forall (λ m, SimilarityMatch.Task m ∈ corpus) out
    ∧ similarTasks `prefix_of` out
    ∧ (len out ≤ Z.max (len similarTasks) (EstimationConfig.MinSimilarTasks config))%Z)
    as Hfinish.
  { intros out Hnd Hall Hpre Hle. repeat split; done. }
  unfold selectEnhancedDataset. rewrite add_similar_spec. cbn zeta.
  assert (take (Z.to_nat (EstimationConfig.MaxSimilarTasks config - len (@nil SimilarityMatch.t)))
               similarTasks = similarTasks) as ->.
  { destruct Hmax as [Hmax | ->]; [| by rewrite take_nil].
    apply take_ge. unfold len in *. simpl. lia. }
  rewrite app_nil_l, (right_id_L ∅ (∪)).
  case_bool_decide as Hmin1.
  2:{ (* the similar tasks reach the minimum *)
      rewrite bool_decide_eq_false_2 by done.
      apply Hfinish; try done. lia. }
  destruct (stratified_loop_spec config (size_buckets corpus (selected_of similarTasks))
              sizes similarTasks (selected_of similarTasks))
    as (picked & -> & Hsub & Hlen).
  rewrite size_buckets_fmap in Hsub by apply sizes_nonempty.
  rewrite stratified_supply_buckets in Hlen by apply sizes_nonempty.
  fold (stratified_supply config (selected_of similarTasks) corpus) in Hlen.
  set (enhanced2 := similarTasks ++ (stratified_match <$> picked)).
  assert (match_addresses (stratified_match <$> picked) = addr <$> picked) as Hpicked.
  { unfold match_addresses. rewrite <- list_fmap_compose. done. }
  assert (NoDup (match_addresses enhanced2)) as Hnd2.
  { unfold enhanced2. rewrite match_addresses_app, Hpicked. apply NoDup_app.
    split; [done |]. split.
    - intros a Ha Ha'. apply list_elem_of_fmap in Ha' as (h & -> & Hh).
      apply (sublist_subseteq _ _ Hsub) in Hh.
      apply size_buckets_concat_elem in Hh as (_ & Hfresh & _).
      apply Hfresh. by apply elem_of_selected_of.
    - eapply sublist_NoDup;
        [apply (size_buckets_concat_NoDup (selected_of similarTasks) corpus sizes);
         [apply sizes_NoDup | done] |].
      by apply fmap_sublist. }
  assert (Forall (λ m, SimilarityMatch.Task m ∈ corpus) enhanced2) as Hin2.
  { unfold enhanced2. apply Forall_app. split; [done |].
    apply Forall_fmap, Forall_forall. intros h Hh. simpl.
    apply (sublist_subseteq _ _ Hsub) in Hh.
    by apply size_buckets_concat_elem in Hh as (? & _ & _). }
  assert (len enhanced2 = len similarTasks + len picked)%Z as Hlen2
    by (unfold enhanced2, len; rewrite length_app, length_fmap; lia).
  assert (selected_of (stratified_match <$> picked) ∪ selected_of similarTasks
          = selected_of enhanced2) as ->
    by (unfold enhanced2; rewrite selected_of_app; apply (comm_L (∪))).
  case_bool_decide as Hmin2.
  2:{ apply Hfinish; try done; [by apply prefix_app_r | lia]. }
  set (tasksWithHours := sort_tasks_by_hours _).
  case_bool_decide as Hhours.
  2:{ apply Hfinish; try done; [by apply prefix_app_r | lia]. }
  destruct (percentile_loop_spec config tasksWithHours percentiles enhanced2
              (selected_of enhanced2))
    as (added & -> & Hnd3 & Hfresh3 & Hin3 & Hlen3).
  apply Hfinish.
  - rewrite match_addresses_app. apply NoDup_app. split; [done |]. split; [| done].
    intros a Ha Ha'. apply (Hfresh3 a Ha'). by apply elem_of_selected_of.
  - apply Forall_app. split; [done |].
    eapply Forall_impl; [exact Hin3 |]. intros m Hm. simpl in Hm.
    unfold tasksWithHours, sort_tasks_by_hours in Hm.
    rewrite exchange_sort_Permutation in Hm.
    by apply list_elem_of_filter in Hm as [_ ?].
  - unfold enhanced2. rewrite <- app_assoc. by apply prefix_app_r.
  - lia.
Qed.
End enhancer_correct.

(** *** The length of the enhanced dataset *)

Section enhancer_length.
Variable config : EstimationConfig.t.

Local Abbreviation minimum := (EstimationConfig.MinSimilarTasks config).
Local Abbreviation per_size := (EstimationConfig.StratifiedSamplesPerSize config).






End enhancer_length.

Section enhancer_claim.
Context `{GoRuntime}.

Lemma score_tasks_Some_source task corpus scoredTasks maxSimilarity r :
  score_tasks task corpus scoredTasks maxSimilarity = Some r → Forall has_source corpus.
Proof.
  revert scoredTasks maxSimilarity.
  induction corpus as [|h corpus IH]; intros scoredTasks maxSimilarity; [constructor |].
  cbn [score_tasks]. cbn zeta.
  destruct (identifyMatches task h) as [ms|] eqn:Hms; [| done].
  intros Hrest. constructor; [| by eapply IH].
  unfold identifyMatches in Hms. unfold has_source.
  by destruct (HistoricalTask.Issue (deref h)).
Qed.

Lemma limit_matches_sublist matches maxMatches best :
  limit_matches matches maxMatches = Some best →
  best `sublist_of` matches ∧ (len best ≤ maxMatches)%Z.
Proof.
  unfold limit_matches, slice_to. case_bool_decide as Hlen.
  - case_bool_decide as Hrange; [| done]. intros [= <-].
    split; [apply sublist_take |]. unfold len in *. rewrite length_take. lia.
  - intros [= <-]. split; [done | lia].
Qed.

(** What the retriever returns are distinct entries of the corpus, at most
    [MaxSimilarTasks] of them. *)
Lemma retriever_output_wf task corpus config similarTasks context :
  NoDup (addr <$> corpus) →
  FindSimilarTasksAdaptive task corpus (Some config) = Some (similarTasks, context) →
  NoDup (match_addresses similarTasks)
  ∧ Forall (λ m, SimilarityMatch.Task m ∈ corpus) similarTasks
  ∧ ((len similarTasks ≤ EstimationConfig.MaxSimilarTasks config)%Z ∨ similarTasks = []).
Proof.
  intros Hcorpus Hrun.
  assert (Forall has_source corpus) as Hsrc.
  { unfold FindSimilarTasksAdaptive in Hrun.
    destruct (score_tasks task corpus [] 0) as [r|] eqn:Hscore; [| done].
    by eapply score_tasks_Some_source. }
  rewrite FindSimilarTasksAdaptive_spec in Hrun by done. cbn zeta in Hrun.
  destruct (list_find (stops_at task corpus (dec 15 100)) thresholds)
    as [[i threshold]|]; simpl in Hrun.
  - destruct (limit_matches _ _) as [best|] eqn:Hlimit; [| done].
    simpl in Hrun. injection Hrun as <- _.
    apply limit_matches_sublist in Hlimit as [Hsub Hlen].
    pose proof (match_list_tasks task corpus threshold) as Htasks.
    assert (NoDup (match_addresses (match_list task corpus threshold))) as Hnd.
    { unfold match_addresses.
      rewrite (list_fmap_compose SimilarityMatch.Task addr), Htasks.
      eapply sublist_NoDup; [exact Hcorpus |].
      apply fmap_sublist. unfold qualifying. apply sublist_filter. }
    split; [| split; [| by left]].
    + eapply sublist_NoDup; [exact Hnd |]. unfold match_addresses. by apply fmap_sublist.
    + apply Forall_forall. intros m Hm. apply (sublist_subseteq _ _ Hsub) in Hm.
      assert (SimilarityMatch.Task m ∈ SimilarityMatch.Task <$> match_list task corpus threshold)
        as Hin by (by apply list_elem_of_fmap_2).
      rewrite Htasks in Hin. unfold qualifying in Hin.
      by apply list_elem_of_filter in Hin as [_ ?].
  - injection Hrun as <- _. split; [constructor |]. split; [constructor | by right].
Qed.

End enhancer_claim.


(** ** C2: the batch engine *)

Lemma batch_stats_step_failed st r : failed r → batch_stats_step st r = st.
Proof.
  intros [err Herr]. unfold batch_stats_step, counted_estimate. by rewrite Herr.
Qed.

(** Failed results leave the loop of [calculateStatistics] where it was. *)
Lemma batch_stats_fold_succeeded results st :
  foldl batch_stats_step st results
  = foldl batch_stats_step st (filter succeeded results).
Proof.
  revert st. induction results as [|r results IH]; intros st; [done |].
  destruct (decide (succeeded r)) as [Hr | Hr].
  - rewrite filter_cons_True by done. simpl. apply IH.
  - rewrite filter_cons_False by done. simpl.
    rewrite batch_stats_step_failed; [apply IH |].
    unfold succeeded, failed in *. by destruct (BatchResult.Error r).
Qed.

Lemma calculateStatistics_succeeded results :
  calculateStatistics results = calculateStatistics (filter succeeded results).
Proof. unfold calculateStatistics. by rewrite batch_stats_fold_succeeded. Qed.

(** The counters of the gathering loop. *)
Lemma gather_counts results successful failures :
  foldl (λ '(successful, failed) result,
           match BatchResult.Error result with
           | Some _ => (successful, failed + 1)%Z
           | None => (successful + 1, failed)%Z
           end)
        (successful, failures) results
  = ((successful + len (filter succeeded results))%Z,
     (failures + len (filter failed results))%Z).
Proof.
  revert successful failures.
  induction results as [|r results IH]; intros successful failures.
  - unfold len. simpl. f_equal; lia.
  - simpl. unfold succeeded, failed in *.
    destruct (BatchResult.Error r) as [err|] eqn:Herr; rewrite IH.
    + rewrite filter_cons_False by (rewrite Herr; done).
      rewrite (filter_cons_True (λ r, is_Some _)) by (rewrite Herr; eauto).
      unfold len. simpl. f_equal; lia.
    + rewrite filter_cons_True by done.
      rewrite (filter_cons_False (λ r, is_Some _)) by (rewrite Herr; by intros [? ?]).
      unfold len. simpl. f_equal; lia.
Qed.

Lemma succeeded_failed_length (results : list BatchResult.t) :
  (len (filter succeeded results) + len (filter failed results) = len results)%Z.
Proof.
  unfold len. induction results as [|r results IH]; [done |].
  unfold succeeded, failed in *.
  destruct (BatchResult.Error r) as [err|] eqn:Herr.
  - rewrite filter_cons_False by (rewrite Herr; done).
    rewrite (filter_cons_True (λ r, is_Some _)) by (rewrite Herr; eauto). simpl. lia.
  - rewrite filter_cons_True by done.
    rewrite (filter_cons_False (λ r, is_Some _)) by (rewrite Herr; by intros [? ?]).
    simpl. lia.
Qed.

(** *** Updating one worker *)

Lemma held_task_insert (ws : list worker) i w w' :
  ws !! i = Some w →
  (<[i := w']> ws ≫= held_task) ++ held_task w ≡ₚ (ws ≫= held_task) ++ held_task w'.
Proof.
  revert i. induction ws as [|v ws IH]; intros [|i] Hi; simpl in Hi; simplify_eq.
  - change (<[0%nat := w']> (w :: ws)) with (w' :: ws).
    rewrite !bind_cons. solve_Permutation.
  - change (<[S i := w']> (v :: ws)) with (v :: <[i := w']> ws).
    rewrite !bind_cons, <- !app_assoc. f_equiv. by apply IH.
Qed.

Lemma sum_of_insert (f : worker → Z) (ws : list worker) i w w' :
  ws !! i = Some w →
  sum_of f (<[i := w']> ws) = (sum_of f ws - f w + f w')%Z.
Proof.
  revert i. induction ws as [|v ws IH]; intros [|i] Hi; simplify_eq/=; [lia |].
  rewrite (IH i) by done. lia.
Qed.

Lemma sum_of_lookup_le (f : worker → Z) (ws : list worker) i w :
  (∀ v, 0 ≤ f v)%Z → ws !! i = Some w → (f w ≤ sum_of f ws)%Z.
Proof.
  intros Hf. revert i. induction ws as [|v ws IH]; intros [|i] Hi; simplify_eq/=.
  - assert (0 ≤ sum_of f ws)%Z; [| lia].
    clear IH. induction ws as [|u ws IH]; simpl; [done |]. specialize (Hf u). lia.
  - specialize (IH i Hi). specialize (Hf v). lia.
Qed.

Lemma sum_of_upper (f : worker → Z) (ws : list worker) (b : Z) :
  (∀ v, f v ≤ b)%Z → (sum_of f ws ≤ b * len ws)%Z.
Proof.
  intros Hf. unfold len. induction ws as [|v ws IH]; simpl; [lia |].
  specialize (Hf v). lia.
Qed.

Lemma elem_of_insert_inv (ws : list worker) i w' v :
  v ∈ <[i := w']> ws → v = w' ∨ v ∈ ws.
Proof.
  revert i. induction ws as [|u ws IH]; intros i Hv; [by right |].
  destruct i as [|i]; simpl in Hv.
  - apply elem_of_cons in Hv as [-> | Hv]; [by left | right; by right].
  - apply elem_of_cons in Hv as [-> | Hv]; [right; by left |].
    destruct (IH i Hv) as [-> | ?]; [by left | right; by right].
Qed.

Lemma Returned_insert_inv (ws : list worker) i w' :
  w' ≠ Returned → Returned ∈ <[i := w']> ws → Returned ∈ ws.
Proof. intros Hw' Hin. by destruct (elem_of_insert_inv _ _ _ _ Hin). Qed.

Lemma held_task_all_returned (ws : list worker) :
  Forall (λ w, w = Returned) ws → ws ≫= held_task = [].
Proof. induction 1 as [|w ws -> _ IH]; [done |]. by rewrite bind_cons, IH. Qed.

Section pool_correct.
Context `{GoRuntime}.
Variable bp : BatchProcessor.t.

Lemma process_task_Task batchTask result :
  process_task bp batchTask = Some result → BatchResult.Task result = batchTask.
Proof.
  unfold process_task. destruct (Estimate _ _) as [[r | err]|]; simpl; by intros [= <-].
Qed.

(** A result holds an estimate or an error, never both and never neither. *)
Lemma process_task_outcome batchTask result :
  process_task bp batchTask = Some result →
  (succeeded result ∧ is_Some (BatchResult.Result result))
  ∨ (failed result ∧ BatchResult.Result result = None).
Proof.
  unfold process_task, succeeded, failed.
  destruct (Estimate _ _) as [[r | err]|]; simpl; intros [= <-]; simpl; eauto.
Qed.

(** Every step keeps the invariant. *)
Lemma pool_step_invariant tasks capacity s s' :
  pool_invariant bp tasks s → pool_step bp capacity s s' → pool_invariant bp tasks s'.
Proof.
  intros (Hperm & Hres & Hclosed & Hret & Htok & Hlen) Hstep.
  unfold pool_invariant.
  destruct Hstep as
    [ t unsent taskCh ws tokens results Hcap
    | taskCh ws tokens results
    | i t unsent taskCh closed ws tokens results Hi
    | i unsent ws tokens results Hi
    | i t unsent taskCh closed ws tokens results Hi Hfree
    | i t r unsent taskCh closed ws tokens results Hi Hrun Hcap
    | i unsent taskCh closed ws tokens results Hi Hheld ];
    cbn [pool.unsent pool.taskCh pool.closed pool.workers pool.tokens pool.resultCh] in *.
  - (* send *)
    split_and!; try done.
    + rewrite <- Hperm. solve_Permutation.
    + intros Hin. by destruct (Hret Hin).
  - (* close *)
    split_and!; try done. intros Hin. by destruct (Hret Hin).
  - (* receive *)
    pose proof (held_task_insert ws i Receiving (Acquiring t) Hi) as Hh.
    cbn [held_task] in Hh. rewrite app_nil_r in Hh.
    split_and!; try done.
    + rewrite <- Hperm, Hh. solve_Permutation.
    + intros Hin. apply Returned_insert_inv in Hin; [| done]. by destruct (Hret Hin).
    + rewrite (sum_of_insert _ _ _ _ _ Hi). cbn [held_token]. lia.
    + unfold len in *. by rewrite length_insert.
  - (* return *)
    pose proof (held_task_insert ws i Receiving Returned Hi) as Hh.
    cbn [held_task] in Hh. rewrite !app_nil_r in Hh.
    split_and!; try done.
    + by rewrite Hh.
    + rewrite (sum_of_insert _ _ _ _ _ Hi). cbn [held_token]. lia.
    + unfold len in *. by rewrite length_insert.
  - (* acquire *)
    pose proof (held_task_insert ws i (Acquiring t) (Estimating t) Hi) as Hh.
    cbn [held_task] in Hh. apply Permutation_app_inv_r in Hh.
    split_and!; try done.
    + by rewrite Hh.
    + intros Hin. apply Returned_insert_inv in Hin; [| done]. by destruct (Hret Hin).
    + rewrite (sum_of_insert _ _ _ _ _ Hi). cbn [held_token]. lia.
    + unfold len in *. by rewrite length_insert.
  - (* estimate *)
    pose proof (held_task_insert ws i (Estimating t) Releasing Hi) as Hh.
    cbn [held_task] in Hh. rewrite app_nil_r in Hh.
    pose proof (process_task_Task _ _ Hrun) as Htask.
    split_and!; try done.
    + rewrite <- Hperm, <- Hh, fmap_app. cbn [fmap list_fmap]. rewrite Htask.
      solve_Permutation.
    + apply Forall_app. split; [done |]. constructor; [| done]. by rewrite Htask.
    + intros Hin. apply Returned_insert_inv in Hin; [| done]. by destruct (Hret Hin).
    + rewrite (sum_of_insert _ _ _ _ _ Hi). cbn [held_token]. lia.
    + unfold len in *. by rewrite length_insert.
  - (* release *)
    pose proof (held_task_insert ws i Releasing Receiving Hi) as Hh.
    cbn [held_task] in Hh. rewrite !app_nil_r in Hh.
    split_and!; try done.
    + by rewrite Hh.
    + intros Hin. apply Returned_insert_inv in Hin; [| done]. by destruct (Hret Hin).
    + rewrite (sum_of_insert _ _ _ _ _ Hi). cbn [held_token]. lia.
    + unfold len in *. by rewrite length_insert.
Qed.
End pool_correct.


(** *** [Estimate] returns *)

Lemma load_issues_source `{GoRuntime} next issues :
  Forall has_source (load_issues next issues).
Proof.
  revert next. induction issues as [|issue issues IH]; intros next; simpl; [done |].
  destruct (bool_decide (Issue.State issue ≠ go "closed")); [apply IH |].
  destruct (bool_decide (_ ∨ _)); [| apply IH].
  constructor; [| apply IH]. unfold has_source. simpl. eauto.
Qed.

(** With a [MaxSimilarTasks] that is not negative no slice expression of
    the retriever is out of range, and the entries that
    [loadHistoricalTasks] builds all hold their issue. *)
Lemma Estimate_returns `{GoRuntime} e task :
  (0 ≤ EstimationConfig.MaxSimilarTasks (Estimator.config e))%Z →
  is_Some (Estimate e task).
Proof.
  intros Hmax. unfold Estimate.
  set (historical := match loadHistoricalTasks e with Ok h => h | Err _ => [] end).
  assert (Forall has_source historical) as Hsrc.
  { unfold historical, loadHistoricalTasks.
    destruct (Estimator.storage e) as [store|]; [| done].
    destruct (Store.GetAllIssues store); [apply load_issues_source | done]. }
  rewrite FindSimilarTasksAdaptive_spec by done. cbn zeta.
  cbn [default].
  destruct (list_find _ thresholds) as [[i threshold]|]; cbn [mbind option_bind].
  - rewrite limit_matches_take by done. cbn [mbind option_bind].
    destruct (Estimator.aiProvider e) as [provider|]; [| eauto].
    destruct (negb _); [eauto |]. destruct (estimateWithAI _ _ _ _ _); eauto.
  - destruct (Estimator.aiProvider e) as [provider|]; [| eauto].
    destruct (negb _); [eauto |]. destruct (estimateWithAI _ _ _ _ _); eauto.
Qed.

(** *** Runs of the worker pool *)

Section pool_runs.
Context `{GoRuntime}.
Variable bp : BatchProcessor.t.
Variable request : BatchRequest.t.
Hypothesis workers_positive : (1 ≤ BatchProcessor.maxWorkers bp)%Z.
Hypothesis semaphore_capacity :
  BatchProcessor.rateLimiter bp = BatchProcessor.maxWorkers bp.
Hypothesis estimate_returns : ∀ batchTask, is_Some (process_task bp batchTask).

Local Abbreviation tasks := (BatchRequest.Tasks request).
Local Abbreviation step := (pool_step bp (len tasks)).

Lemma sum_of_replicate (f : worker → Z) n w :
  sum_of f (replicate n w) = (Z.of_nat n * f w)%Z.
Proof. induction n as [|n IH]; [done |]. cbn [replicate sum_of foldr]. fold (sum_of f (replicate n w)). lia. Qed.

Lemma pool_start_invariant : pool_invariant bp tasks (pool_start bp request).
Proof.
  unfold pool_invariant, pool_start.
  cbn [pool.unsent pool.taskCh pool.closed pool.workers pool.tokens pool.resultCh].
  split_and!.
  - assert (∀ n, replicate n Receiving ≫= held_task = []) as ->.
    { induction n as [|n IH]; [done |]. by rewrite replicate_S, bind_cons, IH. }
    by rewrite !app_nil_r.
  - constructor.
  - done.
  - intros Hin. by apply elem_of_replicate in Hin as [? _].
  - rewrite sum_of_replicate. simpl. lia.
  - unfold len. rewrite length_replicate. lia.
Qed.

Lemma pool_reachable_invariant s :
  rtc step (pool_start bp request) s → pool_invariant bp tasks s.
Proof.
  revert s. apply rtc_ind_r.
  - apply pool_start_invariant.
  - intros s s' _ Hstep IH. by eapply pool_step_invariant.
Qed.

(** Every step lowers the measure. *)
Lemma pool_step_measure capacity s s' :
  pool_step bp capacity s s' → (pool_measure s' < pool_measure s)%Z.
Proof.
  intros Hstep. unfold pool_measure.
  destruct Hstep as
    [ t unsent taskCh ws tokens results Hcap
    | taskCh ws tokens results
    | i t unsent taskCh closed ws tokens results Hi
    | i unsent ws tokens results Hi
    | i t unsent taskCh closed ws tokens results Hi Hfree
    | i t r unsent taskCh closed ws tokens results Hi Hrun Hcap
    | i unsent taskCh closed ws tokens results Hi Hheld ];
    cbn [pool.unsent pool.taskCh pool.closed pool.workers pool.tokens pool.resultCh];
    try rewrite (sum_of_insert _ _ _ _ _ Hi); cbn [worker_weight];
    unfold len; rewrite ?length_app; cbn [length]; lia.
Qed.

Lemma pool_measure_nonneg s : (0 ≤ pool_measure s)%Z.
Proof.
  unfold pool_measure, len.
  assert (0 ≤ sum_of worker_weight (pool.workers s))%Z.
  { induction (pool.workers s) as [|w ws IH]; simpl; [done |]. destruct w; simpl; lia. }
  destruct (pool.closed s); lia.
Qed.

Lemma pool_start_measure :
  pool_measure (pool_start bp request) = (6 * len tasks + BatchProcessor.maxWorkers bp + 1)%Z.
Proof.
  unfold pool_measure, pool_start, len.
  cbn [pool.unsent pool.taskCh pool.closed pool.workers length].
  rewrite sum_of_replicate. cbn [worker_weight]. fold tasks. lia.
Qed.

(** A run has at most as many steps as the measure of its first state. *)
Lemma pool_run_length n s s' :
  nsteps step n s s' → (Z.of_nat n ≤ pool_measure s - pool_measure s')%Z.
Proof.
  induction 1 as [| n s s1 s' Hstep _ IH]; [lia |].
  apply pool_step_measure in Hstep. lia.
Qed.
(** A worker that holds no token leaves room in the semaphore. *)
Lemma sum_of_held_token_room (ws : list worker) i w :
  ws !! i = Some w → held_token w = 0%Z → (sum_of held_token ws < len ws)%Z.
Proof.
  intros Hi Hw.
  pose proof (sum_of_insert held_token ws i w Releasing Hi) as Hins.
  pose proof (sum_of_upper held_token (<[i := Releasing]> ws) 1) as Hup.
  unfold len in *. rewrite length_insert in Hup. cbn [held_token] in Hins.
  assert (∀ v, held_token v ≤ 1)%Z as Hle by (intros []; simpl; lia).
  specialize (Hup Hle). lia.
Qed.

Lemma held_task_length (ws : list worker) i w batchTask :
  ws !! i = Some w → held_task w = [batchTask] → (1 ≤ length (ws ≫= held_task))%nat.
Proof.
  intros Hi Hw. apply take_drop_middle in Hi. rewrite <- Hi.
  rewrite bind_app, bind_cons, Hw, !length_app. simpl. lia.
Qed.

(** The pool does not deadlock: a state in which some worker has not
    returned can take a step. *)
Lemma pool_progress s :
  pool_invariant bp tasks s → ¬ pool_done s → ∃ s', step s s'.
Proof.
  intros (Hperm & Hres & Hclosed & Hret & Htok & Hlen) Hdone.
  apply Permutation_length in Hperm. rewrite !length_app, length_fmap in Hperm.
  destruct s as [unsent taskCh closed ws tokens results].
  cbn [pool.unsent pool.taskCh pool.closed pool.workers pool.tokens pool.resultCh] in *.
  destruct closed.
  - rewrite Hclosed in * by done. unfold pool_done in Hdone.
    cbn [pool.workers] in Hdone.
    apply not_Forall_Exists in Hdone; [| intros w; apply _].
    apply Exists_exists in Hdone as (w & Hw & Hnot).
    apply list_elem_of_lookup in Hw as [i Hi].
    destruct w as [| t | t | |]; [| | | | by destruct Hnot].
    + destruct taskCh as [|t taskCh]; eexists.
      * by apply step_return.
      * by apply step_receive.
    + eexists. apply step_acquire; [done |].
      rewrite semaphore_capacity, Htok, <- Hlen. by eapply sum_of_held_token_room.
    + destruct (estimate_returns t) as [r Hr]. eexists.
      eapply step_estimate; [done.. |].
      pose proof (held_task_length ws i (Estimating t) t Hi eq_refl).
      unfold len. simpl in Hperm. lia.
    + eexists. apply step_release; [done |].
      pose proof (sum_of_lookup_le held_token ws i Releasing) as Hle.
      cbn [held_token] in Hle. rewrite Htok.
      assert (∀ v, 0 ≤ held_token v)%Z as Hpos by (intros []; simpl; lia).
      specialize (Hle Hpos Hi). lia.
  - destruct unsent as [|t unsent]; eexists.
    + apply step_close.
    + apply step_send. unfold len. simpl in Hperm. lia.
Qed.

(** Every state the pool reaches can be run on until all workers have
    returned. *)
Lemma pool_terminates s :
  pool_invariant bp tasks s → ∃ s', rtc step s s' ∧ pool_done s'.
Proof.
  intros Hinv.
  assert (∃ n, pool_measure s ≤ Z.of_nat n)%Z as [n Hn].
  { exists (Z.to_nat (pool_measure s)). lia. }
  revert s Hinv Hn. induction n as [|n IH]; intros s Hinv Hn.
  - destruct (decide (pool_done s)) as [Hdone | Hdone]; [exists s; by split |].
    destruct (pool_progress s Hinv Hdone) as [s' Hstep].
    pose proof (pool_step_measure _ _ _ Hstep). pose proof (pool_measure_nonneg s'). lia.
  - destruct (decide (pool_done s)) as [Hdone | Hdone]; [exists s; by split |].
    destruct (pool_progress s Hinv Hdone) as [s' Hstep].
    pose proof (pool_step_measure _ _ _ Hstep).
    destruct (IH s') as (s'' & Hrun & Hfinal).
    + by eapply pool_step_invariant.
    + lia.
    + exists s''. split; [by eapply rtc_l | done].
Qed.

(** When all workers have returned, the results are those of the tasks. *)
Lemma pool_done_results s :
  pool_invariant bp tasks s → pool_done s →
  BatchResult.Task <$> pool.resultCh s ≡ₚ tasks
  ∧ Forall (λ r, process_task bp (BatchResult.Task r) = Some r) (pool.resultCh s).
Proof.
  intros (Hperm & Hres & Hclosed & Hret & Htok & Hlen) Hdone. split; [| done].
  unfold pool_done in Hdone.
  rewrite held_task_all_returned in Hperm by done.
  destruct (pool.workers s) as [|w ws] eqn:Hws.
  { unfold len in Hlen. simpl in Hlen. lia. }
  apply Forall_cons in Hdone as [-> _].
  destruct Hret as [Hc Hch]; [by left |].
  by rewrite Hclosed, Hch in Hperm by done.
Qed.
End pool_runs.


Lemma NewBatchProcessor_workers estimator W :
  let bp := NewBatchProcessor estimator W in
  (1 ≤ BatchProcessor.maxWorkers bp)%Z
  ∧ BatchProcessor.rateLimiter bp = BatchProcessor.maxWorkers bp
  ∧ ((1 ≤ W)%Z → BatchProcessor.maxWorkers bp = W).
Proof. unfold NewBatchProcessor. simpl. case_bool_decide; split_and!; lia. Qed.

Lemma results_of_tasks `{GoRuntime} bp (results : list BatchResult.t) tasks :
  BatchResult.Task <$> results ≡ₚ tasks →
  Forall (λ r, process_task bp (BatchResult.Task r) = Some r) results →
  Some <$> results ≡ₚ process_task bp <$> tasks.
Proof.
  intros Hperm Hres. rewrite <- Hperm, <- list_fmap_compose.
  assert (Some <$> results = (process_task bp ∘ BatchResult.Task) <$> results) as ->;
    [| done].
  apply Forall_fmap_ext_1. eapply Forall_impl; [exact Hres |].
  intros r Hr. simpl. by rewrite Hr.
Qed.

(** C2.  For every estimator whose [MaxSimilarTasks] is not negative,
    every worker pool size [W] and every request of N tasks:
    [ProcessBatch] produces a report; its pool never deadlocks and no run
    of it takes more than 6 N + maxWorkers + 1 steps, where maxWorkers is
    [W] when [W] is at least one.  In every report it can produce
    [TotalTasks] is N, there are N results, the two counters add up to N
    and count the results with and without an error; the results are,
    up to order, those of estimating each task of the request on its own,
    so no task's outcome depends on the outcome of another; a result with
    an error has no estimate; and the statistics are those of the results
    without an error. *)
Theorem ProcessBatch_isolates_failures `{GoRuntime} (estimator : Estimator.t) (W : Z)
    (request : BatchRequest.t) :
  (0 ≤ EstimationConfig.MaxSimilarTasks (Estimator.config estimator))%Z →
  let bp := NewBatchProcessor estimator W in
  let tasks := BatchRequest.Tasks request in
  let step := pool_step bp (len tasks) in
  ((1 ≤ W)%Z → BatchProcessor.maxWorkers bp = W)
  ∧ (∃ report, ProcessBatch bp request report)
  ∧ (∀ s, rtc step (pool_start bp request) s → ¬ pool_done s → ∃ s', step s s')
  ∧ (∀ n s, nsteps step n (pool_start bp request) s →
       (Z.of_nat n ≤ 6 * len tasks + BatchProcessor.maxWorkers bp + 1)%Z)
  ∧ ∀ report, ProcessBatch bp request report →
      let results := BatchReport.Results report in
      BatchReport.TotalTasks report = len tasks
      ∧ len results = len tasks
      ∧ (BatchReport.SuccessfulTasks report + BatchReport.FailedTasks report)%Z = len tasks
      ∧ BatchReport.SuccessfulTasks report = len (filter succeeded results)
      ∧ BatchReport.FailedTasks report = len (filter failed results)
      ∧ BatchResult.Task <$> results ≡ₚ tasks
      ∧ Some <$> results ≡ₚ process_task bp <$> tasks
      ∧ Forall (λ r, failed r → BatchResult.Result r = None) results
      ∧ Forall (λ r, succeeded r → is_Some (BatchResult.Result r)) results
      ∧ BatchReport.Statistics report = Some (calculateStatistics (filter succeeded results)).
Proof.
  intros Hmax bp tasks step.
  destruct (NewBatchProcessor_workers estimator W) as (Hworkers & Hrate & HW).
  fold bp in Hworkers, Hrate, HW.
  assert (∀ batchTask, is_Some (process_task bp batchTask)) as Hest.
  { intros batchTask. unfold process_task.
    destruct (Estimate_returns estimator (task_of_batch batchTask) Hmax) as [r Hr].
    unfold bp, NewBatchProcessor. cbn [BatchProcessor.estimator]. rewrite Hr.
    simpl. eauto. }
  split_and!.
  - exact HW.
  - edestruct (pool_terminates bp request) as (s & Hrun & Hdone);
      [done || (apply pool_start_invariant; lia) .. |].
    exists (gather_report bp request (pool.resultCh s)), s. by split_and!.
  - intros s Hrun Hdone.
    eapply (pool_progress bp request); [done .. | | done].
    apply pool_reachable_invariant; [lia | done].
  - intros n s Hrun. apply pool_run_length in Hrun.
    rewrite pool_start_measure in Hrun by lia.
    pose proof (pool_measure_nonneg s). fold tasks in Hrun. lia.
  - intros report (s & Hrun & Hdone & ->) results.
    apply pool_reachable_invariant in Hrun; [| lia].
    edestruct (pool_done_results bp request) as [Hperm Hres]; [done || exact Hrun ..|].
    unfold results, gather_report. rewrite gather_counts.
    cbn [BatchReport.Results BatchReport.TotalTasks BatchReport.SuccessfulTasks
         BatchReport.FailedTasks BatchReport.Statistics].
    pose proof (succeeded_failed_length (pool.resultCh s)) as Hcount.
    assert (len (pool.resultCh s) = len tasks) as Hlen.
    { unfold len. apply Permutation_length in Hperm.
      rewrite length_fmap in Hperm. by rewrite Hperm. }
    split_and!; try done; try lia.
    + by apply results_of_tasks.
    + eapply Forall_impl; [exact Hres |]. intros r Hr Hfailed.
      destruct (process_task_outcome bp _ _ Hr) as [[Hs _] | [_ Hnone]]; [| done].
      destruct Hfailed as [err Herr]. unfold succeeded in Hs. congruence.
    + eapply Forall_impl; [exact Hres |]. intros r Hr Hsucc.
      destruct (process_task_outcome bp _ _ Hr) as [[_ Hsome] | [[err Herr] _]]; [done |].
      unfold succeeded in Hsucc. congruence.
    + by rewrite <- calculateStatistics_succeeded.
Qed.

Lemma ProcessBatch_isolates_failures_witness :
  (∃ report, @ProcessBatch latin1 (NewBatchProcessor flaky_estimator 2) mixed_request report)
  ∧ ∀ report, @ProcessBatch latin1 (NewBatchProcessor flaky_estimator 2) mixed_request report →
      BatchReport.TotalTasks report = 3%Z
      ∧ len (BatchReport.Results report) = 3%Z
      ∧ (BatchReport.SuccessfulTasks report + BatchReport.FailedTasks report)%Z = 3%Z
      ∧ BatchResult.Error <$> BatchReport.Results report
        ≡ₚ [None; Some (go "AI estimation failed: provider failure"); None].
Proof.
  destruct (@ProcessBatch_isolates_failures latin1 flaky_estimator 2 mixed_request)
    as (_ & Hex & _ & _ & Hall).
  - by apply (bool_decide_unpack _).
  - split; [exact Hex |]. intros report Hreport.
    destruct (Hall report Hreport) as (Htotal & Hlen & Hsum & _ & _ & _ & Hres & _).
    split_and!; [exact Htotal | exact Hlen | exact Hsum |].
    apply (fmap_Permutation (λ o, o ≫= BatchResult.Error)) in Hres.
    rewrite <- !list_fmap_compose in Hres. exact Hres.
Defined.

(** * Further properties *)

(** ** The similarity score is symmetric *)

Section similarity_symmetry.
Context `{GoRuntime}.

Lemma filter_elem_of_intersection (X Y : gset gostring) :
  filter (λ item, item ∈ Y) X = X ∩ Y.
Proof.
  apply leibniz_equiv, set_equiv. intros x.
  rewrite elem_of_filter, elem_of_intersection. tauto.
Qed.

Lemma jaccardSimilarity_sym set1 set2 :
  jaccardSimilarity set1 set2 = jaccardSimilarity set2 set1.
Proof.
  unfold jaccardSimilarity.
  rewrite (bool_decide_ext (len set1 = 0 ∧ len set2 = 0)%Z (len set2 = 0 ∧ len set1 = 0)%Z)
    by tauto.
  case_bool_decide; [done |]. cbn zeta.
  rewrite !filter_elem_of_intersection.
  set (map1 := list_to_set _ : gset gostring).
  set (map2 := list_to_set _ : gset gostring).
  rewrite (comm_L (∩) map2 map1).
  by rewrite (Z.add_comm (Z.of_nat (size map2))).
Qed.

Lemma calculateTextSimilarity_sym text1 text2 :
  calculateTextSimilarity text1 text2 = calculateTextSimilarity text2 text1.
Proof.
  unfold calculateTextSimilarity. cbn zeta.
  rewrite (bool_decide_ext (normalizeText text1 = [] ∨ normalizeText text2 = [])
             (normalizeText text2 = [] ∨ normalizeText text1 = [])) by tauto.
  by rewrite jaccardSimilarity_sym.
Qed.

Lemma calculateLabelSimilarity_sym labels1 labels2 :
  calculateLabelSimilarity labels1 labels2 = calculateLabelSimilarity labels2 labels1.
Proof.
  unfold calculateLabelSimilarity.
  rewrite (bool_decide_ext (len labels1 = 0 ∧ len labels2 = 0)%Z
             (len labels2 = 0 ∧ len labels1 = 0)%Z) by tauto.
  rewrite (bool_decide_ext (len labels1 = 0 ∨ len labels2 = 0)%Z
             (len labels2 = 0 ∨ len labels1 = 0)%Z) by tauto.
  by rewrite jaccardSimilarity_sym.
Qed.

Lemma compareValues_sym v1 v2 : compareValues v1 v2 = compareValues v2 v1.
Proof. unfold compareValues. cbn zeta. apply bool_decide_ext. split; by intros ->. Qed.

(** The keys the first loop of [calculateContextSimilarity] counts as
    matches are the same from both sides. *)
Lemma context_matches_dom (context1 context2 : gmap gostring iface) :
  dom (filter (λ kv, context_value_matches context2 kv = true) context1)
  = dom (filter (λ kv, context_value_matches context1 kv = true) context2).
Proof.
  apply leibniz_equiv, set_equiv. intros k. rewrite !elem_of_dom.
  unfold is_Some. setoid_rewrite map_lookup_filter_Some.
  unfold context_value_matches. simpl. split.
  - intros (v1 & Hv1 & Hm). destruct (context2 !! k) as [v2|] eqn:Hv2; [| done].
    exists v2. split; [done |]. rewrite Hv1. by rewrite compareValues_sym.
  - intros (v2 & Hv2 & Hm). destruct (context1 !! k) as [v1|] eqn:Hv1; [| done].
    exists v1. split; [done |]. rewrite Hv2. by rewrite compareValues_sym.
Qed.

Lemma context_missing_dom (context1 context2 : gmap gostring iface) :
  dom (filter (λ kv, context_key_missing context1 kv = true) context2)
  = dom context2 ∖ dom context1.
Proof.
  apply leibniz_equiv, set_equiv. intros k.
  rewrite elem_of_difference, !elem_of_dom.
  unfold is_Some. setoid_rewrite map_lookup_filter_Some.
  unfold context_key_missing. simpl. split.
  - intros (v2 & Hv2 & Hm). split; [eauto |]. intros [v1 Hv1]. by rewrite Hv1 in Hm.
  - intros [[v2 Hv2] Hno]. exists v2. split; [done |].
    destruct (context1 !! k); [destruct Hno; eauto | done].
Qed.

Lemma context_total_sym (context1 context2 : gmap gostring iface) :
  (size context1
   + size (filter (λ kv, context_key_missing context1 kv = true) context2))%nat
  = (size context2
     + size (filter (λ kv, context_key_missing context2 kv = true) context1))%nat.
Proof.
  rewrite <- !size_dom, !context_missing_dom.
  rewrite <- !size_union_alt. by rewrite (comm_L (∪)).
Qed.

Lemma calculateContextSimilarity_sym context1 context2 :
  calculateContextSimilarity context1 context2
  = calculateContextSimilarity context2 context1.
Proof.
  unfold calculateContextSimilarity.
  rewrite (bool_decide_ext (size context1 = 0%nat ∧ size context2 = 0%nat)
             (size context2 = 0%nat ∧ size context1 = 0%nat)) by tauto.
  rewrite (bool_decide_ext (size context1 = 0%nat ∨ size context2 = 0%nat)
             (size context2 = 0%nat ∨ size context1 = 0%nat)) by tauto.
  do 2 (case_bool_decide; [done |]). cbn zeta.
  rewrite <- !Nat2Z.inj_add, context_total_sym.
  assert (size (filter (λ kv, context_value_matches context2 kv = true) context1)
          = size (filter (λ kv, context_value_matches context1 kv = true) context2)) as ->;
    [| done].
  by rewrite <- size_dom, context_matches_dom, size_dom.
Qed.

(** The score does not tell the new task from the historical one: the
    score of a task against an entry is the score of the entry's issue,
    read as a task, against the task, read as an issue. *)
Theorem CalculateSimilarity_symmetric (task : Task.t) (issue : Issue.t)
    (address address' : N) (hours hours' points points' : float64)
    (sz sz' state : gostring) :
  CalculateSimilarity task (Some (entry_of address issue hours sz points))
  = CalculateSimilarity (task_of_issue issue)
      (Some (entry_of address' (issue_of_task task state) hours' sz' points')).
Proof.
  unfold CalculateSimilarity, entry_of, task_of_issue, issue_of_task, extractLabels.
  cbn [deref HistoricalTask.Issue Task.Title Task.Description Task.Labels Task.Context
       Issue.Title Issue.Body Issue.Labels Issue.CustomFields].
  rewrite <- list_fmap_compose, (list_fmap_ext _ id (Task.Labels task)), list_fmap_id
    by done.
  rewrite (calculateTextSimilarity_sym (Task.Title task)).
  rewrite (calculateTextSimilarity_sym (Task.Description task)).
  rewrite (calculateLabelSimilarity_sym (Task.Labels task)).
  rewrite (calculateContextSimilarity_sym (Task.Context task)).
  rewrite (bool_decide_ext (Task.Description task ≠ [] ∧ Issue.Body issue ≠ [])
             (Issue.Body issue ≠ [] ∧ Task.Description task ≠ [])) by tauto.
  rewrite (bool_decide_ext
             (0 < size (Task.Context task) ∧ 0 < size (Issue.CustomFields issue))%nat
             (0 < size (Issue.CustomFields issue) ∧ 0 < size (Task.Context task))%nat)
    by tauto.
  done.
Qed.
End similarity_symmetry.

(** ** A text against itself, and texts of short words *)

Section similarity_self.
Context `{GoRuntime}.

Lemma Qc_div_self (x : Qc) : x ≠ 0 → x / x = 1.
Proof. intros Hx. unfold Qcdiv. by apply Qcmult_inv_r. Qed.

Lemma float64_of_int_ne_0 (n : Z) : n ≠ 0%Z → float64_of_int n ≠ 0.
Proof.
  intros Hn Heq. apply Hn. unfold float64_of_int in Heq.
  rewrite <- Z2Qc_inj_0 in Heq. by apply Z2Qc_inj in Heq.
Qed.

Lemma jaccardSimilarity_self set1 : jaccardSimilarity set1 set1 = 1.
Proof.
  unfold jaccardSimilarity. case_bool_decide as Hlen; [done |]. cbn zeta.
  rewrite filter_elem_of_intersection.
  set (map1 := list_to_set _ : gset gostring).
  assert (map1 ∩ map1 = map1) as -> by set_solver.
  assert (size map1 ≠ 0%nat) as Hsize.
  { intros Hsize. apply size_empty_inv, leibniz_equiv in Hsize.
    destruct set1 as [|x set1]; [unfold len in Hlen; simpl in Hlen; lia |].
    subst map1. rewrite fmap_cons, list_to_set_cons in Hsize. set_solver. }
  rewrite bool_decide_eq_false_2 by lia.
  replace (Z.of_nat (size map1) + Z.of_nat (size map1) - Z.of_nat (size map1))%Z
    with (Z.of_nat (size map1)) by lia.
  apply Qc_div_self, float64_of_int_ne_0. lia.
Qed.

Lemma calculateTextSimilarity_self text :
  normalizeText text ≠ [] → calculateTextSimilarity text text = 1.
Proof.
  intros Hne. unfold calculateTextSimilarity. cbn zeta.
  rewrite bool_decide_eq_false_2 by tauto. apply jaccardSimilarity_self.
Qed.

Lemma calculateLabelSimilarity_self labels : calculateLabelSimilarity labels labels = 1.
Proof.
  unfold calculateLabelSimilarity. case_bool_decide as H1; [done |].
  rewrite bool_decide_eq_false_2 by tauto. apply jaccardSimilarity_self.
Qed.

Lemma compareValues_refl v : compareValues v v = true.
Proof. unfold compareValues. cbn zeta. by apply bool_decide_eq_true_2. Qed.

Lemma calculateContextSimilarity_self (context1 : gmap gostring iface) :
  calculateContextSimilarity context1 context1 = 1.
Proof.
  unfold calculateContextSimilarity. case_bool_decide as H1; [done |].
  rewrite bool_decide_eq_false_2 by tauto. cbn zeta.
  assert (filter (λ kv, context_value_matches context1 kv = true) context1 = context1) as ->.
  { apply map_filter_id. intros k v Hkv. unfold context_value_matches. simpl.
    rewrite Hkv. apply compareValues_refl. }
  assert (filter (λ kv, context_key_missing context1 kv = true) context1 = ∅) as ->.
  { apply map_empty. intros k. apply map_lookup_filter_None. right.
    intros v Hkv. unfold context_key_missing. simpl. by rewrite Hkv. }
  rewrite map_size_empty, Z.add_0_r.
  rewrite bool_decide_eq_false_2 by lia.
  apply Qc_div_self, float64_of_int_ne_0. lia.
Qed.

(** A task scores 1 against the entry that repeats it, provided its
    title, and its description if it has one, keep some letter, digit or
    inner space when normalized. *)
Theorem CalculateSimilarity_self (task : Task.t) (address : N) (state sz : gostring)
    (hours points : float64) :
  normalizeText (Task.Title task) ≠ [] →
  (Task.Description task = [] ∨ normalizeText (Task.Description task) ≠ []) →
  CalculateSimilarity task
    (Some (entry_of address (issue_of_task task state) hours sz points)) = 1.
Proof.
  intros Htitle Hdesc.
  unfold CalculateSimilarity, entry_of, issue_of_task, extractLabels.
  cbn [deref HistoricalTask.Issue Issue.Title Issue.Body Issue.Labels Issue.CustomFields].
  rewrite <- list_fmap_compose, (list_fmap_ext _ id (Task.Labels task)), list_fmap_id
    by done.
  rewrite calculateTextSimilarity_self by done.
  rewrite calculateLabelSimilarity_self, calculateContextSimilarity_self.
  set (t := dec 4 10). set (d := dec 3 10). set (l := dec 2 10). set (c := dec 1 10).
  assert (0 < 0 + t + l) as H1 by (by apply (bool_decide_unpack _)).
  assert (0 < 0 + t + l + c) as H2 by (by apply (bool_decide_unpack _)).
  assert (0 < 0 + t + d + l) as H3 by (by apply (bool_decide_unpack _)).
  assert (0 < 0 + t + d + l + c) as H4 by (by apply (bool_decide_unpack _)).
  destruct Hdesc as [Hnone | Hsome].
  - rewrite Hnone. rewrite bool_decide_eq_false_2 by tauto.
    case_bool_decide; rewrite bool_decide_eq_true_2 by done;
      rewrite !Qcmult_1_l; apply Qc_div_self; by apply Qclt_not_eq, not_eq_sym in H1, H2.
  - rewrite calculateTextSimilarity_self by done.
    case_bool_decide; case_bool_decide; rewrite bool_decide_eq_true_2 by done;
      rewrite ?Qcmult_1_l; apply Qc_div_self;
      by apply Qclt_not_eq, not_eq_sym in H1, H2, H3, H4.
Qed.

(** The fields of a text hold no white space. *)
Lemma fields_from_no_space (cur s : gostring) :
  Forall (λ r, unicode_IsSpace r = false) cur →
  Forall (Forall (λ r, unicode_IsSpace r = false)) (fields_from cur s).
Proof.
  revert cur. induction s as [|r s IH]; intros cur Hcur; cbn [fields_from].
  - destruct cur as [|c cur].
    + apply Forall_nil_2.
    + apply Forall_cons_2; [exact Hcur | apply Forall_nil_2].
  - destruct (unicode_IsSpace r) eqn:Hr.
    + destruct cur as [|c cur].
      * by apply IH.
      * apply Forall_cons_2; [exact Hcur | apply IH, Forall_nil_2].
    + apply IH. apply Forall_app. split; [done |].
      apply Forall_cons_2; [exact Hr | apply Forall_nil_2].
Qed.

Lemma trim_left_no_space (word : gostring) :
  Forall (λ r, unicode_IsSpace r = false) word → trim_left word = word.
Proof. intros [|r rest Hr _]; [done |]. cbn [trim_left]. by rewrite Hr. Qed.

Lemma strings_TrimSpace_no_space (word : gostring) :
  Forall (λ r, unicode_IsSpace r = false) word → strings_TrimSpace word = word.
Proof.
  intros Hword. unfold strings_TrimSpace. rewrite (trim_left_no_space word) by done.
  rewrite trim_left_no_space by (by apply Forall_reverse).
  apply reverse_involutive.
Qed.

(** [extractWords] drops every word when none, lower-cased, is longer
    than two bytes. *)
Lemma extractWords_short (text : gostring) :
  Forall (λ word, (strlen (strings_ToLower word) ≤ 2)%Z) (strings_Fields text) →
  extractWords text = [].
Proof.
  intros Hshort. unfold extractWords. cbn zeta.
  pose proof (fields_from_no_space [] text (Forall_nil_2 _)) as Hfields.
  fold (strings_Fields text) in Hfields.
  assert (∀ unique : gset gostring,
            foldl (λ (unique : gset gostring) word,
                     let word := strings_ToLower (strings_TrimSpace word) in
                     if bool_decide (2 < strlen word)%Z then {[ word ]} ∪ unique else unique)
                  unique (strings_Fields text) = unique) as ->.
  { induction Hshort as [|word words Hword _ IH]; intros unique; [done |].
    apply Forall_cons in Hfields as [Hclean Hfields].
    cbn [foldl]. cbn zeta. rewrite strings_TrimSpace_no_space by done.
    rewrite bool_decide_eq_false_2 by lia. by apply IH. }
  apply elements_empty.
Qed.

(** Two texts that normalize to something but hold no word longer than
    two bytes score 1, whatever they say. *)
Theorem calculateTextSimilarity_short_words (text1 text2 : gostring) :
  normalizeText text1 ≠ [] → normalizeText text2 ≠ [] →
  Forall (λ word, (strlen (strings_ToLower word) ≤ 2)%Z)
         (strings_Fields (normalizeText text1)) →
  Forall (λ word, (strlen (strings_ToLower word) ≤ 2)%Z)
         (strings_Fields (normalizeText text2)) →
  calculateTextSimilarity text1 text2 = 1.
Proof.
  intros H1 H2 Hw1 Hw2. unfold calculateTextSimilarity. cbn zeta.
  rewrite bool_decide_eq_false_2 by tauto.
  rewrite !extractWords_short by done.
  unfold jaccardSimilarity. by rewrite bool_decide_eq_true_2.
Qed.
End similarity_self.

Lemma CalculateSimilarity_self_witness :
  @CalculateSimilarity latin1 sparse_task
    (Some (entry_of 7 (issue_of_task sparse_task (go "closed")) 0 [] 0)) = 1.
Proof.
  apply (@CalculateSimilarity_self latin1 sparse_task 7 (go "closed") [] 0 0).
  - by vm_compute.
  - left. reflexivity.
Defined.

Lemma calculateTextSimilarity_short_words_witness :
  @calculateTextSimilarity latin1 (go "UI") (go "DB x") = 1.
Proof.
  apply (@calculateTextSimilarity_short_words latin1 (go "UI") (go "DB x")).
  - by vm_compute.
  - by vm_compute.
  - apply (bool_decide_unpack _). vm_compute. reflexivity.
  - apply (bool_decide_unpack _). vm_compute. reflexivity.
Defined.

(** ** [FindSimilarTasks] *)

Section find_similar_correct.
Context `{GoRuntime}.

Lemma CalculateSimilarity_no_source task h :
  ¬ has_source h → CalculateSimilarity task (Some h) = 0.
Proof.
  intros Hno. unfold CalculateSimilarity, has_source in *.
  destruct (HistoricalTask.Issue (deref h)); [destruct Hno; eauto | done].
Qed.

Lemma matches_at_cons threshold (scored : scoredTask.t) scoredTasks :
  matches_at threshold (scored :: scoredTasks)
  = (if bool_decide (threshold ≤ scoredTask.similarity scored)
     then [SimilarityMatch.mk (scoredTask.hist scored) (scoredTask.similarity scored)
             (scoredTask.matches scored)]
     else [])
    ++ matches_at threshold scoredTasks.
Proof.
  unfold matches_at. case_bool_decide.
  - by rewrite filter_cons_True by done.
  - by rewrite filter_cons_False by done.
Qed.

(** The loop builds the matches of the threshold when every entry that
    reaches it holds an issue, and panics otherwise. *)
Lemma find_matches_spec task threshold corpus matches :
  Forall (λ h, threshold ≤ CalculateSimilarity task (Some h) → has_source h) corpus →
  find_matches task threshold corpus matches
  = Some (matches ++ matches_at threshold (scored_corpus task corpus)).
Proof.
  intros Hsrc. revert matches.
  induction Hsrc as [|h corpus Hh _ IH]; intros matches.
  - simpl. by rewrite app_nil_r.
  - cbn [find_matches]. unfold scored_corpus. rewrite fmap_cons, matches_at_cons.
    cbn [scoredTask.similarity scoredTask.hist scoredTask.matches].
    fold (scored_corpus task corpus).
    case_bool_decide as Hreach.
    + destruct (identifyMatches_source task h (Hh Hreach)) as [which Hwhich].
      rewrite Hwhich. cbn [mbind option_bind default]. rewrite IH.
      by rewrite <- app_assoc.
    + apply IH.
Qed.

Lemma find_matches_panics task threshold corpus matches :
  Exists (λ h, threshold ≤ CalculateSimilarity task (Some h) ∧ ¬ has_source h) corpus →
  find_matches task threshold corpus matches = None.
Proof.
  intros Hex. revert matches.
  induction corpus as [|h corpus IH]; intros matches; [by apply Exists_nil in Hex |].
  cbn [find_matches]. apply Exists_cons in Hex as [[Hreach Hno] | Hex].
  - rewrite bool_decide_eq_true_2 by done.
    unfold identifyMatches, has_source in *.
    destruct (HistoricalTask.Issue (deref h)); [destruct Hno; eauto | done].
  - case_bool_decide; [| by apply IH].
    destruct (identifyMatches task h); [by apply IH | done].
Qed.

Lemma limit_matches_negative (matches : list SimilarityMatch.t) (maxMatches : Z) :
  (maxMatches < 0)%Z → limit_matches matches maxMatches = None.
Proof.
  intros Hmax. unfold limit_matches, slice_to, len.
  rewrite bool_decide_eq_true_2 by lia. by rewrite bool_decide_eq_false_2 by lia.
Qed.

Lemma reaching_source task threshold corpus :
  0 < threshold ∨ Forall has_source corpus →
  Forall (λ h, threshold ≤ CalculateSimilarity task (Some h) → has_source h) corpus.
Proof.
  intros [Hpos | Hsrc].
  - apply Forall_forall. intros h _ Hreach.
    destruct (decide (has_source h)) as [| Hno]; [done |].
    rewrite CalculateSimilarity_no_source in Hreach by done.
    by apply Qcle_not_lt in Hreach.
  - eapply Forall_impl; [exact Hsrc | done].
Qed.

Lemma match_list_take_wf task corpus threshold n :
  let matches := take n (match_list task corpus threshold) in
  StronglySorted by_similarity_desc matches
  ∧ Forall (λ m, SimilarityMatch.Task m ∈ corpus
                 ∧ SimilarityMatch.Similarity m
                   = CalculateSimilarity task (Some (SimilarityMatch.Task m))
                 ∧ threshold ≤ SimilarityMatch.Similarity m) matches.
Proof.
  cbn zeta. split.
  - apply (StronglySorted_app_1_l _ _ (drop n (match_list task corpus threshold))).
    rewrite take_drop. apply sortBySimilarity_sorted.
  - apply Forall_take, Forall_forall. intros m Hm.
    pose proof (proj1 (Forall_forall _ _) (match_list_scores task corpus threshold) m Hm)
      as Hscore.
    assert (SimilarityMatch.Task m ∈ qualifying task threshold corpus) as Hq.
    { rewrite <- match_list_tasks. by apply list_elem_of_fmap_2. }
    unfold qualifying in Hq. apply list_elem_of_filter in Hq as [Hreach Hin].
    split_and!; [done | done | by rewrite Hscore].
Qed.

(** [FindSimilarTasks] returns exactly when [MaxSimilarTasks] is not
    negative and every entry that reaches the threshold holds an issue,
    which a positive threshold ensures; it panics otherwise. *)
Theorem FindSimilarTasks_returns_iff task corpus config :
  let cfg := default DefaultEstimationConfig config in
  is_Some (FindSimilarTasks task corpus config)
  ↔ (0 ≤ EstimationConfig.MaxSimilarTasks cfg)%Z
    ∧ (0 < EstimationConfig.MinSimilarityThreshold cfg ∨ Forall has_source corpus).
Proof.
  cbn zeta. unfold FindSimilarTasks. cbn zeta.
  set (cfg := default DefaultEstimationConfig config).
  split.
  - intros Hsome.
    destruct (decide (Forall (λ h, EstimationConfig.MinSimilarityThreshold cfg
                                   ≤ CalculateSimilarity task (Some h) → has_source h) corpus))
      as [Hsrc | Hsrc].
    + rewrite find_matches_spec in Hsome by done. cbn [mbind option_bind] in Hsome.
      split.
      * destruct (decide (0 ≤ EstimationConfig.MaxSimilarTasks cfg)%Z); [done |].
        rewrite limit_matches_negative in Hsome by lia. by destruct Hsome.
      * destruct (decide (0 < EstimationConfig.MinSimilarityThreshold cfg)) as [| Hle];
          [by left | right].
        eapply Forall_impl; [exact Hsrc |]. intros h Hh. apply Hh.
        apply Qcnot_lt_le in Hle. etrans; [exact Hle | apply CalculateSimilarity_nonneg].
    + apply not_Forall_Exists in Hsrc; [| intros h; apply _].
      rewrite find_matches_panics in Hsome; [by destruct Hsome |].
      eapply Exists_impl; [exact Hsrc |]. intros h Hh. simpl in Hh.
      destruct (decide (EstimationConfig.MinSimilarityThreshold cfg
                        ≤ CalculateSimilarity task (Some h))); [| tauto].
      split; [done | tauto].
  - intros [Hmax Hsrc]. rewrite find_matches_spec by (by apply reaching_source).
    cbn [mbind option_bind app]. rewrite limit_matches_take by done. eauto.
Qed.

(** When it returns, [FindSimilarTasks] yields the entries that reach the
    configured threshold, by descending score and cut to the first
    [MaxSimilarTasks]; each match carries the score of its entry. *)
Theorem FindSimilarTasks_matches task corpus config matches :
  let cfg := default DefaultEstimationConfig config in
  let threshold := EstimationConfig.MinSimilarityThreshold cfg in
  let maxMatches := EstimationConfig.MaxSimilarTasks cfg in
  FindSimilarTasks task corpus config = Some matches →
  matches = take (Z.to_nat maxMatches) (match_list task corpus threshold)
  ∧ StronglySorted by_similarity_desc matches
  ∧ Forall (λ m, SimilarityMatch.Task m ∈ corpus
                 ∧ SimilarityMatch.Similarity m
                   = CalculateSimilarity task (Some (SimilarityMatch.Task m))
                 ∧ threshold ≤ SimilarityMatch.Similarity m) matches
  ∧ len matches = Z.min maxMatches (len (qualifying task threshold corpus)).
Proof.
  intros cfg threshold maxMatches Hrun.
  assert (is_Some (FindSimilarTasks task corpus config)) as Hsome by eauto.
  apply FindSimilarTasks_returns_iff in Hsome as [Hmax Hsrc].
  unfold FindSimilarTasks in Hrun. cbn zeta in Hrun. fold cfg in Hrun.
  rewrite find_matches_spec in Hrun by (by apply reaching_source).
  cbn [mbind option_bind app] in Hrun. rewrite limit_matches_take in Hrun by done.
  injection Hrun as <-. fold (match_list task corpus threshold). fold maxMatches.
  destruct (match_list_take_wf task corpus threshold (Z.to_nat maxMatches)) as [Hs Hf].
  split_and!; [done | done | done |].
  change (sortBySimilarity _) with (match_list task corpus threshold).
  unfold len. rewrite length_take, match_list_length. fold cfg maxMatches in Hmax. lia.
Qed.
End find_similar_correct.

Lemma FindSimilarTasks_returns_iff_witness :
  is_Some (@FindSimilarTasks latin1 sparse_task orphan_corpus None)
  ∧ @FindSimilarTasks latin1 sparse_task orphan_corpus
      (Some (with_threshold DefaultEstimationConfig 0)) = None.
Proof.
  split.
  - apply (@FindSimilarTasks_returns_iff latin1 sparse_task orphan_corpus None).
    split; [by apply (bool_decide_unpack _) | left; by apply (bool_decide_unpack _)].
  - destruct (@FindSimilarTasks latin1 sparse_task orphan_corpus
                (Some (with_threshold DefaultEstimationConfig 0))) as [ms|] eqn:Hrun;
      [| done].
    assert (is_Some (@FindSimilarTasks latin1 sparse_task orphan_corpus
                       (Some (with_threshold DefaultEstimationConfig 0)))) as Hsome
      by (rewrite Hrun; eauto).
    apply (@FindSimilarTasks_returns_iff latin1) in Hsome as [_ [Hpos | Hsrc]].
    + by apply (bool_decide_unpack (¬ _)) in Hpos.
    + apply Forall_cons in Hsrc as [_ Hsrc]. apply Forall_cons in Hsrc as [[? Hno] _].
      discriminate Hno.
Defined.

Lemma FindSimilarTasks_matches_witness :
  ∃ matches,
    @FindSimilarTasks latin1 sparse_task orphan_corpus None = Some matches
    ∧ match_addresses matches = [2%N; 0%N].
Proof.
  destruct (@FindSimilarTasks latin1 sparse_task orphan_corpus None) as [ms|] eqn:Hrun;
    [| by vm_compute in Hrun].
  exists ms. split; [done |].
  destruct (@FindSimilarTasks_matches latin1 sparse_task orphan_corpus None ms Hrun)
    as (-> & _).
  by vm_compute.
Defined.

(** ** More on the adaptive retriever *)

Section adaptive_more.
Context `{GoRuntime}.

Lemma score_tasks_panics task corpus scoredTasks maxSimilarity :
  ¬ Forall has_source corpus → score_tasks task corpus scoredTasks maxSimilarity = None.
Proof.
  intros Hno.
  destruct (score_tasks task corpus scoredTasks maxSimilarity) as [r|] eqn:Hrun; [| done].
  destruct Hno. by eapply score_tasks_Some_source.
Qed.

Lemma list_find_stops_some task corpus :
  qualifying task (dec 15 100) corpus ≠ [] →
  is_Some (list_find (stops_at task corpus (dec 15 100)) thresholds).
Proof.
  intros Hq. apply (list_find_elem_of _ _ (dec 15 100)).
  - unfold thresholds. set_solver.
  - right. split; [done |]. unfold len. rewrite match_list_length.
    destruct (qualifying task (dec 15 100) corpus); [done | simpl; lia].
Qed.

(** The adaptive retriever returns exactly when every entry holds an
    issue and [MaxSimilarTasks] is not negative, or no entry reaches the
    lowest level so that no slice is taken; it panics otherwise. *)
Theorem FindSimilarTasksAdaptive_returns_iff task corpus config :
  let cfg := default DefaultEstimationConfig config in
  is_Some (FindSimilarTasksAdaptive task corpus config)
  ↔ Forall has_source corpus
    ∧ ((0 ≤ EstimationConfig.MaxSimilarTasks cfg)%Z
       ∨ qualifying task (dec 15 100) corpus = []).
Proof.
  cbn zeta. split.
  - intros Hsome.
    destruct (decide (Forall has_source corpus)) as [Hsrc | Hsrc].
    + split; [done |]. rewrite FindSimilarTasksAdaptive_spec in Hsome by done.
      cbn zeta in Hsome.
      destruct (decide (0 ≤ EstimationConfig.MaxSimilarTasks
                              (default DefaultEstimationConfig config))%Z) as [| Hneg];
        [by left | right].
      destruct (decide (qualifying task (dec 15 100) corpus = [])) as [| Hq]; [done |].
      destruct (list_find_stops_some task corpus Hq) as [[i threshold] Hfind].
      rewrite Hfind in Hsome. rewrite limit_matches_negative in Hsome by lia.
      by destruct Hsome.
    + unfold FindSimilarTasksAdaptive in Hsome.
      rewrite score_tasks_panics in Hsome by done. by destruct Hsome.
  - intros [Hsrc Hok]. rewrite FindSimilarTasksAdaptive_spec by done. cbn zeta.
    destruct Hok as [Hmax | Hq].
    + destruct (list_find _ thresholds) as [[i threshold]|]; [| eauto].
      rewrite limit_matches_take by done. eauto.
    + rewrite list_find_stops_none by done. eauto.
Qed.

(** What the retriever reports is consistent with what it returns. *)
Theorem FindSimilarTasksAdaptive_context task corpus config matches context :
  FindSimilarTasksAdaptive task corpus config = Some (matches, context) →
  let cfg := default DefaultEstimationConfig config in
  let used := SimilarityContext.ThresholdUsed context in
  SimilarityContext.MatchesFound context = len matches
  ∧ SimilarityContext.TotalTasksScanned context = len corpus
  ∧ (1 ≤ SimilarityContext.ThresholdsTriedCount context ≤ 5)%Z
  ∧ 0 ≤ SimilarityContext.HighestSimilarity context ≤ 1
  ∧ StronglySorted by_similarity_desc matches
  ∧ Forall (λ m, SimilarityMatch.Task m ∈ corpus
                 ∧ SimilarityMatch.Similarity m
                   = CalculateSimilarity task (Some (SimilarityMatch.Task m))
                 ∧ used ≤ SimilarityMatch.Similarity m
                 ∧ SimilarityMatch.Similarity m
                   ≤ SimilarityContext.HighestSimilarity context) matches
  ∧ (matches ≠ [] →
       used ∈ thresholds
       ∧ (len matches ≤ EstimationConfig.MaxSimilarTasks cfg)%Z
       ∧ ((3 ≤ len (qualifying task used corpus))%Z ∨ used = dec 15 100))
  ∧ (matches = [] → used = EstimationConfig.MinSimilarityThreshold cfg).
Proof.
  intros Hrun. cbn zeta.
  assert (is_Some (FindSimilarTasksAdaptive task corpus config)) as Hsome by eauto.
  apply FindSimilarTasksAdaptive_returns_iff in Hsome as [Hsrc Hok].
  rewrite FindSimilarTasksAdaptive_spec in Hrun by done. cbn zeta in Hrun.
  set (cfg := default DefaultEstimationConfig config) in *.
  pose proof (highest_is_maximum task corpus) as [Hbound Hattained].
  assert (0 ≤ running_max 0 (scores task corpus) ≤ 1) as Hrange.
  { split; [apply running_max_ge |].
    destruct Hattained as [Hin | [_ ->]]; [| apply Qc_0_le_1].
    set (mx := running_max 0 (scores task corpus)) in *.
    unfold scores in Hin. apply list_elem_of_fmap in Hin as (h & -> & _).
    apply CalculateSimilarity_unit. }
  destruct (list_find _ thresholds) as [[i threshold]|] eqn:Hfind.
  - apply list_find_Some in Hfind as (Hith & Hstop & _).
    assert (threshold ∈ thresholds) as Hin by (by eapply list_elem_of_lookup_2).
    assert (i < 5)%nat as Hi by (by apply lookup_lt_Some in Hith).
    destruct (limit_matches (match_list task corpus threshold)
                (EstimationConfig.MaxSimilarTasks cfg)) as [best|] eqn:Hlimit; [| done].
    cbn [mbind option_bind] in Hrun. injection Hrun as <- <-.
    cbn [SimilarityContext.MatchesFound SimilarityContext.TotalTasksScanned
         SimilarityContext.ThresholdsTriedCount SimilarityContext.HighestSimilarity
         SimilarityContext.ThresholdUsed].
    pose proof (limit_matches_sublist _ _ _ Hlimit) as Hsub.
    assert (StronglySorted by_similarity_desc best
            ∧ Forall (λ m, SimilarityMatch.Task m ∈ corpus
                 ∧ SimilarityMatch.Similarity m
                   = CalculateSimilarity task (Some (SimilarityMatch.Task m))
                 ∧ threshold ≤ SimilarityMatch.Similarity m) best) as [Hsorted Hwf].
    { unfold limit_matches in Hlimit. case_bool_decide.
      - unfold slice_to in Hlimit. case_bool_decide; [| done]. injection Hlimit as <-.
        apply match_list_take_wf.
      - injection Hlimit as <-.
        pose proof (match_list_take_wf task corpus threshold
                      (length (match_list task corpus threshold))) as Hall.
        cbn zeta in Hall. by rewrite firstn_all in Hall. }
    destruct Hrange as [Hlow Hhigh].
    split_and!; try done; try lia.
    + apply Forall_forall. intros m Hmem.
      destruct (proj1 (Forall_forall _ _) Hwf m Hmem) as (Hm & Hscore & Hreach).
      split_and!; [done | done | | ].
      * case_bool_decide as Hlen; [| done].
        destruct best; [by apply elem_of_nil in Hmem |].
        unfold len in Hlen. simpl in Hlen. lia.
      * rewrite Hscore. apply (proj1 (Forall_forall _ _) Hbound).
        unfold scores.
        by apply (list_elem_of_fmap_2 (λ h, CalculateSimilarity task (Some h))).
    + intros Hne.
      rewrite bool_decide_eq_false_2
        by (destruct best; [done | unfold len; simpl; lia]).
      split_and!; [done | |].
      * unfold limit_matches in Hlimit. case_bool_decide as Hcut.
        -- unfold slice_to in Hlimit. case_bool_decide; [| done]. injection Hlimit as <-.
           unfold len in *. rewrite length_take. lia.
        -- injection Hlimit as <-. lia.
      * destruct Hstop as [Hmin | [-> _]]; [left | by right].
        unfold minDesiredMatches, len in *. rewrite match_list_length in Hmin. lia.
    + intros ->. by rewrite bool_decide_eq_true_2.
  - cbn [mbind option_bind] in Hrun. injection Hrun as <- <-.
    cbn [SimilarityContext.MatchesFound SimilarityContext.TotalTasksScanned
         SimilarityContext.ThresholdsTriedCount SimilarityContext.HighestSimilarity
         SimilarityContext.ThresholdUsed].
    destruct Hrange as [Hlow Hhigh].
    split_and!; try done; try (unfold len; simpl; lia); constructor.
Qed.

(** When the adaptive retriever returns matches, they are those of
    [FindSimilarTasks] run with the threshold it reports. *)
Theorem FindSimilarTasksAdaptive_agrees task corpus config matches context :
  FindSimilarTasksAdaptive task corpus (Some config) = Some (matches, context) →
  matches ≠ [] →
  FindSimilarTasks task corpus
    (Some (with_threshold config (SimilarityContext.ThresholdUsed context)))
  = Some matches.
Proof.
  intros Hrun Hne.
  assert (is_Some (FindSimilarTasksAdaptive task corpus (Some config))) as Hsome by eauto.
  apply FindSimilarTasksAdaptive_returns_iff in Hsome as [Hsrc _].
  rewrite FindSimilarTasksAdaptive_spec in Hrun by done. cbn zeta in Hrun.
  cbn [default] in Hrun. unfold id in Hrun.
  destruct (list_find _ thresholds) as [[i threshold]|] eqn:Hfind.
  - destruct (limit_matches (match_list task corpus threshold)
                (EstimationConfig.MaxSimilarTasks config)) as [best|] eqn:Hlimit; [| done].
    cbn [mbind option_bind] in Hrun. injection Hrun as <- <-.
    cbn [SimilarityContext.ThresholdUsed].
    rewrite bool_decide_eq_false_2
      by (destruct best; [done | unfold len; simpl; lia]).
    unfold FindSimilarTasks, with_threshold.
    cbn [default EstimationConfig.MinSimilarityThreshold EstimationConfig.MaxSimilarTasks].
    rewrite find_matches_spec by (apply reaching_source; by right).
    cbn [mbind option_bind app]. exact Hlimit.
  - cbn [mbind option_bind] in Hrun. by injection Hrun as <- _.
Qed.

(** The configured threshold is reported when nothing matches and is
    otherwise not used: with another [MinSimilarityThreshold] the
    adaptive retriever panics on the same inputs, returns the same
    matches, and reports the same context but for [ThresholdUsed] when
    there is no match, which is then the configured threshold. *)
Theorem FindSimilarTasksAdaptive_threshold_unused task corpus config threshold :
  match FindSimilarTasksAdaptive task corpus (Some (with_threshold config threshold)),
        FindSimilarTasksAdaptive task corpus (Some config) with
  | Some (matches', context'), Some (matches, context) =>
      matches' = matches
      ∧ SimilarityContext.ThresholdsTriedCount context'
        = SimilarityContext.ThresholdsTriedCount context
      ∧ SimilarityContext.TotalTasksScanned context'
        = SimilarityContext.TotalTasksScanned context
      ∧ SimilarityContext.MatchesFound context' = SimilarityContext.MatchesFound context
      ∧ SimilarityContext.HighestSimilarity context'
        = SimilarityContext.HighestSimilarity context
      ∧ (matches ≠ [] → context' = context)
      ∧ (matches = [] →
         SimilarityContext.ThresholdUsed context' = threshold
         ∧ SimilarityContext.ThresholdUsed context
           = EstimationConfig.MinSimilarityThreshold config)
  | None, None => True
  | _, _ => False
  end.
Proof.
  unfold FindSimilarTasksAdaptive, with_threshold.
  cbn [default EstimationConfig.MaxSimilarTasks EstimationConfig.MinSimilarityThreshold].
  destruct (score_tasks task corpus [] 0) as [[scoredTasks maxSimilarity]|]; [| done].
  cbn [mbind option_bind].
  destruct (try_thresholds _ _ _ _ _) as [[[best used] tried]|]; [| done].
  cbn [mbind option_bind SimilarityContext.ThresholdsTriedCount
       SimilarityContext.TotalTasksScanned SimilarityContext.MatchesFound
       SimilarityContext.HighestSimilarity SimilarityContext.ThresholdUsed].
  split_and!; try done.
  - intros Hbest.
    assert (len best ≠ 0)%Z as Hlen by (destruct best; [done | unfold len; simpl; lia]).
    by rewrite !bool_decide_eq_false_2 by done.
  - intros ->. by rewrite !bool_decide_eq_true_2 by done.
Qed.
End adaptive_more.

Lemma FindSimilarTasksAdaptive_returns_iff_witness :
  is_Some (@FindSimilarTasksAdaptive latin1 sparse_task sparse_corpus
             (Some single_match_config))
  ∧ @FindSimilarTasksAdaptive latin1 sparse_task orphan_corpus None = None.
Proof.
  split.
  - apply (@FindSimilarTasksAdaptive_returns_iff latin1). split.
    + apply sparse_corpus_has_source.
    + left. by apply (bool_decide_unpack _).
  - destruct (@FindSimilarTasksAdaptive latin1 sparse_task orphan_corpus None)
      as [r|] eqn:Hrun; [| done].
    assert (is_Some (@FindSimilarTasksAdaptive latin1 sparse_task orphan_corpus None))
      as Hsome by (rewrite Hrun; eauto).
    apply (@FindSimilarTasksAdaptive_returns_iff latin1) in Hsome as [Hsrc _].
    apply Forall_cons in Hsrc as [_ Hsrc]. apply Forall_cons in Hsrc as [[? Hno] _].
    discriminate Hno.
Defined.

Lemma FindSimilarTasksAdaptive_context_witness :
  ∃ matches context,
    @FindSimilarTasksAdaptive latin1 sparse_task sparse_corpus None
    = Some (matches, context)
    ∧ SimilarityContext.MatchesFound context = len matches
    ∧ (1 ≤ SimilarityContext.ThresholdsTriedCount context ≤ 5)%Z
    ∧ StronglySorted by_similarity_desc matches.
Proof.
  destruct (@FindSimilarTasksAdaptive latin1 sparse_task sparse_corpus None)
    as [[matches context]|] eqn:Hrun; [| by vm_compute in Hrun].
  exists matches, context. split; [done |].
  destruct (@FindSimilarTasksAdaptive_context latin1 sparse_task sparse_corpus None
              matches context Hrun) as (Hfound & _ & Htried & _ & Hsorted & _).
  split; [exact Hfound |]. split; [exact Htried | exact Hsorted].
Defined.

Lemma FindSimilarTasksAdaptive_agrees_witness :
  ∃ matches context,
    @FindSimilarTasksAdaptive latin1 sparse_task sparse_corpus
      (Some DefaultEstimationConfig) = Some (matches, context)
    ∧ match_addresses matches = [1%N; 0%N]
    ∧ @FindSimilarTasks latin1 sparse_task sparse_corpus
        (Some (with_threshold DefaultEstimationConfig
                 (SimilarityContext.ThresholdUsed context)))
      = Some matches.
Proof.
  destruct (@FindSimilarTasksAdaptive latin1 sparse_task sparse_corpus
              (Some DefaultEstimationConfig))
    as [[matches context]|] eqn:Hrun; [| by vm_compute in Hrun].
  exists matches, context. split; [reflexivity |].
  assert (match_addresses matches = [1%N; 0%N]) as Haddr.
  { vm_compute in Hrun. injection Hrun as <- _. vm_compute. reflexivity. }
  split; [exact Haddr |].
  apply (@FindSimilarTasksAdaptive_agrees latin1); [exact Hrun |].
  intros ->. discriminate Haddr.
Defined.

(** ** The exchange sort on a slice that is in order *)

Section exchange_sort_in_order.
Context {A : Type} (out_of_order : A → A → bool).

Lemma carry_in_order cur rest :
  Forall (λ y, out_of_order cur y = false) rest →
  carry out_of_order cur rest = (cur, rest).
Proof.
  induction 1 as [|y rest Hy _ IH]; [done |]. simpl. by rewrite Hy, IH.
Qed.

Lemma exchange_passes_in_order n a :
  StronglySorted (λ x y, out_of_order x y = false) a →
  exchange_passes out_of_order n a = a.
Proof.
  intros Hsorted. revert n.
  induction Hsorted as [|x rest _ IH Hx]; intros [|n]; try done.
  simpl. by rewrite carry_in_order, IH.
Qed.

Lemma exchange_sort_in_order a :
  StronglySorted (λ x y, out_of_order x y = false) a → exchange_sort out_of_order a = a.
Proof. intros Hsorted. rewrite exchange_sort_passes. by apply exchange_passes_in_order. Qed.
End exchange_sort_in_order.

(** [sortBySimilarity] leaves a slice that is in descending order as it
    is, entries of equal score included; so sorting twice is sorting once. *)
Theorem sortBySimilarity_ordered (matches : list SimilarityMatch.t) :
  (StronglySorted by_similarity_desc matches → sortBySimilarity matches = matches)
  ∧ sortBySimilarity (sortBySimilarity matches) = sortBySimilarity matches.
Proof.
  assert (∀ l, StronglySorted by_similarity_desc l → sortBySimilarity l = l) as Hid.
  { intros l Hl. apply exchange_sort_in_order.
    eapply StronglySorted_weaken; [| exact Hl].
    intros x y Hxy. apply bool_decide_eq_false. by apply Qcle_not_lt. }
  split; [apply Hid |]. apply Hid, sortBySimilarity_sorted.
Qed.

Lemma sortBySimilarity_ordered_witness :
  sortBySimilarity ordered_matches = ordered_matches.
Proof.
  apply (proj1 (sortBySimilarity_ordered ordered_matches)).
  unfold ordered_matches.
  repeat first [apply SSorted_nil | apply SSorted_cons | apply Forall_nil_2
               | apply Forall_cons_2];
    unfold by_similarity_desc; cbn [SimilarityMatch.Similarity];
    by apply (bool_decide_unpack _).
Defined.

(** ** Rational arithmetic, by linear reasoning over [Q] *)

Lemma this_dec n d : (this (dec n d) == n # d)%Q.
Proof. unfold dec. simpl. apply Qred_correct. Qed.

Lemma this_Qc_of_Z n : (this (Qc_of_Z n) == inject_Z n)%Q.
Proof. reflexivity. Qed.

Ltac qc_lra :=
  repeat match goal with
  | H : ¬ (_ < _) |- _ => apply Qcnot_lt_le in H
  | H : ¬ (_ ≤ _) |- _ => apply Qcnot_le_lt in H
  | |- _ = _ :> Qc => apply Qc_is_canon
  end;
  unfold Qcle, Qclt, Qcminus in *;
  cbn [this Qcplus Qcmult Qcopp Q2Qc] in *;
  repeat match goal with
         | H : _ |- _ => progress rewrite ?Qred_correct, ?this_dec, ?this_Qc_of_Z in H
         end;
  rewrite ?Qred_correct, ?this_dec, ?this_Qc_of_Z;
  unfold inject_Z in *;
  lra.

(** ** [calculateConfidence] *)

Lemma data_factor_saturates (dataPoints : Z) :
  (5 ≤ dataPoints)%Z →
  (if bool_decide (1 < float64_of_int dataPoints / float64_of_int 5) then 1
   else float64_of_int dataPoints / float64_of_int 5) = 1.
Proof.
  intros Hd. case_bool_decide as Hlt; [done |].
  apply Qcle_antisym; [by apply Qcnot_lt_le |].
  assert (float64_of_int 5 / float64_of_int 5 = 1) as <- by (by apply Qc_is_canon).
  unfold Qcdiv. apply Qcmult_le_compat_r; [| by apply (bool_decide_unpack _)].
  unfold float64_of_int. by apply (proj1 (Z2Qc_inj_le _ _)).
Qed.

Lemma data_factor_monotone (d1 d2 : Z) :
  (d1 ≤ d2)%Z →
  (if bool_decide (1 < float64_of_int d1 / float64_of_int 5) then 1
   else float64_of_int d1 / float64_of_int 5)
  ≤ (if bool_decide (1 < float64_of_int d2 / float64_of_int 5) then 1
     else float64_of_int d2 / float64_of_int 5).
Proof.
  intros Hd.
  assert (float64_of_int d1 / float64_of_int 5 ≤ float64_of_int d2 / float64_of_int 5) as Hle.
  { unfold Qcdiv. apply Qcmult_le_compat_r; [| by apply (bool_decide_unpack _)].
    unfold float64_of_int. by apply (proj1 (Z2Qc_inj_le _ _)). }
  set (f1 := float64_of_int d1 / float64_of_int 5) in *.
  set (f2 := float64_of_int d2 / float64_of_int 5) in *.
  repeat case_bool_decide; qc_lra.
Qed.

(** [calculateConfidence] is capped between 0.3 and 0.9; with matches at
    hand it does not decrease when the number of data points grows, and
    it is the same for every number of data points from five on. *)
Theorem calculateConfidence_capped (similar : list SimilarityMatch.t) (dataPoints : Z) :
  dec 3 10 ≤ calculateConfidence similar dataPoints ≤ dec 9 10
  ∧ (∀ more, (1 ≤ dataPoints ≤ more)%Z →
       calculateConfidence similar dataPoints ≤ calculateConfidence similar more)
  ∧ ((5 ≤ dataPoints)%Z →
       calculateConfidence similar dataPoints = calculateConfidence similar 5).
Proof.
  split; [| split].
  - unfold calculateConfidence. case_bool_decide; [split; qc_lra |]. cbn zeta.
    set (confidence := _ * dec 7 10 + _ * dec 3 10). clearbody confidence.
    repeat case_bool_decide; split; qc_lra.
  - intros more Hmore. unfold calculateConfidence.
    destruct (decide (len similar = 0)%Z) as [Hs | Hs].
    + rewrite !bool_decide_eq_true_2 by tauto. apply Qcle_refl.
    + rewrite !bool_decide_eq_false_2 by lia. cbn zeta.
      pose proof (data_factor_monotone dataPoints more ltac:(lia)) as Hf.
      set (avg := foldl _ 0 similar / _).
      set (f1 := if bool_decide (1 < float64_of_int dataPoints / _) then _ else _) in *.
      set (f2 := if bool_decide (1 < float64_of_int more / _) then _ else _) in *.
      clearbody avg f1 f2.
      repeat case_bool_decide; try (exfalso; lia); qc_lra.
  - intros Hd. unfold calculateConfidence.
    destruct (decide (len similar = 0)%Z) as [Hs | Hs].
    + by rewrite !bool_decide_eq_true_2 by tauto.
    + rewrite (bool_decide_eq_false_2 (_ ∨ dataPoints = 0)%Z) by lia.
      rewrite (bool_decide_eq_false_2 (_ ∨ 5 = 0)%Z) by lia. cbn zeta.
      by rewrite (data_factor_saturates dataPoints), (data_factor_saturates 5) by lia.
Qed.

Lemma calculateConfidence_capped_witness :
  calculateConfidence two_matches 2 ≤ calculateConfidence two_matches 4
  ∧ calculateConfidence two_matches 7 = calculateConfidence two_matches 5
  ∧ calculateConfidence two_matches 7 = dec 72 100.
Proof.
  destruct (calculateConfidence_capped two_matches 2) as (_ & Hmono & _).
  destruct (calculateConfidence_capped two_matches 7) as (_ & _ & Hsat).
  split; [apply Hmono; lia |]. split; [apply Hsat; lia |].
  apply Qc_is_canon. reflexivity.
Defined.

(** ** The size tables *)

Lemma SizeToHours_table :
  SizeToHours (go "XS") = (dec 5 10, Qc_of_Z 2)
  ∧ SizeToHours (go "S") = (Qc_of_Z 2, Qc_of_Z 4)
  ∧ SizeToHours (go "M") = (Qc_of_Z 4, Qc_of_Z 8)
  ∧ SizeToHours (go "L") = (Qc_of_Z 8, Qc_of_Z 16)
  ∧ SizeToHours (go "XL") = (Qc_of_Z 16, Qc_of_Z 40).
Proof. repeat split; reflexivity. Qed.

(** [HoursToSize] inverts [SizeToHours]: every number of hours within the
    range of a size, its upper end excluded, is given that size.  The
    size [HoursToSize] gives always passes the validation of a response,
    and [sizeToPoints] grows with the size. *)
Theorem HoursToSize_inverts_SizeToHours (size : gostring) (hours : float64) :
  (size ∈ sizes →
   (SizeToHours size).1 ≤ hours → hours < (SizeToHours size).2 →
   HoursToSize hours = size)
  ∧ HoursToSize hours ∈ sizes
  ∧ (size ∉ sizes → SizeToHours size = (0, 0) ∧ sizeToPoints size = Qc_of_Z 3)
  ∧ StronglySorted Qclt (sizeToPoints <$> sizes).
Proof.
  split_and!.
  - unfold sizes. rewrite !elem_of_cons, elem_of_nil.
    destruct SizeToHours_table as (Hxs & Hs & Hm & Hl & Hxl).
    intros [-> | [-> | [-> | [-> | [-> | []]]]]];
      rewrite ?Hxs, ?Hs, ?Hm, ?Hl, ?Hxl; cbn [fst snd]; intros Hlo Hhi;
      unfold HoursToSize; repeat case_bool_decide; try reflexivity; exfalso; qc_lra.
  - unfold HoursToSize, sizes. repeat case_bool_decide; set_solver.
  - unfold sizes. rewrite !elem_of_cons, elem_of_nil. intros Hno.
    unfold SizeToHours, sizeToPoints.
    repeat (rewrite bool_decide_eq_false_2 by (intros ->; apply Hno; tauto)). done.
  - unfold sizes.
    repeat first [apply SSorted_nil | apply SSorted_cons | apply Forall_nil_2
                 | apply Forall_cons_2]; by apply (bool_decide_unpack _).
Qed.

Lemma HoursToSize_inverts_SizeToHours_witness :
  HoursToSize (dec 75 10) = go "M".
Proof.
  apply (proj1 (HoursToSize_inverts_SizeToHours (go "M") (dec 75 10))).
  - unfold sizes. set_solver.
  - by apply (bool_decide_unpack _).
  - by apply (bool_decide_unpack _).
Defined.

(** ** [mostCommon] *)

Lemma occurrences_cons x item items :
  occurrences x (item :: items)
  = ((if decide (item = x) then 1 else 0) + occurrences x items)%Z.
Proof.
  unfold occurrences, len. rewrite filter_cons.
  destruct (decide (item = x)); simpl; lia.
Qed.

Lemma occurrences_pos x items : x ∈ items → (1 ≤ occurrences x items)%Z.
Proof.
  induction items as [|item items IH]; [by intros ?%elem_of_nil |].
  rewrite occurrences_cons. intros [-> | Hin]%elem_of_cons.
  - rewrite decide_True by done. unfold occurrences, len. lia.
  - specialize (IH Hin). destruct (decide (item = x)); lia.
Qed.

Lemma occurrences_absent x items : x ∉ items → occurrences x items = 0%Z.
Proof.
  induction items as [|item items IH]; [done |].
  rewrite occurrences_cons, not_elem_of_cons. intros [Hne Hin].
  rewrite decide_False by done. rewrite IH by done. lia.
Qed.

(** The first loop: every item is counted as often as it occurs. *)
Lemma count_items_fold (counts : gmap gostring Z) items x :
  foldl (λ counts item, map_incr item counts) counts items !! x
  = if decide (x ∈ items)
    then Some (default 0 (counts !! x) + occurrences x items)%Z
    else counts !! x.
Proof.
  revert counts. induction items as [|item items IH]; intros counts; [done |].
  cbn [foldl]. rewrite IH, occurrences_cons. unfold map_incr.
  destruct (decide (item = x)) as [-> | Hne].
  - rewrite lookup_insert_eq. cbn [default]. unfold id.
    rewrite (decide_True (P := x ∈ x :: items)) by (by left).
    destruct (decide (x ∈ items)) as [Hin | Hin].
    + f_equal; lia.
    + rewrite (occurrences_absent x items) by done. f_equal; lia.
  - rewrite lookup_insert_ne by done.
    destruct (decide (x ∈ items)) as [Hin | Hin].
    + rewrite decide_True by (by right). f_equal; lia.
    + rewrite decide_False; [done |]. rewrite not_elem_of_cons. split; [done | done].
Qed.

Lemma count_items_lookup items x :
  count_items items !! x
  = if decide (x ∈ items) then Some (occurrences x items) else None.
Proof.
  unfold count_items. rewrite count_items_fold, lookup_empty.
  destruct (decide (x ∈ items)); [| done]. cbn [default]. f_equal; lia.
Qed.

(** The second loop keeps the first entry of the greatest count it meets. *)
Lemma most_of_spec order most maxCount :
  let r := most_of order most maxCount in
  (maxCount ≤ r.1)%Z
  ∧ Forall (λ entry, entry.2 ≤ r.1)%Z order
  ∧ (r = (maxCount, most) ∨ (r.2, r.1) ∈ order).
Proof.
  cbn zeta. revert most maxCount.
  induction order as [|[item count] order IH]; intros most maxCount.
  - split_and!; [done | constructor | by left].
  - unfold most_of. cbn [foldl]. case_bool_decide as Hlt.
    + destruct (IH item count) as (Hle & Hall & Hlast). fold (most_of order item count).
      split_and!; [lia | constructor; [done | done] |]. right.
      destruct Hlast as [-> | Hin]; [by left | by right].
    + destruct (IH most maxCount) as (Hle & Hall & Hlast).
      fold (most_of order most maxCount).
      split_and!; [done | constructor; [simpl; lia | done] |].
      destruct Hlast as [Heq | Hin]; [by left | right; by right].
Qed.

(** Whatever the order in which the map of counts is ranged over,
    [mostCommon] returns an item that no other item occurs more often
    than; of no item at all it returns the empty string. *)
Theorem mostCommon_maximal (order : list (gostring * Z)) (items : list gostring) :
  order ≡ₚ map_to_list (count_items items) →
  (items = [] → mostCommon order items = [])
  ∧ (items ≠ [] →
     mostCommon order items ∈ items
     ∧ ∀ x, (occurrences x items ≤ occurrences (mostCommon order items) items)%Z).
Proof.
  intros Horder. split; [by intros -> |]. intros Hne.
  destruct items as [|item0 rest]; [done |]. cbn [mostCommon].
  set (items := item0 :: rest) in *.
  destruct (most_of_spec order item0 0) as (Hle & Hall & Hlast).
  set (r := most_of order item0 0) in *.
  assert (∀ x, x ∈ items → (x, occurrences x items) ∈ order) as Hentry.
  { intros x Hx. rewrite Horder. apply elem_of_map_to_list.
    rewrite count_items_lookup. by rewrite decide_True. }
  assert (∀ x, x ∈ items → (occurrences x items ≤ r.1)%Z) as Hbound.
  { intros x Hx. apply (proj1 (Forall_forall _ _) Hall _ (Hentry x Hx)). }
  assert ((r.2, r.1) ∈ order) as Hin.
  { destruct Hlast as [Heq | Hin]; [| done].
    pose proof (Hbound item0 ltac:(by left)) as Hb.
    pose proof (occurrences_pos item0 items ltac:(by left)) as Hp.
    rewrite Heq in Hb. simpl in Hb. lia. }
  rewrite Horder in Hin. apply elem_of_map_to_list in Hin.
  rewrite count_items_lookup in Hin.
  destruct (decide (r.2 ∈ items)) as [Hmem |]; [| done]. injection Hin as Hcount.
  split; [done |]. intros x. rewrite Hcount.
  destruct (decide (x ∈ items)) as [Hx | Hx]; [by apply Hbound |].
  rewrite (occurrences_absent x items) by done.
  pose proof (occurrences_pos _ _ Hmem). lia.
Qed.

Lemma mostCommon_maximal_witness :
  let items := [go "bug"; go "feature"; go "bug"] in
  mostCommon (map_to_list (count_items items)) items ∈ items.
Proof.
  cbn zeta.
  apply (mostCommon_maximal (map_to_list (count_items [go "bug"; go "feature"; go "bug"]))
           [go "bug"; go "feature"; go "bug"]); done.
Defined.

(** ** More on [calculateStatistics] *)

Lemma successes_cons r results :
  successes (r :: results)
  = match counted_estimate r with
    | Some est => est :: successes results
    | None => successes results
    end.
Proof. unfold successes. simpl. by destruct (counted_estimate r). Qed.

Lemma successful_hours_successes results :
  successful_hours results = EstimationResponse.EstimatedHours <$> successes results.
Proof. done. Qed.

(** The confidence counters and sums after the loop. *)
Lemma batch_stats_fold_confidence results st :
  let st' := foldl batch_stats_step st results in
  let ests := successes results in
  let conf := EstimationResponse.ConfidenceScore in
  let high := filter (λ e, dec 70 100 ≤ conf e) ests in
  let medium := filter (λ e, dec 50 100 ≤ conf e ∧ conf e < dec 70 100) ests in
  let low := filter (λ e, conf e < dec 50 100) ests in
  BatchStatistics.HighConfidenceTasks (batchLoop.stats st')
  = (BatchStatistics.HighConfidenceTasks (batchLoop.stats st) + len high)%Z
  ∧ BatchStatistics.MediumConfidenceTasks (batchLoop.stats st')
    = (BatchStatistics.MediumConfidenceTasks (batchLoop.stats st) + len medium)%Z
  ∧ BatchStatistics.LowConfidenceTasks (batchLoop.stats st')
    = (BatchStatistics.LowConfidenceTasks (batchLoop.stats st) + len low)%Z
  ∧ batchLoop.confidenceCount st' = (batchLoop.confidenceCount st + len ests)%Z
  ∧ batchLoop.confidenceSum st'
    = batchLoop.confidenceSum st + foldr Qcplus 0 (conf <$> ests)
  ∧ BatchStatistics.AverageConfidence (batchLoop.stats st')
    = BatchStatistics.AverageConfidence (batchLoop.stats st)
  ∧ (len high + len medium + len low)%Z = len ests.
Proof.
  cbn zeta. revert st. induction results as [|r results IH]; intros st.
  - unfold len. simpl. rewrite Qcplus_0_r. split_and!; (lia || done).
  - cbn [foldl]. rewrite successes_cons.
    destruct (IH (batch_stats_step st r)) as (-> & -> & -> & -> & -> & -> & Hsum).
    unfold batch_stats_step. destruct (counted_estimate r) as [est|]; [| done].
    revert Hsum.
    cbn [batchLoop.stats batchLoop.confidenceCount batchLoop.confidenceSum
         BatchStatistics.HighConfidenceTasks BatchStatistics.MediumConfidenceTasks
         BatchStatistics.LowConfidenceTasks BatchStatistics.AverageConfidence
         fmap list_fmap foldr].
    rewrite !filter_cons. unfold len. intros Hsum.
    destruct (decide (dec 70 100 ≤ EstimationResponse.ConfidenceScore est)) as [Hhi | Hhi];
      [| destruct (decide (dec 50 100 ≤ EstimationResponse.ConfidenceScore est))
           as [Hmid | Hmid]].
    + rewrite decide_False by (intros [_ ?]; qc_lra).
      rewrite decide_False by (intros ?; qc_lra).
      rewrite !bool_decide_eq_true_2 by done. cbn [length].
      split_and!; try lia; try done. by rewrite Qcplus_assoc.
    + rewrite decide_True by (split; [done | qc_lra]).
      rewrite decide_False by (intros ?; qc_lra).
      rewrite !(bool_decide_eq_false_2 (dec 70 100 ≤ _)) by done.
      rewrite !bool_decide_eq_true_2 by done. cbn [length].
      split_and!; try lia; try done. by rewrite Qcplus_assoc.
    + rewrite decide_False by (intros [? _]; done).
      rewrite decide_True by qc_lra.
      rewrite !(bool_decide_eq_false_2 (dec 70 100 ≤ _)) by done.
      rewrite !(bool_decide_eq_false_2 (dec 50 100 ≤ _)) by done. cbn [length].
      split_and!; try lia; try done. by rewrite Qcplus_assoc.
Qed.

(** The three confidence counters of the batch statistics split the
    successful results by their confidence score: each success is counted
    by exactly one of them, so they add up to the number of successes; and
    [AverageConfidence] is the mean confidence of the successes. *)
Theorem calculateStatistics_confidence_tiers (results : list BatchResult.t) :
  let stats := calculateStatistics results in
  let ests := successes results in
  let conf := EstimationResponse.ConfidenceScore in
  BatchStatistics.HighConfidenceTasks stats = len (filter (λ e, dec 70 100 ≤ conf e) ests)
  ∧ BatchStatistics.MediumConfidenceTasks stats
    = len (filter (λ e, dec 50 100 ≤ conf e ∧ conf e < dec 70 100) ests)
  ∧ BatchStatistics.LowConfidenceTasks stats = len (filter (λ e, conf e < dec 50 100) ests)
  ∧ (BatchStatistics.HighConfidenceTasks stats + BatchStatistics.MediumConfidenceTasks stats
     + BatchStatistics.LowConfidenceTasks stats)%Z = len ests
  ∧ BatchStatistics.AverageConfidence stats
    = (if decide (ests = []) then 0 else mean (conf <$> ests)).
Proof.
  cbn zeta. unfold calculateStatistics. cbn zeta.
  destruct (batch_stats_fold_confidence results batch_stats_init)
    as (Hhi & Hmid & Hlo & Hcount & Hsum & Havg & Htotal).
  cbn [batch_stats_init batchLoop.stats batchLoop.confidenceCount batchLoop.confidenceSum
       BatchStatistics.HighConfidenceTasks BatchStatistics.MediumConfidenceTasks
       BatchStatistics.LowConfidenceTasks BatchStatistics.AverageConfidence]
    in Hhi, Hmid, Hlo, Hcount, Hsum, Havg.
  cbn [BatchStatistics.HighConfidenceTasks BatchStatistics.MediumConfidenceTasks
       BatchStatistics.LowConfidenceTasks BatchStatistics.AverageConfidence].
  rewrite Hhi, Hmid, Hlo, Hcount, Hsum, Havg, Qcplus_0_l, !Z.add_0_l.
  split_and!; try done.
  destruct (successes results) as [|est ests] eqn:Hests.
  - by rewrite bool_decide_eq_false_2 by (unfold len; simpl; lia).
  - rewrite bool_decide_eq_true_2 by (unfold len; simpl; lia).
    rewrite decide_False by done. unfold mean, len. by rewrite length_fmap.
Qed.

(** ** Least, mean and greatest hours of a batch *)

Lemma fold_min_spec (m : Qc) (values : list Qc) :
  let r := foldl (λ min v, if bool_decide (v < min) then v else min) m values in
  r ≤ m ∧ Forall (λ v, r ≤ v) values ∧ (r = m ∨ r ∈ values).
Proof.
  cbn zeta. revert m. induction values as [|v values IH]; intros m.
  - split_and!; [done | constructor | by left].
  - cbn [foldl]. case_bool_decide as Hlt.
    + destruct (IH v) as (Hle & Hall & Hin).
      split_and!; [etrans; [exact Hle | by apply Qclt_le_weak] | by constructor |].
      right. destruct Hin as [-> | Hin]; [by left | by right].
    + destruct (IH m) as (Hle & Hall & Hin).
      split_and!; [done | constructor; [| done] |].
      * etrans; [exact Hle | by apply Qcnot_lt_le].
      * destruct Hin as [-> | Hin]; [by left | right; by right].
Qed.

Lemma fold_max_spec (m : Qc) (values : list Qc) :
  let r := foldl (λ max v, if bool_decide (max < v) then v else max) m values in
  m ≤ r ∧ Forall (λ v, v ≤ r) values ∧ (r = m ∨ r ∈ values).
Proof.
  cbn zeta. revert m. induction values as [|v values IH]; intros m.
  - split_and!; [done | constructor | by left].
  - cbn [foldl]. case_bool_decide as Hlt.
    + destruct (IH v) as (Hle & Hall & Hin).
      split_and!; [etrans; [by apply Qclt_le_weak | exact Hle] | by constructor |].
      right. destruct Hin as [-> | Hin]; [by left | by right].
    + destruct (IH m) as (Hle & Hall & Hin).
      split_and!; [done | constructor; [| done] |].
      * etrans; [by apply Qcnot_lt_le | exact Hle].
      * destruct Hin as [-> | Hin]; [by left | right; by right].
Qed.

(** In a batch with a success, [MinHours] and [MaxHours] are the hours of
    some successful task, and no successful task has fewer hours than
    [MinHours] or more than [MaxHours]. *)
Theorem calculateStatistics_hours_range (results : list BatchResult.t) :
  let stats := calculateStatistics results in
  let hours := successful_hours results in
  hours ≠ [] →
  BatchStatistics.MinHours stats ∈ hours
  ∧ BatchStatistics.MaxHours stats ∈ hours
  ∧ Forall (λ h, BatchStatistics.MinHours stats ≤ h ≤ BatchStatistics.MaxHours stats) hours.
Proof.
  cbn zeta. intros Hne. unfold calculateStatistics. cbn zeta.
  destruct (batch_stats_fold_hours results batch_stats_init)
    as (Hhours & Htotal & _).
  cbn [batch_stats_init batchLoop.hours batchLoop.stats
       BatchStatistics.TotalEstimatedHours app] in Hhours, Htotal.
  rewrite Qcplus_0_l in Htotal. rewrite Hhours, Htotal.
  cbn [BatchStatistics.MinHours BatchStatistics.MaxHours].
  destruct (successful_hours results) as [|h0 rest] eqn:Heq; [done |].
  rewrite bool_decide_eq_true_2 by (unfold len; simpl; lia).
  cbn [findMin findMax].
  destruct (fold_min_spec h0 rest) as (Hmin0 & Hmin & Hminin).
  destruct (fold_max_spec h0 rest) as (Hmax0 & Hmax & Hmaxin).
  set (lo := foldl (λ min v, if bool_decide (v < min) then v else min) h0 rest) in *.
  set (hi := foldl (λ max v, if bool_decide (max < v) then v else max) h0 rest) in *.
  assert (Forall (λ h, lo ≤ h ≤ hi) (h0 :: rest)) as Hall.
  { constructor; [done |]. apply Forall_forall. intros h Hh. split.
    - by apply (proj1 (Forall_forall _ _) Hmin).
    - by apply (proj1 (Forall_forall _ _) Hmax). }
  split_and!; try done.
  - destruct Hminin as [-> | ?]; [by left | by right].
  - destruct Hmaxin as [-> | ?]; [by left | by right].
Qed.

Lemma calculateStatistics_hours_range_witness :
  let stats := calculateStatistics skewed_results in
  Forall (λ h, BatchStatistics.MinHours stats ≤ h ≤ BatchStatistics.MaxHours stats)
         (successful_hours skewed_results).
Proof.
  cbn zeta.
  destruct (calculateStatistics_hours_range skewed_results) as (_ & _ & Hall).
  - intros Hnil. discriminate Hnil.
  - exact Hall.
Defined.

(** ** [loadHistoricalTasks] *)

Section load_history.
Context `{GoRuntime}.

(** The entries that the loop of [loadHistoricalTasks] builds are
    allocated one after the other. *)
Lemma load_issues_addresses next issues :
  Forall (λ h, next ≤ addr h)%N (load_issues next issues)
  ∧ NoDup (addr <$> load_issues next issues).
Proof.
  revert next. induction issues as [|issue issues IH]; intros next.
  - split; constructor.
  - cbn [load_issues].
    destruct (bool_decide (Issue.State issue ≠ go "closed")); [apply IH |].
    destruct (IH (N.succ next)) as [Hge Hnd].
    assert (Forall (λ h, next ≤ addr h)%N (load_issues (N.succ next) issues)) as Hge'.
    { eapply Forall_impl; [exact Hge |]. intros h Hh. simpl in Hh. lia. }
    destruct (bool_decide (_ ∨ _)); [| by split].
    split; [constructor; [simpl; lia | done] |].
    rewrite fmap_cons. constructor; [| done]. cbn [addr].
    intros Hin. apply list_elem_of_fmap in Hin as (h & Hh & Hmem).
    apply (proj1 (Forall_forall _ _) Hge) in Hmem. lia.
Qed.

Lemma load_issues_entries next issues :
  Forall (λ h, ∃ issue,
            HistoricalTask.Issue (deref h) = Some issue
            ∧ issue ∈ issues
            ∧ Issue.State issue = go "closed"
            ∧ Issue.CustomFields issue ≠ ∅
            ∧ HistoricalTask.ActualHours (deref h)
              = extractFloat (Issue.CustomFields issue)
                  [go "Worker Hours"; go "Hours"; go "Actual Hours"]
            ∧ HistoricalTask.StoryPoints (deref h)
              = extractFloat (Issue.CustomFields issue) [go "Story Points"; go "Points"]
            ∧ HistoricalTask.EstimatedSize (deref h)
              = extractString (Issue.CustomFields issue) [go "Size"; go "Complexity"]
            ∧ (0 < HistoricalTask.ActualHours (deref h)
               ∨ 0 < HistoricalTask.StoryPoints (deref h)
               ∨ HistoricalTask.EstimatedSize (deref h) ≠ []))
         (load_issues next issues)
  ∧ omap (λ h, HistoricalTask.Issue (deref h)) (load_issues next issues)
    `sublist_of` issues.
Proof.
  revert next. induction issues as [|issue issues IH]; intros next.
  - split; [constructor | done].
  - cbn [load_issues].
    assert (∀ n, Forall (λ h, ∃ issue0,
              HistoricalTask.Issue (deref h) = Some issue0
              ∧ issue0 ∈ issue :: issues
              ∧ Issue.State issue0 = go "closed"
              ∧ Issue.CustomFields issue0 ≠ ∅
              ∧ HistoricalTask.ActualHours (deref h)
                = extractFloat (Issue.CustomFields issue0)
                    [go "Worker Hours"; go "Hours"; go "Actual Hours"]
              ∧ HistoricalTask.StoryPoints (deref h)
                = extractFloat (Issue.CustomFields issue0) [go "Story Points"; go "Points"]
              ∧ HistoricalTask.EstimatedSize (deref h)
                = extractString (Issue.CustomFields issue0) [go "Size"; go "Complexity"]
              ∧ (0 < HistoricalTask.ActualHours (deref h)
                 ∨ 0 < HistoricalTask.StoryPoints (deref h)
                 ∨ HistoricalTask.EstimatedSize (deref h) ≠ []))
             (load_issues n issues)) as Hrest.
    { intros n. destruct (IH n) as [Hall _]. eapply Forall_impl; [exact Hall |].
      intros h (issue0 & ? & ? & ? & ? & ? & ? & ? & ?). exists issue0.
      split_and!; [done | by right | done ..]. }
    case_bool_decide as Hstate.
    { destruct (IH next) as [_ Hsub]. split; [apply Hrest | by apply sublist_cons]. }
    destruct (IH (N.succ next)) as [_ Hsub].
    set (filled := bool_decide (0 < size (Issue.CustomFields issue))%nat).
    case_bool_decide as Hdata.
    + split; [| cbn [omap list_omap deref HistoricalTask.Issue]; by apply sublist_skip].
      constructor; [| apply Hrest]. exists issue.
      cbn [deref HistoricalTask.Issue HistoricalTask.ActualHours HistoricalTask.StoryPoints
           HistoricalTask.EstimatedSize] in *.
      destruct filled eqn:Hfilled.
      * apply bool_decide_eq_true in Hfilled.
        split_and!; try done; [by left |].
        intros Hempty. rewrite Hempty, map_size_empty in Hfilled. lia.
      * exfalso. destruct Hdata as [Hd | [Hd | Hd]]; [| | done];
          by apply Qclt_irrefl in Hd || (revert Hd; by apply (bool_decide_unpack (¬ _))).
    + split; [apply Hrest | by apply sublist_cons].
Qed.

(** [loadHistoricalTasks] fails without a store and hands on the error of
    the store.  What it loads are distinct entries, each holding a closed
    issue of the store that has custom fields and yields positive hours,
    positive story points or a size; the issues come in the order of the
    store. *)
Theorem loadHistoricalTasks_entries (e : Estimator.t) :
  (Estimator.storage e = None →
   loadHistoricalTasks e = Err (go "storage not configured"))
  ∧ (∀ store err, Estimator.storage e = Some store → Store.GetAllIssues store = Err err →
       loadHistoricalTasks e = Err err)
  ∧ (∀ store issues, Estimator.storage e = Some store →
       Store.GetAllIssues store = Ok issues →
       ∃ historical,
         loadHistoricalTasks e = Ok historical
         ∧ NoDup (addr <$> historical)
         ∧ omap (λ h, HistoricalTask.Issue (deref h)) historical `sublist_of` issues
         ∧ Forall (λ h, ∃ issue,
                     HistoricalTask.Issue (deref h) = Some issue
                     ∧ issue ∈ issues
                     ∧ Issue.State issue = go "closed"
                     ∧ Issue.CustomFields issue ≠ ∅
                     ∧ HistoricalTask.ActualHours (deref h)
                       = extractFloat (Issue.CustomFields issue)
                           [go "Worker Hours"; go "Hours"; go "Actual Hours"]
                     ∧ HistoricalTask.StoryPoints (deref h)
                       = extractFloat (Issue.CustomFields issue)
                           [go "Story Points"; go "Points"]
                     ∧ HistoricalTask.EstimatedSize (deref h)
                       = extractString (Issue.CustomFields issue)
                           [go "Size"; go "Complexity"]
                     ∧ (0 < HistoricalTask.ActualHours (deref h)
                        ∨ 0 < HistoricalTask.StoryPoints (deref h)
                        ∨ HistoricalTask.EstimatedSize (deref h) ≠ []))
                  historical).
Proof.
  unfold loadHistoricalTasks. split_and!.
  - by intros ->.
  - by intros store err -> ->.
  - intros store issues -> ->. eexists. split; [done |].
    destruct (load_issues_addresses 0 issues) as [_ Hnd].
    destruct (load_issues_entries 0 issues) as [Hall Hsub].
    by split_and!.
Qed.
End load_history.

Lemma loadHistoricalTasks_entries_witness :
  ∃ historical,
    @loadHistoricalTasks latin1 example_estimator = Ok historical
    ∧ addr <$> historical = [0%N; 2%N]
    ∧ NoDup (addr <$> historical).
Proof.
  destruct (@loadHistoricalTasks_entries latin1 example_estimator) as (_ & _ & Hok).
  destruct (Hok example_store _ eq_refl eq_refl) as (historical & Hrun & Hnd & _).
  exists historical. split; [exact Hrun |]. split; [| exact Hnd].
  vm_compute in Hrun. injection Hrun as <-. reflexivity.
Defined.

(** ** [Estimate] *)

Section estimate_correct.
Context `{GoRuntime}.

Lemma loaded_history_wf (e : Estimator.t) :
  Forall has_source (loaded_history e) ∧ NoDup (addr <$> loaded_history e).
Proof.
  unfold loaded_history, loadHistoricalTasks.
  destruct (Estimator.storage e) as [store|]; [| split; constructor].
  destruct (Store.GetAllIssues store) as [issues | err]; [| split; constructor].
  split; [apply load_issues_source | apply load_issues_addresses].
Qed.

Lemma retriever_counts task corpus config matches context :
  Forall has_source corpus →
  FindSimilarTasksAdaptive task corpus config = Some (matches, context) →
  SimilarityContext.MatchesFound context = len matches
  ∧ SimilarityContext.TotalTasksScanned context = len corpus.
Proof.
  intros Hsrc Hrun. rewrite FindSimilarTasksAdaptive_spec in Hrun by done.
  cbn zeta in Hrun.
  destruct (list_find _ thresholds) as [[i threshold]|].
  - destruct (limit_matches _ _) as [best|]; [| done].
    cbn [mbind option_bind] in Hrun. by injection Hrun as <- <-.
  - cbn [mbind option_bind] in Hrun. by injection Hrun as <- <-.
Qed.

Lemma build_request_length task similar stats simContext :
  Forall (λ m, has_source (SimilarityMatch.Task m)) similar →
  length (EstimationRequest.SimilarTasks (build_request task similar stats simContext))
  = length similar.
Proof.
  intros Hsrc. cbn [build_request EstimationRequest.SimilarTasks].
  induction Hsrc as [|m similar [issue Hissue] _ IH]; [done |].
  cbn [omap list_omap]. rewrite Hissue. cbn [mbind option_bind length]. by rewrite IH.
Qed.

(** The shape of a run of [Estimate] that reaches the provider. *)
Lemma Estimate_unfold e task :
  Estimate e task
  = '(similarTasks, simContext) ←
      FindSimilarTasksAdaptive task (loaded_history e) (Some (Estimator.config e));
    let enhancedDataset :=
      selectEnhancedDataset (Estimator.config e) similarTasks (loaded_history e) in
    let datasetStats := calculateDatasetStatistics (loaded_history e) in
    match Estimator.aiProvider e with
    | None => Some (Err no_provider_error)
    | Some provider =>
        if AIProvider.IsAvailable provider
        then
          match AIProvider.EstimateTask provider
                  (build_request task enhancedDataset datasetStats (Some simContext)) with
          | Err err => Some (Err (wrap "AI estimation failed" err))
          | Ok estimation =>
              Some (Ok {| EstimationResult.Task := task;
                          EstimationResult.Estimation := Some estimation;
                          EstimationResult.SimilarTasks := enhancedDataset;
                          EstimationResult.Method := go "ai";
                          EstimationResult.DataSource := go "openai";
                          EstimationResult.DatasetStats := datasetStats;
                          EstimationResult.SimilarityContext := Some simContext |})
          end
        else Some (Err no_provider_error)
    end.
Proof.
  unfold Estimate, loaded_history, estimateWithAI, no_provider_error.
  destruct (FindSimilarTasksAdaptive _ _ _) as [[similarTasks simContext]|]; [| done].
  cbn [mbind option_bind]. destruct (Estimator.aiProvider e) as [provider|]; [| done].
  by destruct (AIProvider.IsAvailable provider).
Qed.

(** A successful estimate names the task it was asked about, the method
    "ai" and the source "openai", and carries the statistics of the
    loaded history.  Its similar tasks are distinct entries of that
    history, begin with the matches that the retriever counted, and are
    no more than the larger of [MaxSimilarTasks] and [MinSimilarTasks];
    the provider that answered was available and was handed one
    description for each of them. *)
Theorem Estimate_result e task r :
  Estimate e task = Some (Ok r) →
  let config := Estimator.config e in
  let historical := loaded_history e in
  EstimationResult.Task r = task
  ∧ EstimationResult.Method r = go "ai"
  ∧ EstimationResult.DataSource r = go "openai"
  ∧ EstimationResult.DatasetStats r = calculateDatasetStatistics historical
  ∧ NoDup (match_addresses (EstimationResult.SimilarTasks r))
  ∧ Forall (λ m, SimilarityMatch.Task m ∈ historical) (EstimationResult.SimilarTasks r)
  ∧ (len (EstimationResult.SimilarTasks r)
     ≤ Z.max 0 (Z.max (EstimationConfig.MaxSimilarTasks config)
                      (EstimationConfig.MinSimilarTasks config)))%Z
  ∧ ∃ provider estimation context,
      Estimator.aiProvider e = Some provider
      ∧ AIProvider.IsAvailable provider = true
      ∧ EstimationResult.SimilarityContext r = Some context
      ∧ SimilarityContext.TotalTasksScanned context = len historical
      ∧ (SimilarityContext.MatchesFound context ≤ len (EstimationResult.SimilarTasks r))%Z
      ∧ EstimationResult.Estimation r = Some estimation
      ∧ AIProvider.EstimateTask provider
          (build_request task (EstimationResult.SimilarTasks r)
             (EstimationResult.DatasetStats r) (Some context)) = Ok estimation
      ∧ length (EstimationRequest.SimilarTasks
                  (build_request task (EstimationResult.SimilarTasks r)
                     (EstimationResult.DatasetStats r) (Some context)))
        = length (EstimationResult.SimilarTasks r).
Proof.
  intros Hrun. cbn zeta. rewrite Estimate_unfold in Hrun.
  destruct (loaded_history_wf e) as [Hsrc Hnd].
  destruct (FindSimilarTasksAdaptive _ _ _) as [[similarTasks simContext]|] eqn:Hfind;
    [| done].
  cbn [mbind option_bind] in Hrun. cbn zeta in Hrun.
  destruct (retriever_output_wf _ _ _ _ _ Hnd Hfind) as (Hnd_s & Hin_s & Hmax).
  destruct (retriever_counts _ _ _ _ _ Hsrc Hfind) as [Hfound Hscanned].
  destruct (selectEnhancedDataset_spec (Estimator.config e) similarTasks (loaded_history e)
              Hnd Hnd_s Hin_s Hmax) as (Hnd_e & Hin_e & Hpre & Hlen).
  destruct (Estimator.aiProvider e) as [provider|]; [| done].
  destruct (AIProvider.IsAvailable provider) eqn:Havail; [| done].
  destruct (AIProvider.EstimateTask provider _) as [estimation | err] eqn:Hanswer; [| done].
  injection Hrun as <-.
  cbn [EstimationResult.Task EstimationResult.Method EstimationResult.DataSource
       EstimationResult.DatasetStats EstimationResult.SimilarTasks
       EstimationResult.SimilarityContext EstimationResult.Estimation].
  split_and!; try done.
  - unfold len in *. destruct Hmax as [Hmax | ->]; cbn [length] in Hlen; lia.
  - exists provider, estimation, simContext. split_and!; try done.
    + rewrite Hfound. apply prefix_length in Hpre. unfold len. lia.
    + apply build_request_length. eapply Forall_impl; [exact Hin_e |].
      intros m Hm. by apply (proj1 (Forall_forall _ _) Hsrc).
Qed.

(** [Estimate] fails in two ways only: with its fixed message when it has
    no provider or one that is not available, and with the error of the
    provider behind the prefix "AI estimation failed".  A store that is
    missing or fails is no error. *)
Theorem Estimate_errors e task err :
  Estimate e task = Some (Err err) →
  (err = no_provider_error
   ∧ ∀ provider, Estimator.aiProvider e = Some provider →
                 AIProvider.IsAvailable provider = false)
  ∨ (∃ provider request cause,
       Estimator.aiProvider e = Some provider
       ∧ AIProvider.IsAvailable provider = true
       ∧ EstimationRequest.TaskTitle request = Task.Title task
       ∧ EstimationRequest.TaskDescription request = Task.Description task
       ∧ AIProvider.EstimateTask provider request = Err cause
       ∧ err = go "AI estimation failed: " ++ cause).
Proof.
  intros Hrun. rewrite Estimate_unfold in Hrun.
  destruct (FindSimilarTasksAdaptive _ _ _) as [[similarTasks simContext]|]; [| done].
  cbn [mbind option_bind] in Hrun. cbn zeta in Hrun.
  destruct (Estimator.aiProvider e) as [provider|].
  - destruct (AIProvider.IsAvailable provider) eqn:Havail.
    + destruct (AIProvider.EstimateTask provider _) as [estimation | cause] eqn:Hanswer;
        [done |].
      injection Hrun as <-. right. eexists provider, (build_request task _ _ _), cause.
      split_and!; [done | done | reflexivity | reflexivity | exact Hanswer |].
      unfold wrap. by rewrite (assoc_L (++)).
    + injection Hrun as <-. left. split; [done |]. by intros ? [= <-].
  - injection Hrun as <-. by left.
Qed.

(** Without a provider, or with one that is not available, [Estimate]
    returns its fixed error whenever [MaxSimilarTasks] is not negative,
    whatever the store holds. *)
Theorem Estimate_without_provider e task :
  (0 ≤ EstimationConfig.MaxSimilarTasks (Estimator.config e))%Z →
  (∀ provider, Estimator.aiProvider e = Some provider →
               AIProvider.IsAvailable provider = false) →
  Estimate e task = Some (Err no_provider_error).
Proof.
  intros Hmax Hoff. destruct (Estimate_returns e task Hmax) as [res Hres].
  rewrite Hres. rewrite Estimate_unfold in Hres.
  destruct (FindSimilarTasksAdaptive _ _ _) as [[similarTasks simContext]|]; [| done].
  cbn [mbind option_bind] in Hres. cbn zeta in Hres.
  destruct (Estimator.aiProvider e) as [provider|]; [| done].
  by rewrite (Hoff provider eq_refl) in Hres.
Qed.

(** When the history cannot be loaded, [Estimate] goes on as over an
    empty store: the provider is asked about the task alone, and a
    successful result has no similar task, no statistics, and a context
    of five levels tried on no task at the configured threshold. *)
Theorem Estimate_without_history e task err :
  loadHistoricalTasks e = Err err →
  Estimate e task = Estimate (with_empty_storage e) task
  ∧ is_Some (Estimate e task)
  ∧ ∀ r, Estimate e task = Some (Ok r) →
      EstimationResult.SimilarTasks r = []
      ∧ EstimationResult.DatasetStats r = None
      ∧ EstimationResult.SimilarityContext r = Some (empty_context (Estimator.config e)).
Proof.
  intros Hload.
  assert (loaded_history e = []) as Hnone.
  { unfold loaded_history. by rewrite Hload. }
  assert (∀ config, FindSimilarTasksAdaptive task [] (Some config)
                    = Some ([], empty_context config)) as Hfind.
  { intros config. rewrite FindSimilarTasksAdaptive_spec by constructor.
    cbn zeta. by rewrite list_find_stops_none. }
  assert (∀ config, selectEnhancedDataset config [] [] = []) as Henh.
  { intros config.
    destruct (selectEnhancedDataset_spec config [] []) as (_ & Hin & _);
      [constructor | constructor | constructor | by right |].
    destruct (selectEnhancedDataset config [] []) as [|m enhanced]; [done |].
    apply Forall_cons in Hin as [Hin _]. by apply elem_of_nil in Hin. }
  assert (Estimate e task
          = match Estimator.aiProvider e with
            | None => Some (Err no_provider_error)
            | Some provider =>
                if AIProvider.IsAvailable provider
                then
                  match AIProvider.EstimateTask provider
                          (build_request task [] None
                             (Some (empty_context (Estimator.config e)))) with
                  | Err cause => Some (Err (wrap "AI estimation failed" cause))
                  | Ok estimation =>
                      Some (Ok {| EstimationResult.Task := task;
                                  EstimationResult.Estimation := Some estimation;
                                  EstimationResult.SimilarTasks := [];
                                  EstimationResult.Method := go "ai";
                                  EstimationResult.DataSource := go "openai";
                                  EstimationResult.DatasetStats := None;
                                  EstimationResult.SimilarityContext :=
                                    Some (empty_context (Estimator.config e)) |})
                  end
                else Some (Err no_provider_error)
            end) as Hrun.
  { rewrite Estimate_unfold, Hnone, Hfind. cbn [mbind option_bind]. cbn zeta.
    by rewrite Henh. }
  split_and!.
  - rewrite Hrun, Estimate_unfold.
    change (loaded_history (with_empty_storage e)) with (@nil (ptr HistoricalTask.t)).
    cbn [with_empty_storage Estimator.config Estimator.aiProvider].
    rewrite Hfind. cbn [mbind option_bind]. cbn zeta. by rewrite Henh.
  - rewrite Hrun. destruct (Estimator.aiProvider e) as [provider|]; [| eauto].
    destruct (AIProvider.IsAvailable provider); [| eauto].
    destruct (AIProvider.EstimateTask provider _); eauto.
  - intros r Hr. rewrite Hrun in Hr.
    destruct (Estimator.aiProvider e) as [provider|]; [| done].
    destruct (AIProvider.IsAvailable provider); [| done].
    destruct (AIProvider.EstimateTask provider _); [| done].
    by injection Hr as <-.
Qed.
End estimate_correct.

Lemma Estimate_result_witness :
  ∃ r, @Estimate latin1 example_estimator (example_task "alpha beta gamma" []) = Some (Ok r)
       ∧ EstimationResult.Method r = go "ai"
       ∧ NoDup (match_addresses (EstimationResult.SimilarTasks r)).
Proof.
  destruct (@Estimate latin1 example_estimator (example_task "alpha beta gamma" []))
    as [[r | err]|] eqn:Hrun.
  - exists r. split; [reflexivity |].
    destruct (@Estimate_result latin1 _ _ _ Hrun) as (_ & Hmethod & _ & _ & Hnd & _).
    split; [exact Hmethod | exact Hnd].
  - vm_compute in Hrun. discriminate Hrun.
  - vm_compute in Hrun. discriminate Hrun.
Defined.

Lemma Estimate_errors_witness :
  ∃ provider request cause,
    Estimator.aiProvider flaky_estimator = Some provider
    ∧ AIProvider.IsAvailable provider = true
    ∧ EstimationRequest.TaskTitle request = go "bad"
    ∧ EstimationRequest.TaskDescription request = []
    ∧ AIProvider.EstimateTask provider request = Err cause
    ∧ go "AI estimation failed: provider failure" = go "AI estimation failed: " ++ cause.
Proof.
  assert (@Estimate latin1 flaky_estimator (example_task "bad" [])
          = Some (Err (go "AI estimation failed: provider failure"))) as Hrun
    by (vm_compute; reflexivity).
  destruct (@Estimate_errors latin1 _ _ _ Hrun) as [[Hno _] | Hcause].
  - vm_compute in Hno. discriminate Hno.
  - exact Hcause.
Defined.

Lemma Estimate_without_provider_witness :
  @Estimate latin1 offline_estimator (example_task "alpha beta gamma" [])
  = Some (Err no_provider_error).
Proof.
  apply (@Estimate_without_provider latin1 offline_estimator).
  - vm_compute. discriminate.
  - intros provider Hp. injection Hp as <-. reflexivity.
Defined.

Lemma Estimate_without_history_witness :
  @Estimate latin1 flaky_estimator (example_task "good" [])
  = @Estimate latin1 (with_empty_storage flaky_estimator) (example_task "good" []).
Proof.
  exact (proj1 (@Estimate_without_history latin1 flaky_estimator (example_task "good" [])
                  (go "storage not configured") eq_refl)).
Defined.

(** ** [extractJSONFromMarkdown] *)

Section extract_correct.
Context `{GoRuntime}.

Lemma trim_left_app pre r s :
  unicode_IsSpace r = false → trim_left (pre ++ r :: s) = trim_left pre ++ r :: s.
Proof.
  intros Hr. induction pre as [|c pre IH]; simpl; [by rewrite Hr |].
  by destruct (unicode_IsSpace c).
Qed.

Lemma trim_left_all_space s : all_space s → trim_left s = [].
Proof.
  induction 1 as [|c s Hc _ IH]; simpl; [done |]. by rewrite Hc.
Qed.

Lemma trim_left_subseteq s : trim_left s ⊆ s.
Proof.
  induction s as [|c s IH]; simpl; [done |].
  destruct (unicode_IsSpace c); [| done]. by apply list_subseteq_cons.
Qed.

(** Trimming a text whose core begins and ends with characters that are
    no white space only trims what surrounds the core. *)
Lemma strings_TrimSpace_around pre first core last post :
  unicode_IsSpace first = false → unicode_IsSpace last = false →
  strings_TrimSpace (pre ++ (first :: core ++ [last]) ++ post)
  = trim_left pre ++ (first :: core ++ [last]) ++ reverse (trim_left (reverse post)).
Proof.
  intros Hfirst Hlast. unfold strings_TrimSpace.
  set (kept := trim_left pre ++ first :: core).
  assert (trim_left (pre ++ (first :: core ++ [last]) ++ post) = kept ++ last :: post) as ->.
  { rewrite <-app_comm_cons, trim_left_app by done. unfold kept.
    by rewrite <-?(assoc_L (++)), <-?app_comm_cons, <-?(assoc_L (++)). }
  rewrite reverse_app, reverse_cons, <-(assoc_L (++)). cbn [app].
  rewrite trim_left_app by done.
  rewrite reverse_app, reverse_cons, reverse_involutive. unfold kept.
  by rewrite <-?(assoc_L (++)), <-?app_comm_cons, <-?(assoc_L (++)).
Qed.

Lemma strings_TrimSpace_core first core last :
  unicode_IsSpace first = false → unicode_IsSpace last = false →
  strings_TrimSpace (first :: core ++ [last]) = first :: core ++ [last].
Proof.
  intros Hfirst Hlast.
  pose proof (strings_TrimSpace_around [] first core last [] Hfirst Hlast) as Htrim.
  cbn [app trim_left] in Htrim. rewrite reverse_nil in Htrim. cbn [trim_left] in Htrim.
  by rewrite reverse_nil, !(right_id_L [] (++)) in Htrim.
Qed.

Lemma split_lines_app cur s t :
  split_lines cur (s ++ 10%N :: t) = split_lines cur s ++ split_lines [] t.
Proof.
  revert cur. induction s as [|r s IH]; intros cur; simpl.
  - done.
  - case_bool_decide; by rewrite IH.
Qed.

Lemma split_lines_one cur s : 10%N ∉ s → split_lines cur s = [cur ++ s].
Proof.
  revert cur. induction s as [|r s IH]; intros cur Hnl; simpl.
  - by rewrite (right_id_L [] (++)).
  - apply not_elem_of_cons in Hnl as [Hr Hnl].
    rewrite bool_decide_eq_false_2 by done. rewrite IH by done.
    by rewrite <-(assoc_L (++)).
Qed.

Lemma split_lines_cons cur s : ∃ lines, split_lines cur s = lines ∧ lines ≠ [].
Proof.
  destruct s as [|r s]; simpl; [by eexists |].
  case_bool_decide; [by eexists |].
  eexists. split; [done |]. revert cur. generalize r.
  induction s as [|r' s IH]; intros r0 cur; simpl; [done |].
  case_bool_decide; [done | apply IH].
Qed.

Lemma join_split_lines cur s : join_lines (split_lines cur s) = cur ++ s.
Proof.
  revert cur. induction s as [|r s IH]; intros cur; simpl.
  - by rewrite (right_id_L [] (++)).
  - case_bool_decide as Hr.
    + specialize (IH []). destruct (split_lines_cons [] s) as (lines & Hlines & Hne).
      rewrite Hlines in IH |- *. destruct lines as [|line lines]; [done |].
      change (join_lines (cur :: line :: lines))
        with (cur ++ 10%N :: join_lines (line :: lines)).
      by rewrite IH, Hr.
    + rewrite IH. by rewrite <-(assoc_L (++)).
Qed.

Lemma cut_at_fence_app lines fence rest :
  Forall (λ line, strings_TrimSpace line ≠ go "```") lines →
  strings_TrimSpace fence = go "```" →
  cut_at_fence (lines ++ fence :: rest) = lines.
Proof.
  intros Hlines Hfence. induction Hlines as [|line lines Hline _ IH]; simpl.
  - by rewrite bool_decide_eq_true_2.
  - rewrite bool_decide_eq_false_2 by done. by rewrite IH.
Qed.

Lemma match_brace_app braceCount object s t r :
  match_brace braceCount object s = Some r →
  match_brace braceCount object (s ++ t) = Some r.
Proof.
  revert braceCount object. induction s as [|c s IH]; intros braceCount object; simpl;
    [done |].
  repeat case_bool_decide; auto.
Qed.

Lemma match_brace_closes braceCount object s r :
  match_brace braceCount object s = Some r → ∃ r', r = r' ++ [125%N].
Proof.
  revert braceCount object. induction s as [|c s IH]; intros braceCount object; simpl;
    [done |].
  repeat case_bool_decide; eauto.
  intros [= <-]. subst c. eauto.
Qed.

Lemma from_first_brace_app pre rest :
  123%N ∉ pre → from_first_brace (pre ++ 123%N :: rest) = Some (123%N :: rest).
Proof.
  induction pre as [|c pre IH]; intros Hpre; simpl.
  - done.
  - apply not_elem_of_cons in Hpre as [Hc Hpre].
    rewrite bool_decide_eq_false_2 by done. by apply IH.
Qed.

(** The shape of a complete object. *)
Lemma complete_object_shape obj :
  complete_object obj → ∃ core, obj = 123%N :: core ++ [125%N].
Proof.
  intros [Hhead Hclose]. destruct obj as [|c obj]; [done |].
  injection Hhead as ->.
  apply match_brace_closes in Hclose as (r' & Hr').
  destruct r' as [|c r']; [done |]. injection Hr' as <- ->. eauto.
Qed.

(** The brace search on a text that holds a complete object after a
    stretch without braces. *)
Lemma brace_search pre obj post :
  complete_object obj → 123%N ∉ pre →
  match from_first_brace (pre ++ obj ++ post) with
  | Some from_start => default (pre ++ obj ++ post) (match_brace 0 [] from_start)
  | None => pre ++ obj ++ post
  end = obj.
Proof.
  intros Hobj Hpre. destruct (complete_object_shape obj Hobj) as (core & Hshape).
  destruct Hobj as [_ Hclose].
  rewrite Hshape at 1. rewrite <-app_comm_cons, from_first_brace_app by done.
  rewrite app_comm_cons, <-Hshape. by rewrite (match_brace_app _ _ _ post obj).
Qed.

(** An object in a code fence, as providers answer, is unwrapped: of a
    text made of an opening fence with a language tag, the lines of a
    complete object, and a closing fence, with white space around,
    [extractJSONFromMarkdown] returns the object. *)
Theorem extractJSONFromMarkdown_fenced (before lang obj after : gostring) :
  marks_not_space →
  all_space before → all_space after →
  10%N ∉ lang → 
  complete_object obj →
  Forall (λ line, strings_TrimSpace line ≠ go "```") (split_lines [] obj) →
  extractJSONFromMarkdown
    (before ++ (go "```" ++ lang ++ 10%N :: obj ++ 10%N :: go "```") ++ after)
  = obj.
Proof.
  intros (Hopen & Hclose & Htick) Hbefore Hafter Hlang Hobj Hlines.
  destruct (complete_object_shape obj Hobj) as (core & Hshape).
  unfold extractJSONFromMarkdown.
  set (fenced := go "```" ++ lang ++ 10%N :: obj ++ 10%N :: go "```").
  assert (strings_TrimSpace (before ++ fenced ++ after) = fenced) as ->.
  { assert (fenced = 96%N :: (go "``" ++ lang ++ 10%N :: obj ++ 10%N :: go "``") ++ [96%N])
      as ->.
    { unfold fenced. change (go "```") with (96%N :: go "``") at 1.
      change (go "```") with (go "``" ++ [96%N]).
      cbn [app]. by rewrite <-?(assoc_L (++)), <-?app_comm_cons, <-?(assoc_L (++)). }
    rewrite strings_TrimSpace_around by done.
    rewrite trim_left_all_space by done.
    rewrite trim_left_all_space by (by apply Forall_reverse).
    by rewrite reverse_nil, (right_id_L [] (++)). }
  rewrite bool_decide_eq_true_2 by done.
  assert (split_lines [] fenced
          = (go "```" ++ lang) :: split_lines [] obj ++ [go "```"]) as Hsplit.
  { unfold fenced. rewrite (assoc_L (++)), split_lines_app, split_lines_app.
    rewrite (split_lines_one [] (go "```" ++ lang)).
    - rewrite (split_lines_one [] (go "```")); [done |].
      by apply (bool_decide_unpack _).
    - rewrite not_elem_of_app. split; [by apply (bool_decide_unpack _) | done]. }
  rewrite Hsplit.
  destruct (split_lines_cons [] obj) as (lines & Hl & Hne).
  rewrite bool_decide_eq_true_2.
  2:{ unfold len. cbn [length]. rewrite length_app. cbn [length].
      rewrite Hl. destruct lines; [done | simpl; lia]. }
  cbn [drop]. rewrite drop_0.
  rewrite cut_at_fence_app; [| done |].
  2:{ apply strings_TrimSpace_core with (first := 96%N) (core := [96%N]) (last := 96%N);
        done. }
  rewrite join_split_lines. cbn [app].
  pose proof (brace_search [] obj [] Hobj) as Hsearch.
  rewrite (right_id_L [] (++)) in Hsearch. cbn [app] in Hsearch.
  etrans; [apply (f_equal strings_TrimSpace), Hsearch, not_elem_of_nil |].
  rewrite Hshape. by apply strings_TrimSpace_core.
Qed.

(** An object in prose is extracted: of a text that holds a complete
    object after a stretch with no brace and no backquote,
    [extractJSONFromMarkdown] returns the object, whatever follows it. *)
Theorem extractJSONFromMarkdown_prose (pre obj post : gostring) :
  marks_not_space →
  123%N ∉ pre → 96%N ∉ pre →
  complete_object obj →
  extractJSONFromMarkdown (pre ++ obj ++ post) = obj.
Proof.
  intros (Hopen & Hclose & Htick) Hbrace Hquote Hobj.
  destruct (complete_object_shape obj Hobj) as (core & Hshape).
  unfold extractJSONFromMarkdown.
  assert (strings_TrimSpace (pre ++ obj ++ post)
          = trim_left pre ++ obj ++ reverse (trim_left (reverse post))) as ->.
  { rewrite Hshape. by apply strings_TrimSpace_around. }
  pose proof (trim_left_subseteq pre) as Hsub.
  rewrite bool_decide_eq_false_2.
  2:{ destruct (trim_left pre) as [|c pre'] eqn:Hpre.
      - rewrite Hshape. cbn [app take]. intros [=].
      - cbn [app take]. intros [= -> _]. apply Hquote, Hsub. by left. }
  rewrite brace_search; [| done |].
  - rewrite Hshape. by apply strings_TrimSpace_core.
  - intros Hin. by apply Hbrace, Hsub.
Qed.
End extract_correct.

Lemma extractJSONFromMarkdown_fenced_witness :
  @extractJSONFromMarkdown latin1 fenced_answer = example_object.
Proof.
  apply (@extractJSONFromMarkdown_fenced latin1 (go " ") (go "json") example_object (go " ")).
  - split; [reflexivity | split; reflexivity].
  - repeat constructor.
  - repeat constructor.
  - apply (bool_decide_unpack _). vm_compute. reflexivity.
  - split; vm_compute; reflexivity.
  - apply (bool_decide_unpack _). vm_compute. reflexivity.
Defined.

Lemma extractJSONFromMarkdown_prose_witness :
  @extractJSONFromMarkdown latin1 prose_answer = example_object.
Proof.
  apply (@extractJSONFromMarkdown_prose latin1 (go "Here is the estimate: ") example_object
           (go " Hope it helps {!}")).
  - split; [reflexivity | split; reflexivity].
  - apply (bool_decide_unpack _). vm_compute. reflexivity.
  - apply (bool_decide_unpack _). vm_compute. reflexivity.
  - split; vm_compute; reflexivity.
Defined.

(** ** The loaders of batch.go *)

Section loaders_correct.
Context `{GoRuntime}.

Lemma trim_left_shape s :
  trim_left s = [] ∨ ∃ r t, trim_left s = r :: t ∧ unicode_IsSpace r = false.
Proof.
  induction s as [|c s IH]; simpl; [by left |].
  destruct (unicode_IsSpace c) eqn:Hc; [done | right; eauto].
Qed.

Lemma trim_left_suffix s : trim_left s `suffix_of` s.
Proof.
  induction s as [|c s IH]; simpl; [done |].
  destruct (unicode_IsSpace c); [by apply suffix_cons_r | done].
Qed.

Lemma trim_left_fixed r t : unicode_IsSpace r = false → trim_left (r :: t) = r :: t.
Proof. intros Hr. simpl. by rewrite Hr. Qed.

(** What [strings.TrimSpace] returns is empty or begins and ends with
    characters that are no white space. *)
Lemma strings_TrimSpace_shape s :
  strings_TrimSpace s = []
  ∨ ∃ first last,
      head (strings_TrimSpace s) = Some first
      ∧ head (reverse (strings_TrimSpace s)) = Some last
      ∧ unicode_IsSpace first = false ∧ unicode_IsSpace last = false.
Proof.
  unfold strings_TrimSpace. rewrite reverse_involutive.
  destruct (trim_left_shape (reverse (trim_left s))) as [-> | (last & t & Ht & Hlast)];
    [by left |].
  right. destruct (trim_left_suffix (reverse (trim_left s))) as [ws Hws].
  destruct (trim_left_shape s) as [Hnil | (first & t1 & Ht1 & Hfirst)].
  { rewrite Hnil, reverse_nil in Ht. done. }
  exists first, last. rewrite Ht. split_and!; [| done | done | done].
  apply (f_equal reverse) in Hws.
  rewrite reverse_involutive, reverse_app, Ht in Hws. rewrite Ht1 in Hws.
  destruct (reverse (last :: t)) as [|c t'] eqn:Hrt.
  { apply (f_equal length) in Hrt. rewrite length_reverse in Hrt. done. }
  cbn [app] in Hws. by injection Hws as <- _.
Qed.

Lemma strings_TrimSpace_idemp s :
  strings_TrimSpace (strings_TrimSpace s) = strings_TrimSpace s.
Proof.
  destruct (strings_TrimSpace_shape s) as [-> | (first & last & Hf & Hl & Hfs & Hls)];
    [done |].
  set (t := strings_TrimSpace s) in *. clearbody t. unfold strings_TrimSpace.
  destruct t as [|c t]; [done |]. injection Hf as ->.
  rewrite trim_left_fixed by done.
  destruct (reverse (first :: t)) as [|c t'] eqn:Hrt; [done |]. injection Hl as ->.
  rewrite trim_left_fixed by done. by rewrite <-Hrt, reverse_involutive.
Qed.

Lemma splitAndTrim_fold parts l :
  foldl (λ parts part,
           let trimmed := strings_TrimSpace part in
           if bool_decide (trimmed ≠ []) then parts ++ [trimmed] else parts) parts l
  = parts ++ filter (λ p, p ≠ []) (strings_TrimSpace <$> l).
Proof.
  revert parts. induction l as [|part l IH]; intros parts; cbn [foldl].
  - by rewrite fmap_nil, filter_nil, (right_id_L [] (++)).
  - rewrite IH, fmap_cons, filter_cons. case_bool_decide as Hne.
    + rewrite decide_True by done. by rewrite <-(assoc_L (++)).
    + rewrite decide_False by naive_solver. done.
Qed.

(** The parts that [splitAndTrim] returns are trimmed and not empty. *)
Lemma splitAndTrim_clean s sep :
  Forall (λ p, p ≠ [] ∧ strings_TrimSpace p = p) (splitAndTrim s sep).
Proof.
  unfold splitAndTrim. case_bool_decide; [constructor |].
  rewrite splitAndTrim_fold. cbn [app]. apply Forall_forall. intros p Hp.
  apply list_elem_of_filter in Hp as [Hne Hp].
  apply list_elem_of_fmap in Hp as (part & -> & _).
  split; [done | apply strings_TrimSpace_idemp].
Qed.

Lemma split_from_part c cur p rest :
  c ∉ p →
  split_from [c] cur (p ++ c :: rest) 0 = (cur ++ p) :: split_from [c] [] rest 0.
Proof.
  revert cur. induction p as [|r p IH]; intros cur Hc.
  - cbn [app split_from length take]. rewrite bool_decide_eq_true_2 by done.
    by rewrite (right_id_L [] (++)).
  - apply not_elem_of_cons in Hc as [Hr Hc]. cbn [app split_from length take].
    rewrite bool_decide_eq_false_2 by (intros [= ->]; done).
    rewrite IH by done. by rewrite <-(assoc_L (++)).
Qed.

Lemma split_from_last c cur p : c ∉ p → split_from [c] cur p 0 = [cur ++ p].
Proof.
  revert cur. induction p as [|r p IH]; intros cur Hc.
  - cbn [split_from]. by rewrite (right_id_L [] (++)).
  - apply not_elem_of_cons in Hc as [Hr Hc]. cbn [split_from length take].
    rewrite bool_decide_eq_false_2 by (intros [= ->]; done).
    rewrite IH by done. by rewrite <-(assoc_L (++)).
Qed.

(** [strings.Split] undoes a join with a separator that the parts do not
    contain. *)
Lemma split_join_parts c part parts :
  Forall (λ p, c ∉ p) (part :: parts) →
  split_from [c] [] (strings_Join (part :: parts) [c]) 0 = part :: parts.
Proof.
  revert part. induction parts as [|q parts IH]; intros part Hall.
  - apply Forall_cons in Hall as [Hpart _]. cbn [strings_Join].
    by rewrite split_from_last.
  - apply Forall_cons in Hall as [Hpart Hall].
    change (strings_Join (part :: q :: parts) [c])
      with (part ++ c :: strings_Join (q :: parts) [c]).
    rewrite split_from_part by done. by rewrite IH.
Qed.

(** [splitAndTrim] of parts joined by a separator that they do not
    contain returns the parts, each trimmed, without those that are empty
    or only white space; what it returns of any text, by any separator,
    is trimmed and not empty. *)
Theorem splitAndTrim_join (c : rune) (parts : list gostring) :
  Forall (λ p, c ∉ p) parts →
  splitAndTrim (strings_Join parts [c]) [c]
  = filter (λ p, p ≠ []) (strings_TrimSpace <$> parts)
  ∧ ∀ s sep, Forall (λ p, p ≠ [] ∧ strings_TrimSpace p = p) (splitAndTrim s sep).
Proof.
  intros Hparts. split; [| apply splitAndTrim_clean].
  unfold splitAndTrim, strings_Split. case_bool_decide as Hempty.
  - destruct parts as [|part [|q parts]]; [done | |].
    + cbn [strings_Join] in Hempty. by subst part.
    + apply (f_equal length) in Hempty. cbn [strings_Join] in Hempty.
      rewrite !length_app in Hempty. simpl in Hempty. lia.
  - rewrite bool_decide_eq_false_2 by done.
    destruct parts as [|part parts]; [done |].
    rewrite split_join_parts by done. by rewrite splitAndTrim_fold.
Qed.

(** *** [LoadBatchRequestFromCSV] *)

Lemma fill_columns_None i header colMap col :
  fill_columns i header colMap !! col = None ↔ (col ∉ header) ∧ colMap !! col = None.
Proof.
  revert i colMap. induction header as [|c header IH]; intros i colMap; simpl.
  - split; [intros; split; [apply not_elem_of_nil | done] | by intros [_ ?]].
  - rewrite IH, lookup_insert_None, not_elem_of_cons. naive_solver.
Qed.

Lemma fill_columns_Some i header colMap col idx :
  fill_columns i header colMap !! col = Some idx →
  (∃ j : nat, header !! j = Some col ∧ idx = (i + Z.of_nat j)%Z
              ∧ ∀ j', (j < j')%nat → header !! j' ≠ Some col)
  ∨ ((col ∉ header) ∧ colMap !! col = Some idx).
Proof.
  revert i colMap. induction header as [|c header IH]; intros i colMap; simpl.
  - intros Hidx. right. split; [apply not_elem_of_nil | done].
  - intros Hidx. apply IH in Hidx as [(j & Hj & -> & Hlast) | [Hnot Hidx]].
    + left. exists (S j). split_and!; [done | lia |].
      intros [|j'] Hlt; [lia |]. simpl. apply Hlast. lia.
    + destruct (decide (c = col)) as [-> | Hne].
      * rewrite lookup_insert_eq in Hidx. injection Hidx as <-.
        left. exists 0%nat. split_and!; [done | lia |].
        intros [|j'] Hlt; [lia |]. simpl. intros Hj'.
        by apply list_elem_of_lookup_2 in Hj'.
      * rewrite lookup_insert_ne in Hidx by done. right.
        by rewrite not_elem_of_cons.
Qed.

Lemma csv_task_reaches colMap titleIdx i record :
  (titleIdx < len record)%Z →
  ∃ task, csv_task colMap titleIdx i record = Some task
          ∧ BatchTask.Title task = cell record titleIdx.
Proof.
  intros Hlen. unfold csv_task. rewrite bool_decide_eq_false_2 by lia. eauto.
Qed.

Lemma csv_task_skips colMap titleIdx i record :
  (len record ≤ titleIdx)%Z → csv_task colMap titleIdx i record = None.
Proof. intros Hlen. unfold csv_task. by rewrite bool_decide_eq_true_2. Qed.

Lemma csv_rows_fmap {A} (f : BatchTask.t → A) (g : list gostring → A)
    colMap titleIdx i rows tasks :
  (∀ i row task, csv_task colMap titleIdx i row = Some task → f task = g row) →
  f <$> csv_rows colMap titleIdx i rows tasks
  = (f <$> tasks) ++ (g <$> filter (λ row, (titleIdx < len row)%Z) rows).
Proof.
  intros Hfg. revert i tasks. induction rows as [|row rows IH]; intros i tasks.
  - cbn [csv_rows]. by rewrite filter_nil, fmap_nil, (right_id_L [] (++)).
  - cbn [csv_rows]. rewrite filter_cons.
    destruct (decide (titleIdx < len row)%Z) as [Hlen | Hlen].
    + destruct (csv_task_reaches colMap titleIdx i row Hlen) as (task & Htask & _).
      rewrite Htask, IH, fmap_app, fmap_cons, <-(assoc_L (++)). cbn [fmap list_fmap app].
      by rewrite (Hfg _ _ _ Htask).
    + rewrite csv_task_skips by lia. apply IH.
Qed.

Lemma csv_rows_Forall (Q : BatchTask.t → Prop) colMap titleIdx i rows tasks :
  (∀ i row task, csv_task colMap titleIdx i row = Some task → Q task) →
  Forall Q tasks → Forall Q (csv_rows colMap titleIdx i rows tasks).
Proof.
  intros HQ. revert i tasks. induction rows as [|row rows IH]; intros i tasks Htasks.
  - done.
  - cbn [csv_rows]. destruct (csv_task colMap titleIdx i row) as [task|] eqn:Htask.
    + apply IH. apply Forall_app. split; [done |]. constructor; [| done]. eauto.
    + by apply IH.
Qed.

Lemma reached_cells (n : nat) (rows : list (list gostring)) :
  (λ row, cell row (Z.of_nat n)) <$> filter (λ row, (Z.of_nat n < len row)%Z) rows
  = omap (λ row, row !! n) rows.
Proof.
  induction rows as [|row rows IH]; [done |].
  rewrite filter_cons. cbn [omap list_omap].
  destruct (row !! n) as [c|] eqn:Hc.
  - rewrite decide_True
      by (unfold len; apply Nat2Z.inj_lt; by eapply lookup_lt_Some).
    rewrite fmap_cons, IH. cbn beta. unfold cell. rewrite Nat2Z.id.
    f_equal. exact (f_equal (default []) Hc).
  - rewrite decide_False
      by (unfold len; apply Z.le_ngt, Nat2Z.inj_le; by apply lookup_ge_None).
    apply IH.
Qed.

Lemma Sprintf_TASK_03d_not_empty n : Sprintf_TASK_03d n ≠ [].
Proof. unfold Sprintf_TASK_03d. intros Heq. apply (f_equal length) in Heq. done. Qed.

(** [LoadBatchRequestFromCSV] on the records of a file: it fails with
    less than two records, without a column "title", and when no row
    reaches that column.  Otherwise the column is the last one named
    "title", and the tasks are, in order, those of the rows that reach
    it, with the cell there as title; no task has an empty ID, and the
    labels are trimmed and not empty. *)
Theorem LoadBatchRequestFromCSV_rows (records : list (list gostring)) :
  let header := default [] (head records) in
  let rows := drop 1 records in
  match LoadBatchRequestFromCSV (Records records) with
  | Err err =>
      ((len records < 2)%Z ∧ err = go "CSV file is empty or has no data rows")
      ∨ ((2 ≤ len records)%Z ∧ (go "title" ∉ header)
         ∧ err = go "CSV must have 'title' column")
      ∨ ((2 ≤ len records)%Z
         ∧ (∃ titleIdx : nat,
              header !! titleIdx = Some (go "title")
              ∧ (∀ j, (titleIdx < j)%nat → header !! j ≠ Some (go "title"))
              ∧ Forall (λ row, row !! titleIdx = None) rows)
         ∧ err = go "no valid tasks found in CSV")
  | Ok request =>
      (2 ≤ len records)%Z
      ∧ BatchRequest.Tasks request ≠ []
      ∧ (∃ titleIdx : nat,
           header !! titleIdx = Some (go "title")
           ∧ (∀ j, (titleIdx < j)%nat → header !! j ≠ Some (go "title"))
           ∧ BatchTask.Title <$> BatchRequest.Tasks request
             = omap (λ row, row !! titleIdx) rows)
      ∧ Forall (λ task,
                  BatchTask.ID task ≠ []
                  ∧ Forall (λ label, label ≠ [] ∧ strings_TrimSpace label = label)
                           (BatchTask.Labels task))
               (BatchRequest.Tasks request)
  end.
Proof.
  cbn zeta. unfold LoadBatchRequestFromCSV.
  case_bool_decide as Hcount; [by left |].
  set (header := default [] (head records)).
  set (colMap := fill_columns 0 header ∅).
  destruct (colMap !! go "title") as [titleIdx|] eqn:Htitle.
  2:{ right. left. apply fill_columns_None in Htitle as [Hnot _].
      split_and!; [lia | done | done]. }
  apply fill_columns_Some in Htitle as [(n & Hn & -> & Hlast) | [_ Hempty]];
    [| by rewrite lookup_empty in Hempty].
  rewrite Z.add_0_l.
  assert (BatchTask.Title <$> csv_rows colMap (Z.of_nat n) 0 (drop 1 records) []
          = omap (λ row, row !! n) (drop 1 records)) as Htitles.
  { rewrite (csv_rows_fmap _ (λ row, cell row (Z.of_nat n))).
    - cbn [fmap list_fmap app]. apply reached_cells.
    - intros i row task Htask. unfold csv_task in Htask.
      case_bool_decide; [done |]. by injection Htask as <-. }
  case_bool_decide as Hnone.
  - right. right. split_and!; [lia | | done].
    exists n. split_and!; [done | done |].
    destruct (csv_rows colMap (Z.of_nat n) 0 (drop 1 records) []) as [|task tasks];
      [| done].
    cbn [fmap list_fmap] in Htitles. symmetry in Htitles.
    clear -Htitles. induction (drop 1 records) as [|row rows IH]; [constructor |].
    cbn [omap list_omap] in Htitles.
    destruct (row !! n) eqn:Hrow; [done |]. constructor; [done | by apply IH].
  - cbn [BatchRequest.Tasks]. split_and!; [lia | | eauto |].
    + intros Htasks. by rewrite Htasks in Hnone.
    + apply csv_rows_Forall; [| constructor].
      intros i row task Htask. unfold csv_task in Htask.
      case_bool_decide; [done |]. injection Htask as <-.
      cbn [BatchTask.ID BatchTask.Labels]. split.
      * case_bool_decide as Hid; [by destruct Hid |]. apply Sprintf_TASK_03d_not_empty.
      * case_bool_decide; [apply splitAndTrim_clean | constructor].
Qed.

(** A header without the column "description", "priority" or "assignee"
    does not leave the field empty: the loader reads the first cell of
    the row in its place. *)
Theorem LoadBatchRequestFromCSV_missing_columns (records : list (list gostring))
    (request : BatchRequest.t) :
  LoadBatchRequestFromCSV (Records records) = Ok request →
  let header := default [] (head records) in
  let titleIdx := default 0%Z (fill_columns 0 header ∅ !! go "title") in
  let reached := filter (λ row, (titleIdx < len row)%Z) (drop 1 records) in
  let first_cells := (λ row, cell row 0) <$> reached in
  length (BatchRequest.Tasks request) = length reached
  ∧ (go "description" ∉ header →
     BatchTask.Description <$> BatchRequest.Tasks request = first_cells)
  ∧ (go "priority" ∉ header →
     BatchTask.Priority <$> BatchRequest.Tasks request = first_cells)
  ∧ (go "assignee" ∉ header →
     BatchTask.Assignee <$> BatchRequest.Tasks request = first_cells).
Proof.
  unfold LoadBatchRequestFromCSV. case_bool_decide as Hcount; [done |].
  set (header := default [] (head records)).
  set (colMap := fill_columns 0 header ∅).
  destruct (colMap !! go "title") as [titleIdx|] eqn:Htitle; [| done].
  case_bool_decide as Hnone; [done |]. intros [= <-]. cbn zeta.
  cbn [default BatchRequest.Tasks].
  assert (0 ≤ titleIdx)%Z as Hidx.
  { apply fill_columns_Some in Htitle as [(n & _ & -> & _) | [_ Hempty]]; [lia |].
    by rewrite lookup_empty in Hempty. }
  assert (∀ name (f : BatchTask.t → gostring),
            (∀ i row, (titleIdx < len row)%Z →
               ∃ task, csv_task colMap titleIdx i row = Some task
                       ∧ f task = if bool_decide (default 0 (colMap !! name) < len row)%Z
                                  then cell row (default 0%Z (colMap !! name)) else []) →
            name ∉ header →
            f <$> csv_rows colMap titleIdx 0 (drop 1 records) []
            = (λ row, cell row 0) <$> filter (λ row, (titleIdx < len row)%Z)
                                         (drop 1 records)) as Hcolumn.
  { intros name f Hf Hname.
    assert (colMap !! name = None) as Hnone'.
    { apply fill_columns_None. by rewrite lookup_empty. }
    rewrite (csv_rows_fmap _ (λ row, cell row 0)); [done |].
    intros i row task Htask.
    destruct (decide (titleIdx < len row)%Z) as [Hlen | Hlen].
    - destruct (Hf i row Hlen) as (task' & Htask' & Hfield).
      assert (task' = task) as -> by congruence.
      rewrite Hfield, Hnone'. cbn [default]. by rewrite bool_decide_eq_true_2 by lia.
    - rewrite csv_task_skips in Htask by lia. done. }
  split_and!.
  - rewrite <-(length_fmap BatchTask.Title).
    rewrite (csv_rows_fmap _ (λ row, cell row titleIdx)).
    + cbn [fmap list_fmap app]. by rewrite length_fmap.
    + intros i row task Htask. unfold csv_task in Htask.
      case_bool_decide; [done |]. by injection Htask as <-.
  - apply Hcolumn. intros i row Hlen. unfold csv_task.
    rewrite bool_decide_eq_false_2 by lia. eauto.
  - apply Hcolumn. intros i row Hlen. unfold csv_task.
    rewrite bool_decide_eq_false_2 by lia. eauto.
  - apply Hcolumn. intros i row Hlen. unfold csv_task.
    rewrite bool_decide_eq_false_2 by lia. eauto.
Qed.
End loaders_correct.

Lemma splitAndTrim_join_witness :
  @splitAndTrim latin1 (go "backend| auth |") (go "|") = [go "backend"; go "auth"].
Proof.
  destruct (@splitAndTrim_join latin1 124%N [go "backend"; go " auth "; go ""]) as [Hrun _].
  - apply (bool_decide_unpack _). vm_compute. reflexivity.
  - exact Hrun.
Defined.

Lemma LoadBatchRequestFromCSV_missing_columns_witness :
  ∃ request,
    @LoadBatchRequestFromCSV latin1 (Records bare_records) = Ok request
    ∧ BatchTask.Description <$> BatchRequest.Tasks request
      = [go "Add login"; go "Fix logout"].
Proof.
  eexists. split; [vm_compute; reflexivity |].
  apply (@LoadBatchRequestFromCSV_missing_columns latin1 bare_records).
  - vm_compute. reflexivity.
  - apply (bool_decide_unpack _). vm_compute. reflexivity.
Defined.

(** ** Where the entries of the enhanced dataset come from *)

Section enhancer_provenance.
Variable config : EstimationConfig.t.

Lemma percentile_loop_tags tasksWithHours remaining enhanced selectedMap :
  ∃ added,
    (percentile_loop config tasksWithHours remaining enhanced selectedMap).1
    = enhanced ++ added
    ∧ (length added ≤ length remaining)%nat
    ∧ ((EstimationConfig.MinSimilarTasks config ≤ len enhanced)%Z → added = [])
    ∧ Forall (λ m, SimilarityMatch.Similarity m = 0
                   ∧ SimilarityMatch.Task m ∈ tasksWithHours
                   ∧ ∃ p, p ∈ remaining ∧ SimilarityMatch.Matches m = [percentile_tag p])
             added.
Proof.
  revert enhanced selectedMap.
  induction remaining as [|p remaining IH]; intros enhanced selectedMap.
  - exists []. cbn [percentile_loop fst]. by rewrite (right_id_L [] (++)).
  - cbn [percentile_loop]. case_bool_decide as Hmin.
    { exists []. cbn [fst]. rewrite (right_id_L [] (++)).
      split_and!; [done | simpl; lia | done | constructor]. }
    cbn zeta.
    assert (∀ enhanced' selectedMap',
              enhanced' = enhanced →
              ∃ added,
                (percentile_loop config tasksWithHours remaining enhanced' selectedMap').1
                = enhanced ++ added
                ∧ (length added ≤ length (p :: remaining))%nat
                ∧ ((EstimationConfig.MinSimilarTasks config ≤ len enhanced)%Z → added = [])
                ∧ Forall (λ m, SimilarityMatch.Similarity m = 0
                               ∧ SimilarityMatch.Task m ∈ tasksWithHours
                               ∧ ∃ p', p' ∈ p :: remaining
                                       ∧ SimilarityMatch.Matches m = [percentile_tag p'])
                         added) as Hskip.
    { intros enhanced' selectedMap' ->.
      destruct (IH enhanced selectedMap') as (added & Hrun & Hlen & _ & Hall).
      exists added. split_and!; [done | simpl; lia | intros; lia |].
      eapply Forall_impl; [exact Hall |].
      intros m (? & ? & p' & ? & ?). split_and!; [done | done |].
      exists p'. split; [by right | done]. }
    destruct (tasksWithHours !! Z.to_nat (percentile_index (len tasksWithHours) p))
      as [hist|] eqn:Hidx; [| by apply Hskip].
    case_bool_decide as Hsel; [by apply Hskip |].
    set (new := SimilarityMatch.mk hist 0 [percentile_tag p]).
    destruct (IH (enhanced ++ [new]) ({[addr hist]} ∪ selectedMap))
      as (added & Hrun & Hlen & _ & Hall).
    exists (new :: added). split_and!.
    + rewrite Hrun. by rewrite <-(assoc_L (++)).
    + simpl. lia.
    + intros. lia.
    + constructor.
      * split_and!; [done | by eapply list_elem_of_lookup_2 |].
        exists p. split; [by left | done].
      * eapply Forall_impl; [exact Hall |].
        intros m (? & ? & p' & ? & ?). split_and!; [done | done |].
        exists p'. split; [by right | done].
Qed.

(** The enhanced dataset is made of three stretches: the similar tasks,
    up to [MaxSimilarTasks]; then samples by size; then samples by
    percentile of the hours.  Every sample has similarity 0 and one tag
    that tells where it comes from; a sample by size is an entry of the
    history with one of the five sizes, a sample by percentile one with
    positive hours.  When the similar tasks reach [MinSimilarTasks] there
    is no sample. *)
Theorem selectEnhancedDataset_provenance (similarTasks : list SimilarityMatch.t)
    (historical : list (ptr HistoricalTask.t)) :
  let kept := take (Z.to_nat (EstimationConfig.MaxSimilarTasks config)) similarTasks in
  ∃ by_size by_percentile,
    selectEnhancedDataset config similarTasks historical = kept ++ by_size ++ by_percentile
    ∧ Forall (λ m, SimilarityMatch.Similarity m = 0
                   ∧ SimilarityMatch.Matches m = [go "stratified_sample"]
                   ∧ SimilarityMatch.Task m ∈ historical
                   ∧ HistoricalTask.EstimatedSize (deref (SimilarityMatch.Task m)) ∈ sizes)
             by_size
    ∧ Forall (λ m, SimilarityMatch.Similarity m = 0
                   ∧ SimilarityMatch.Matches m
                     ∈ [[go "percentile_10"]; [go "percentile_25"]; [go "percentile_50"];
                        [go "percentile_75"]; [go "percentile_90"]]
                   ∧ SimilarityMatch.Task m ∈ historical
                   ∧ 0 < HistoricalTask.ActualHours (deref (SimilarityMatch.Task m)))
             by_percentile
    ∧ (length by_percentile ≤ 5)%nat
    ∧ ((EstimationConfig.MinSimilarTasks config ≤ len kept)%Z →
       by_size = [] ∧ by_percentile = []).
Proof.
  cbn zeta. unfold selectEnhancedDataset. rewrite add_similar_spec. cbn zeta.
  change (len (@nil SimilarityMatch.t)) with 0%Z. rewrite Z.sub_0_r.
  set (kept := take (Z.to_nat (EstimationConfig.MaxSimilarTasks config)) similarTasks).
  rewrite app_nil_l, (right_id_L ∅ (∪)).
  assert (∀ enhanced selectedMap by_size,
    enhanced = kept ++ by_size →
    ((EstimationConfig.MinSimilarTasks config ≤ len kept)%Z → by_size = []) →
    Forall (λ m, SimilarityMatch.Similarity m = 0
                 ∧ SimilarityMatch.Matches m = [go "stratified_sample"]
                 ∧ SimilarityMatch.Task m ∈ historical
                 ∧ HistoricalTask.EstimatedSize (deref (SimilarityMatch.Task m)) ∈ sizes)
           by_size →
    ∃ by_size' by_percentile,
      (let '(enhanced, _) :=
         if bool_decide (len enhanced < EstimationConfig.MinSimilarTasks config)%Z
         then
           let tasksWithHours :=
             filter (λ hist, (addr hist ∉ selectedMap)
                             ∧ 0 < HistoricalTask.ActualHours (deref hist)) historical in
           let tasksWithHours := sort_tasks_by_hours tasksWithHours in
           if bool_decide (0 < len tasksWithHours)%Z
           then percentile_loop config tasksWithHours percentiles enhanced selectedMap
           else (enhanced, selectedMap)
         else (enhanced, selectedMap) in
       enhanced) = kept ++ by_size' ++ by_percentile
      ∧ Forall (λ m, SimilarityMatch.Similarity m = 0
                     ∧ SimilarityMatch.Matches m = [go "stratified_sample"]
                     ∧ SimilarityMatch.Task m ∈ historical
                     ∧ HistoricalTask.EstimatedSize (deref (SimilarityMatch.Task m)) ∈ sizes)
               by_size'
      ∧ Forall (λ m, SimilarityMatch.Similarity m = 0
                     ∧ SimilarityMatch.Matches m
                       ∈ [[go "percentile_10"]; [go "percentile_25"]; [go "percentile_50"];
                          [go "percentile_75"]; [go "percentile_90"]]
                     ∧ SimilarityMatch.Task m ∈ historical
                     ∧ 0 < HistoricalTask.ActualHours (deref (SimilarityMatch.Task m)))
               by_percentile
      ∧ (length by_percentile ≤ 5)%nat
      ∧ ((EstimationConfig.MinSimilarTasks config ≤ len kept)%Z →
         by_size' = [] ∧ by_percentile = [])) as Hstep3.
  { intros enhanced selectedMap by_size -> Hnone Hsize.
    assert (len kept ≤ len (kept ++ by_size))%Z as Hgrow
      by (unfold len; rewrite length_app; lia).
    case_bool_decide as Hmin.
    2:{ exists by_size, []. rewrite (right_id_L [] (++)).
        split_and!; [done | done | constructor | simpl; lia | by intros ?%Hnone]. }
    cbn zeta. set (tasksWithHours := sort_tasks_by_hours _).
    case_bool_decide as Hhours.
    2:{ exists by_size, []. rewrite (right_id_L [] (++)).
        split_and!; [done | done | constructor | simpl; lia | by intros ?%Hnone]. }
    destruct (percentile_loop_tags tasksWithHours percentiles (kept ++ by_size) selectedMap)
      as (added & Hrun & Hlen & _ & Hall).
    destruct (percentile_loop config tasksWithHours percentiles (kept ++ by_size) selectedMap)
      as [enhanced3 selected3].
    cbn [fst] in Hrun. subst enhanced3.
    exists by_size, added. rewrite <-(assoc_L (++)).
    split_and!; [done | done | | exact Hlen | intros; lia].
    eapply Forall_impl; [exact Hall |].
    intros m (Hzero & Hin & p & Hp & Htag). split_and!; [done | | |].
    - rewrite Htag. clear -Hp. unfold percentiles in Hp.
      rewrite !elem_of_cons, elem_of_nil in Hp.
      destruct Hp as [-> | [-> | [-> | [-> | [-> | []]]]]];
        apply (bool_decide_unpack _); vm_compute; reflexivity.
    - unfold tasksWithHours, sort_tasks_by_hours in Hin.
      rewrite exchange_sort_Permutation in Hin.
      by apply list_elem_of_filter in Hin as [_ ?].
    - unfold tasksWithHours, sort_tasks_by_hours in Hin.
      rewrite exchange_sort_Permutation in Hin.
      by apply list_elem_of_filter in Hin as [[_ ?] _]. }
  case_bool_decide as Hmin1.
  2:{ apply (Hstep3 kept _ []); [by rewrite (right_id_L [] (++)) | done | constructor]. }
  destruct (stratified_loop_spec config (size_buckets historical (selected_of kept))
              sizes kept (selected_of kept)) as (picked & -> & Hsub & _).
  rewrite size_buckets_fmap in Hsub by apply sizes_nonempty.
  apply (Hstep3 _ _ (stratified_match <$> picked)); [done | intros; lia |].
  apply Forall_fmap, Forall_forall. intros h Hh.
  apply (sublist_subseteq _ _ Hsub) in Hh.
  apply size_buckets_concat_elem in Hh as (Hin & _ & Hsize).
  by split_and!.
Qed.
End enhancer_provenance.

(** ** Confidence levels and the counters of the batch *)

Lemma GetConfidenceLevel_score (r : EstimationResult.t) (est : EstimationResponse.t) :
  EstimationResult.Estimation r = Some est →
  let score := EstimationResponse.ConfidenceScore est in
  ConfidenceScore r = score
  ∧ (GetConfidenceLevel r = go "high" ↔ dec 8 10 ≤ score)
  ∧ (GetConfidenceLevel r = go "medium" ↔ dec 5 10 ≤ score ∧ score < dec 8 10)
  ∧ (GetConfidenceLevel r = go "low" ↔ score < dec 5 10)
  ∧ GetConfidenceLevel r ≠ go "unknown".
Proof.
  intros Hest. cbn zeta. unfold ConfidenceScore, GetConfidenceLevel. rewrite Hest.
  set (score := EstimationResponse.ConfidenceScore est). clearbody score.
  assert (dec 5 10 < dec 8 10) as Hlt by (by apply (bool_decide_unpack _)).
  split; [done |].
  repeat case_bool_decide; split_and!; try split;
    try (intros Heq; vm_compute in Heq; discriminate Heq);
    try done; try (intros; qc_lra); try (intros [? ?]; qc_lra).
Qed.

Lemma counted_filter_length (P : EstimationResponse.t → Prop) (Q : EstimationResult.t → Prop)
    `{!∀ e, Decision (P e)} `{!∀ r, Decision (Q r)} (results : list BatchResult.t) :
  (∀ r est, EstimationResult.Estimation r = Some est → P est ↔ Q r) →
  len (filter P (successes results)) = len (filter Q (counted_results results)).
Proof.
  intros HPQ. unfold successes, counted_results, len. f_equal.
  induction results as [|result results IH]; [done |].
  cbn [omap list_omap]. unfold counted_estimate at 1.
  destruct (BatchResult.Error result); [exact IH |].
  destruct (BatchResult.Result result) as [r|]; [| exact IH].
  destruct (EstimationResult.Estimation r) as [est|] eqn:Hest; [| exact IH].
  rewrite !filter_cons. destruct (decide (P est)) as [HP | HP].
  - rewrite decide_True by (by apply (HPQ r est)). cbn [length]. by rewrite IH.
  - rewrite decide_False by (by rewrite <-(HPQ r est)). exact IH.
Qed.

Lemma counted_results_estimated results :
  Forall (λ r, is_Some (EstimationResult.Estimation r)) (counted_results results).
Proof.
  unfold counted_results. induction results as [|result results IH]; [constructor |].
  cbn [omap list_omap].
  destruct (BatchResult.Error result); [exact IH |].
  destruct (BatchResult.Result result) as [r|]; [| exact IH].
  destruct (EstimationResult.Estimation r) as [est|] eqn:Hest; [| exact IH].
  constructor; [by rewrite Hest | exact IH].
Qed.

Lemma filter_split_length {A} (P Q R : A → Prop)
    `{!∀ x, Decision (P x)} `{!∀ x, Decision (Q x)} `{!∀ x, Decision (R x)} (l : list A) :
  Forall (λ x, (P x ↔ Q x ∨ R x) ∧ ¬ (Q x ∧ R x)) l →
  len (filter P l) = (len (filter Q l) + len (filter R l))%Z.
Proof.
  unfold len. induction 1 as [|x l [Hx Hno] _ IH]; [done |].
  rewrite !filter_cons.
  destruct (decide (P x)), (decide (Q x)), (decide (R x)); cbn [length]; try lia; tauto.
Qed.

(** The counters of the batch and [GetConfidenceLevel] draw the line
    between medium and high at different scores, 0.70 and 0.8: the batch
    counts as high what [GetConfidenceLevel] calls "high" and also the
    results it calls "medium" whose score is 0.70 or more.  On "low" the
    two agree, and no counted result is "unknown". *)
Theorem calculateStatistics_confidence_levels (results : list BatchResult.t) :
  let stats := calculateStatistics results in
  let counted := counted_results results in
  let level name := filter (λ r, GetConfidenceLevel r = go name) counted in
  let between :=
    filter (λ r, GetConfidenceLevel r = go "medium" ∧ dec 70 100 ≤ ConfidenceScore r)
           counted in
  BatchStatistics.HighConfidenceTasks stats = (len (level "high") + len between)%Z
  ∧ BatchStatistics.MediumConfidenceTasks stats = (len (level "medium") - len between)%Z
  ∧ BatchStatistics.LowConfidenceTasks stats = len (level "low")
  ∧ level "unknown" = []
  ∧ Forall (λ r, dec 70 100 ≤ ConfidenceScore r ∧ ConfidenceScore r < dec 8 10) between.
Proof.
  cbn zeta. unfold calculateStatistics. cbn zeta.
  destruct (batch_stats_fold_confidence results batch_stats_init)
    as (Hhi & Hmid & Hlo & _).
  cbn [batch_stats_init batchLoop.stats BatchStatistics.HighConfidenceTasks
       BatchStatistics.MediumConfidenceTasks BatchStatistics.LowConfidenceTasks]
    in Hhi, Hmid, Hlo.
  cbn [BatchStatistics.HighConfidenceTasks BatchStatistics.MediumConfidenceTasks
       BatchStatistics.LowConfidenceTasks].
  rewrite Hhi, Hmid, Hlo, !Z.add_0_l.
  pose proof (counted_results_estimated results) as Hest.
  assert (dec 5 10 < dec 70 100 ∧ dec 70 100 < dec 8 10 ∧ dec 5 10 = dec 50 100) as Hline
    by (split_and!; by apply (bool_decide_unpack _)).
  destruct Hline as (H57 & H78 & H55).
  split_and!.
  - rewrite (counted_filter_length _ (λ r, dec 70 100 ≤ ConfidenceScore r)).
    2:{ intros r est Hr. destruct (GetConfidenceLevel_score r est Hr) as (-> & _). done. }
    apply filter_split_length.
    eapply Forall_impl; [exact Hest |]. intros r [est Hr].
    destruct (GetConfidenceLevel_score r est Hr) as (-> & Hhigh & Hmedium & _ & _).
    rewrite Hhigh, Hmedium.
    set (score := EstimationResponse.ConfidenceScore est). clearbody score.
    split; [split |]; intros; destruct_and?; destruct_or?; destruct_and?;
      qc_lra.
  - rewrite (counted_filter_length _
               (λ r, dec 50 100 ≤ ConfidenceScore r ∧ ConfidenceScore r < dec 70 100)).
    2:{ intros r est Hr. destruct (GetConfidenceLevel_score r est Hr) as (-> & _). done. }
    set (counted := counted_results results) in *.
    enough (len (filter (λ r, GetConfidenceLevel r = go "medium") counted)
            = Z.add (len (filter (λ r, dec 50 100 ≤ ConfidenceScore r
                                       ∧ ConfidenceScore r < dec 70 100) counted))
                    (len (filter (λ r, GetConfidenceLevel r = go "medium"
                                       ∧ dec 70 100 ≤ ConfidenceScore r) counted)))
      by lia.
    apply filter_split_length.
    eapply Forall_impl; [exact Hest |]. intros r [est Hr].
    destruct (GetConfidenceLevel_score r est Hr) as (-> & _ & Hmedium & _ & _).
    rewrite Hmedium.
    set (score := EstimationResponse.ConfidenceScore est). clearbody score.
    split; [split |]; intros; destruct_and?; destruct_or?; destruct_and?; qc_lra.
  - apply (counted_filter_length _ (λ r, GetConfidenceLevel r = go "low")).
    intros r est Hr. destruct (GetConfidenceLevel_score r est Hr) as (_ & _ & _ & Hlow & _).
    rewrite Hlow. cbn zeta. by rewrite H55.
  - revert Hest. generalize (counted_results results). intros counted Hest.
    induction Hest as [|r counted [est Hr] _ IH]; [done |].
    destruct (GetConfidenceLevel_score r est Hr) as (_ & _ & _ & _ & Hknown).
    by rewrite filter_cons, decide_False.
  - apply Forall_forall. intros r Hin.
    apply list_elem_of_filter in Hin as [[Hlevel Hscore] Hin].
    destruct (proj1 (Forall_forall _ _) Hest r Hin) as [est Hr].
    destruct (GetConfidenceLevel_score r est Hr) as (Heq & _ & Hmedium & _ & _).
    apply Hmedium in Hlevel as [_ Hbelow]. rewrite Heq in *. done.
Qed.

(** Of a failure and two successes of confidence 0.75 and 0.4, the batch
    counts one as high though none is of level "high". *)
Example confidence_levels_differ :
  BatchStatistics.HighConfidenceTasks (calculateStatistics tier_results) = 1%Z
  ∧ filter (λ r, GetConfidenceLevel r = go "high") (counted_results tier_results) = [].
Proof. split; vm_compute; reflexivity. Qed.

(** The loader on a file of three rows: the second row gets a generated
    ID, and the labels are split at the bar and trimmed. *)
Example LoadBatchRequestFromCSV_example :
  match @LoadBatchRequestFromCSV latin1 (Records example_records) with
  | Ok request =>
      (λ task, (BatchTask.ID task, BatchTask.Title task, BatchTask.Labels task))
      <$> BatchRequest.Tasks request
      = [ (go "T-1", go "Add login", [go "backend"; go "auth"]);
          (go "TASK-002", go "Fix logout", []);
          (go "T-3", go "Write docs", [go "docs"]) ]
  | Err _ => False
  end.
Proof. vm_compute. reflexivity. Qed.
